(** * Prosody pipeline of the Spanish F5-TTS wrapper: a shallow embedding

    The development embeds the control logic of three Python modules,

    - [modules/core/prosody_orchestrator.py]  (text segmentation, dramatic
      centre, narrative arc, pause assignment),
    - [modules/complex_generator.py]          (validation and retry loop,
      quality score),
    - [modules/core/prosody_processor.py]     (acoustic summary, problem
      detector, selective regenerator),

    and proves or refutes the statements of the specification about them.

    Modelling conventions.
    - A Python [str] is a list of Unicode code points ([pystr]).
    - A Python [float] is an exact rational ([Q]); the one place where the
      code can produce a NaN is made explicit with [npfloat].
    - Python exceptions are explicit results; loops that the source writes
      as [while True] or [while cambios] take a fuel argument and return
      [None] when it is exhausted.
    - The neural engine, the file system and the numeric libraries (numpy,
      librosa) are oracles or Section variables. *)

From Stdlib Require Import List NArith ZArith QArith Qabs Qminmax Lia Lqa Bool String Ascii.
From Stdlib Require Import Sorted Permutation.
From stdpp Require Import list.
Import ListNotations.

Local Open Scope nat_scope.

(* ================================================================== *)
(** * Part I. Definitions                                              *)
(* ================================================================== *)

(** ** Python strings *)

Module Py.

Definition pychar := N.
Definition pystr := list pychar.

(** An ASCII literal as a Python string. *)
Definition lit (s : string) : pystr :=
  List.map N_of_ascii (list_ascii_of_string s).

(** Code points of the non-ASCII characters the sources mention. *)
Definition c_excl_open : pychar := 161%N.   (* inverted exclamation mark *)
Definition c_quest_open : pychar := 191%N.  (* inverted question mark *)
Definition c_A_acute : pychar := 193%N.
Definition c_E_acute : pychar := 201%N.
Definition c_I_acute : pychar := 205%N.
Definition c_N_tilde : pychar := 209%N.
Definition c_O_acute : pychar := 211%N.
Definition c_U_acute : pychar := 218%N.
Definition c_a_acute : pychar := 225%N.
Definition c_e_acute : pychar := 233%N.
Definition c_i_acute : pychar := 237%N.
Definition c_o_acute : pychar := 243%N.
Definition c_u_acute : pychar := 250%N.

Definition c_dot : pychar := 46%N.
Definition c_bang : pychar := 33%N.
Definition c_quest : pychar := 63%N.
Definition c_comma : pychar := 44%N.

(** [str.isspace] on one character, which is also what [\s] matches in a
    [str] pattern. *)
Definition is_space (c : pychar) : bool :=
  ((9 <=? c) && (c <=? 13) || (28 <=? c) && (c <=? 32)
   || (c =? 133) || (c =? 160) || (c =? 5760)
   || (8192 <=? c) && (c <=? 8202)
   || (c =? 8232) || (c =? 8233) || (c =? 8239) || (c =? 8287)
   || (c =? 12288))%N.

(** The class [[.!?]]. *)
Definition is_terminal (c : pychar) : bool :=
  ((c =? c_dot) || (c =? c_bang) || (c =? c_quest))%N.

(** The class [[!?]]. *)
Definition is_bang_quest (c : pychar) : bool :=
  ((c =? c_bang) || (c =? c_quest))%N.

(** The class of the two Spanish opening marks. *)
Definition is_opening (c : pychar) : bool :=
  ((c =? c_excl_open) || (c =? c_quest_open))%N.

(** The class [[A-Z]] extended with the accented capitals of the source. *)
Definition is_capital (c : pychar) : bool :=
  ((65 <=? c) && (c <=? 90)
   || (c =? c_A_acute) || (c =? c_E_acute) || (c =? c_I_acute)
   || (c =? c_O_acute) || (c =? c_U_acute) || (c =? c_N_tilde))%N.

Fixpoint drop_while (p : pychar -> bool) (s : pystr) : pystr :=
  match s with
  | [] => []
  | c :: r => if p c then drop_while p r else s
  end.

Fixpoint take_while (p : pychar -> bool) (s : pystr) : pystr :=
  match s with
  | [] => []
  | c :: r => if p c then c :: take_while p r else []
  end.

Definition lstrip (s : pystr) : pystr := drop_while is_space s.
Definition rstrip (s : pystr) : pystr := rev (drop_while is_space (rev s)).
Definition strip (s : pystr) : pystr := rstrip (lstrip s).

Fixpoint startswith (pre s : pystr) : bool :=
  match pre, s with
  | [], _ => true
  | _ :: _, [] => false
  | a :: pre', b :: s' => (a =? b)%N && startswith pre' s'
  end.

Definition endswith (suf s : pystr) : bool := startswith (rev suf) (rev s).

(** [sub in s]. *)
Fixpoint contains (sub s : pystr) : bool :=
  startswith sub s ||
  match s with
  | [] => false
  | _ :: r => contains sub r
  end.

(** [s.count(sub)]: occurrences from left to right, not overlapping. *)
Fixpoint count_from (skip : nat) (sub s : pystr) : nat :=
  match s with
  | [] => match sub with [] => 1 | _ :: _ => 0 end
  | _ :: r =>
      match skip with
      | S k => count_from k sub r
      | O => if startswith sub s
             then S (count_from (length sub - 1) sub r)
             else count_from 0 sub r
      end
  end.

Definition count (s sub : pystr) : nat := count_from 0 sub s.

(** [s.replace(old, new)]. *)
Fixpoint replace_from (skip : nat) (old new s : pystr) : pystr :=
  match s with
  | [] => []
  | c :: r =>
      match skip with
      | S k => replace_from k old new r
      | O => if startswith old s
             then new ++ replace_from (length old - 1) old new r
             else c :: replace_from 0 old new r
      end
  end.

Definition replace (old new s : pystr) : pystr :=
  match old with
  | [] => new ++ List.concat (List.map (fun c => c :: new) s)
  | _ :: _ => replace_from 0 old new s
  end.

(** [s.split(sep)] for a non-empty separator. *)
Fixpoint split_from (skip : nat) (sep cur s : pystr) : list pystr :=
  match s with
  | [] => [rev cur]
  | c :: r =>
      match skip with
      | S k => split_from k sep cur r
      | O => if startswith sep s
             then rev cur :: split_from (length sep - 1) sep [] r
             else split_from 0 sep (c :: cur) r
      end
  end.

Definition split (sep s : pystr) : list pystr := split_from 0 sep [] s.

Definition nonempty (s : pystr) : bool :=
  match s with [] => false | _ :: _ => true end.

(** [s[-1]] of a non-empty string. *)
Definition last_char (s : pystr) : option pychar := List.last (List.map Some s) None.

(** [s[-1] in '.!?'] for a non-empty [s]. *)
Definition ends_in_terminal (s : pystr) : bool :=
  match last_char s with
  | Some c => is_terminal c
  | None => false
  end.

(** Python indexing [l[i]] with negative indices counted from the end;
    [None] stands for [IndexError]. *)
Definition norm_index (len : nat) (i : Z) : option nat :=
  if (0 <=? i)%Z then
    (if (i <? Z.of_nat len)%Z then Some (Z.to_nat i) else None)
  else
    (if (- Z.of_nat len <=? i)%Z then Some (Z.to_nat (Z.of_nat len + i)) else None).

Definition getitem {A} (l : list A) (i : Z) : option A :=
  match norm_index (length l) i with
  | Some n => l !! n
  | None => None
  end.

(** [l[i] = x]; [None] stands for [IndexError]. *)
Definition setitem {A} (l : list A) (i : Z) (x : A) : option (list A) :=
  match norm_index (length l) i with
  | Some n => Some (<[n := x]> l)
  | None => None
  end.

(** Python slices [l[:k]], [l[k:]] and [l[a:b]] with integer bounds. *)
Definition clamp_index (len : nat) (i : Z) : nat :=
  if (0 <=? i)%Z then Nat.min (Z.to_nat i) len
  else Z.to_nat (Z.max 0 (Z.of_nat len + i)).

Definition slice_to {A} (k : Z) (l : list A) : list A :=
  firstn (clamp_index (length l) k) l.

Definition slice_from {A} (k : Z) (l : list A) : list A :=
  skipn (clamp_index (length l) k) l.

Definition slice {A} (a b : Z) (l : list A) : list A :=
  let lo := clamp_index (length l) a in
  let hi := clamp_index (length l) b in
  firstn (hi - lo) (skipn lo l).

End Py.

(** ** The orchestrator: [ArquitecturaVocalMaestra] *)

Module Orquestador.
Import Py.

Section Segmentacion.

(** [\w] of Python's [re] on [str] patterns: the alphanumeric characters of
    the Unicode database and the underscore.  The database is not part of
    the sources, so the class is a parameter. *)
Variable is_word : pychar -> bool.

Definition abreviaturas : list pystr :=
  [lit "Sr"; lit "Sra"; lit "Dr"; lit "Dra"; lit "St"; lit "Sto"; lit "Sta"].

Definition marca_dot : pystr := lit "<DOT>".
Definition marca_break : pystr := lit "<FRASE_BREAK>".

(** The alternation [(Sr|Sra|Dr|Dra|St|Sto|Sta)\.] at the head of [s]:
    the first alternative, in the order written, that is followed by a
    dot. *)
Definition abreviatura_en (s : pystr) : option pystr :=
  List.find (fun a => startswith (a ++ [c_dot]) s) abreviaturas.

(** [re.sub(r'\b(Sr|Sra|Dr|Dra|St|Sto|Sta)\.\s*', r'\1<DOT> ', s)].
    [prev] tells whether the character before the current position is a
    word character; [skip] counts characters already consumed by a match. *)
Fixpoint proteger_abreviaturas (skip : nat) (prev : bool) (s : pystr) : pystr :=
  match s with
  | [] => []
  | c :: r =>
      match skip with
      | S k => proteger_abreviaturas k (is_word c) r
      | O =>
          match (if xorb prev (is_word c) then abreviatura_en s else None) with
          | Some a =>
              let resto := List.skipn (length a + 1) s in
              let blancos := length (take_while is_space resto) in
              a ++ marca_dot ++ lit " "
                ++ proteger_abreviaturas (length a + blancos) (is_word c) r
          | None => c :: proteger_abreviaturas 0 (is_word c) r
          end
      end
  end.

(** [re.sub(r'([.!?])\s{m,}([¡¿])', r'\1<FRASE_BREAK>\2', s)], with [m = 0]
    for [\s*] and [m = 2] for [\s{2,}].  No opening mark is a blank, so
    the greedy run of blanks is the only candidate. *)
Fixpoint marcar_aperturas (m : nat) (skip : nat) (s : pystr) : pystr :=
  match s with
  | [] => []
  | c :: r =>
      match skip with
      | S k => marcar_aperturas m k r
      | O =>
          let blancos := length (take_while is_space r) in
          match drop_while is_space r with
          | o :: _ =>
              if is_terminal c && (m <=? blancos) && is_opening o
              then c :: marca_break ++ o :: marcar_aperturas m (blancos + 1) r
              else c :: marcar_aperturas m 0 r
          | [] => c :: marcar_aperturas m 0 r
          end
      end
  end.

(** [re.split(r'[.!?]+\s+', s)]. *)
Fixpoint re_split_terminal (skip : nat) (cur s : pystr) : list pystr :=
  match s with
  | [] => [rev cur]
  | c :: r =>
      match skip with
      | S k => re_split_terminal k cur r
      | O =>
          let signos := length (take_while is_terminal s) in
          let blancos := length (take_while is_space (drop_while is_terminal s)) in
          if is_terminal c && (1 <=? blancos)
          then rev cur :: re_split_terminal (signos + blancos - 1) [] r
          else re_split_terminal 0 (c :: cur) r
      end
  end.

(** Leftmost match of [X \s{m,} Y]: the position where it starts and the
    position of the character matched by [Y] ([match.start(2)]). *)
Fixpoint re_search (X Y : pychar -> bool) (m : nat) (p : nat) (s : pystr)
  : option (nat * nat) :=
  match s with
  | [] => None
  | c :: r =>
      let blancos := length (take_while is_space r) in
      match drop_while is_space r with
      | y :: _ =>
          if X c && (m <=? blancos) && Y y
          then Some (p, p + 1 + blancos)
          else re_search X Y m (S p) r
      | [] => re_search X Y m (S p) r
      end
  end.

(** The common tail of the four cases of [_dividir_frase_simple]. *)
Definition partir_en (texto : pystr) (pos : nat) (extra : pystr -> bool)
  : option (list pystr) :=
  let parte1 := strip (firstn pos texto) in
  let parte2 := strip (skipn pos texto) in
  if nonempty parte1 && nonempty parte2 && extra parte1
  then Some [parte1; parte2] else None.

Definition is_dot (c : pychar) : bool := (c =? c_dot)%N.

(** The four patterns of [_dividir_frase_simple], in order of priority:
    [([!?])\s*([¡¿])], [([.!?])\s*([¡¿])] not at the very start,
    [([!?])\s+([A-Z...])] and [(\.\s+)([A-Z...])]. *)
Definition dividir_caso1 (texto : pystr) : option (list pystr) :=
  match re_search is_bang_quest is_opening 0 0 texto with
  | Some (_, pos) => partir_en texto pos (fun _ => true)
  | None => None
  end.

Definition dividir_caso2 (texto : pystr) : option (list pystr) :=
  match re_search is_terminal is_opening 0 0 texto with
  | Some (ini, pos) =>
      if 0 <? ini then partir_en texto pos (fun _ => true) else None
  | None => None
  end.

Definition dividir_caso3 (texto : pystr) : option (list pystr) :=
  match re_search is_bang_quest is_capital 1 0 texto with
  | Some (_, pos) => partir_en texto pos (fun _ => true)
  | None => None
  end.

Definition dividir_caso4 (texto : pystr) : option (list pystr) :=
  match re_search is_dot is_capital 1 0 texto with
  | Some (_, pos) => partir_en texto pos (fun parte1 => 3 <? length parte1)
  | None => None
  end.

Definition _dividir_frase_simple (texto : pystr) : list pystr :=
  match dividir_caso1 texto with
  | Some r => r
  | None =>
      match dividir_caso2 texto with
      | Some r => r
      | None =>
          match dividir_caso3 texto with
          | Some r => r
          | None =>
              match dividir_caso4 texto with
              | Some r => r
              | None => [texto]
              end
          end
      end
  end.

(** One round of the [while cambios] loop per unit of fuel. *)
Fixpoint separar_bucle (fuel : nat) (frases_actuales : list pystr)
  : option (list pystr) :=
  match fuel with
  | O => None
  | S f =>
      let divididas := List.map _dividir_frase_simple frases_actuales in
      let cambios := existsb (fun d => 1 <? length d) divididas in
      let nuevas_frases := List.concat divididas in
      if cambios then separar_bucle f nuevas_frases else Some nuevas_frases
  end.

(** The closing loop of [_separar_exclamaciones_interrogaciones]. *)
Definition finalizar_frase (frase : pystr) : list pystr :=
  let frase_limpia := strip frase in
  if nonempty frase_limpia then
    if ends_in_terminal frase_limpia then [frase_limpia]
    else if startswith [c_excl_open] frase_limpia || contains [c_excl_open] frase_limpia
    then [frase_limpia ++ [c_bang]]
    else if startswith [c_quest_open] frase_limpia || contains [c_quest_open] frase_limpia
    then [frase_limpia ++ [c_quest]]
    else [frase_limpia ++ [c_dot]]
  else [].

Definition _separar_exclamaciones_interrogaciones (fuel : nat) (texto : pystr)
  : option (list pystr) :=
  match separar_bucle fuel [texto] with
  | Some frases_actuales => Some (List.concat (List.map finalizar_frase frases_actuales))
  | None => None
  end.

(** The fuel handed to the loop: one round more than the text has
    characters. *)
Definition combustible (texto : pystr) : nat := S (length texto).

Definition frases_raw_de (parrafo : pystr) : list pystr :=
  let texto_protegido := proteger_abreviaturas 0 false parrafo in
  let texto_protegido := marcar_aperturas 0 0 texto_protegido in
  let texto_protegido := marcar_aperturas 2 0 texto_protegido in
  if contains marca_break texto_protegido
  then split marca_break texto_protegido
  else re_split_terminal 0 [] texto_protegido.

Fixpoint segmentar_raw (frases_raw : list pystr) : option (list pystr) :=
  match frases_raw with
  | [] => Some []
  | f :: resto =>
      let f_clean := strip (replace marca_dot [c_dot] f) in
      match (if nonempty f_clean
             then _separar_exclamaciones_interrogaciones (combustible f_clean) f_clean
             else Some []) with
      | Some sub_frases =>
          match segmentar_raw resto with
          | Some frases => Some (sub_frases ++ frases)
          | None => None
          end
      | None => None
      end
  end.

Definition _segmentar_frases (parrafo : pystr) : option (list pystr) :=
  match segmentar_raw (frases_raw_de parrafo) with
  | Some frases => Some (List.filter (fun f => nonempty (strip f)) frases)
  | None => None
  end.

End Segmentacion.

(** A word class for running examples: what [\w] matches among the
    characters of Latin-1 (ASCII letters, digits and the underscore, the
    accented letters, the ordinal indicators, the micro sign, the
    superscript digits and the vulgar fractions). *)
Definition is_word_latin1 (c : pychar) : bool :=
  ((48 <=? c) && (c <=? 57) || (65 <=? c) && (c <=? 90) || (c =? 95)
   || (97 <=? c) && (c <=? 122)
   || (c =? 170) || (c =? 178) || (c =? 179) || (c =? 181) || (c =? 185)
   || (c =? 186) || (188 <=? c) && (c <=? 190)
   || (192 <=? c) && (c <=? 255) && negb (c =? 215) && negb (c =? 247))%N.

(** Python's [max(a, b)] and [min(a, b)] on numbers: the first argument
    unless the second is strictly larger (smaller). *)
Definition Qltb (a b : Q) : bool := negb (Qle_bool b a).
Definition py_max2 (a b : Q) : Q := if Qltb a b then b else a.
Definition py_min2 (a b : Q) : Q := if Qltb b a then b else a.

(** [max(l)] of a list of numbers ([None]: [ValueError] on the empty list)
    and [l.index(v)]. *)
Definition py_max (l : list Q) : option Q :=
  match l with
  | [] => None
  | x :: r => Some (fold_left py_max2 r x)
  end.

Fixpoint py_index (v : Q) (l : list Q) : option nat :=
  match l with
  | [] => None
  | x :: r => if Qeq_bool x v then Some O else option_map S (py_index v r)
  end.

Definition Qnat (n : nat) : Q := inject_Z (Z.of_nat n).

Section Planificacion.
Local Open Scope Q_scope.

(** [str.lower], which follows the Unicode database: a parameter. *)
Variable lower : pystr -> pystr.

Definition asi_pues : pystr := lit "as" ++ [c_i_acute] ++ lit " pues".
Definition en_conclusion : pystr := lit "en conclusi" ++ [c_o_acute] ++ lit "n".
Definition por_esta_razon : pystr := lit "por esta raz" ++ [c_o_acute] ++ lit "n".
Definition ademas : pystr := lit "adem" ++ [c_a_acute] ++ lit "s".
Definition tambien : pystr := lit "tambi" ++ [c_e_acute] ++ lit "n".

(** The table [indicadores_peso] of [_calcular_centro_dramatico] with the
    weight of each category, in the order of the dictionary. *)
Definition giros : list pystr :=
  [lit "sin embargo"; lit "pero"; lit "no obstante"; lit "aunque"; lit "mientras que"].
Definition importancia : list pystr :=
  [lit "fundamental"; lit "crucial"; lit "esencial"; lit "importante"; lit "clave"].
Definition conclusiones : list pystr :=
  [lit "finalmente"; lit "por lo tanto"; en_conclusion; asi_pues].
Definition contraste_adj : list pystr :=
  [lit "diferente"; lit "opuesto"; lit "contrario"; lit "distinto"].
Definition causalidad : list pystr :=
  [lit "porque"; lit "debido a"; por_esta_razon; lit "consecuentemente"].

Definition indicadores_peso : list (list pystr * Z) :=
  [(giros, 3%Z); (importancia, 2%Z); (conclusiones, 2%Z);
   (contraste_adj, 2%Z); (causalidad, 1%Z)].

(** The two nested [for] loops that count the indicators. *)
Definition peso_categoria (texto_lower : pystr) (peso : Z) (cat : list pystr * Z) : Z :=
  fold_left (fun acc palabra => (acc + Z.of_nat (count texto_lower palabra) * snd cat)%Z)
            (fst cat) peso.

Definition peso_lexico (texto_lower : pystr) : Z :=
  fold_left (peso_categoria texto_lower) indicadores_peso 0%Z.

(** The weight of paragraph [i] of [total]. *)
Definition peso_parrafo (total i : nat) (parrafo : pystr) : Q :=
  let peso := inject_Z (peso_lexico (lower parrafo)) + Qnat (length parrafo) / 100 in
  let rel := Qnat i / Qnat total in
  if Qle_bool (3 # 10) rel && Qle_bool rel (8 # 10) then peso * (12 # 10) else peso.

(** A text in which no word of the five categories occurs. *)
Definition sin_indicadores (texto_lower : pystr) : bool :=
  forallb (fun cat : list pystr * Z =>
             forallb (fun palabra => (count texto_lower palabra =? 0)%nat) (fst cat))
          indicadores_peso.

Definition pesos_parrafos (parrafos : list pystr) : list Q :=
  imap (peso_parrafo (length parrafos)) parrafos.

(** [None] stands for the [ValueError] of [max] on an empty list. *)
Definition _calcular_centro_dramatico (parrafos : list pystr) : option nat :=
  match py_max (pesos_parrafos parrafos) with
  | Some m => py_index m (pesos_parrafos parrafos)
  | None => None
  end.

(** [configuracion['arco_global']]. *)
Definition desarrollo_peak : Q := 15 # 100.
Definition cierre_drop : Q := - (8 # 100).

(** The body of the loop of [_generar_arco_narrativo] at index [i]. *)
Definition factor_arco (N centro i : nat) : Q :=
  if (i <? centro)%nat then
    1 + (Qnat i / Qnat centro) * desarrollo_peak
  else if (i =? centro)%nat then
    1 + desarrollo_peak
  else
    let descenso_restante := (Z.of_nat N - Z.of_nat centro - 1)%Z in
    if (0 <? descenso_restante)%Z then
      let pos_en_descenso :=
        inject_Z (Z.of_nat i - Z.of_nat centro) / inject_Z descenso_restante in
      (1 + desarrollo_peak) * (1 - pos_en_descenso)
      + (1 + cierre_drop) * pos_en_descenso
    else 1 + cierre_drop.

Definition _generar_arco_narrativo (N centro : nat) : list Q :=
  List.map (factor_arco N centro) (seq 0 N).

Inductive Transicion := contraste | continuidad | conclusion_parcial | normal.

Definition _detectar_tipo_transicion (frase_actual frase_siguiente : pystr) : Transicion :=
  let actual_lower := lower frase_actual in
  let siguiente_lower := lower frase_siguiente in
  if existsb (fun ind => contains ind siguiente_lower)
       [lit "sin embargo"; lit "pero"; lit "no obstante"; lit "aunque"]
  then contraste
  else if existsb (fun ind => contains ind siguiente_lower)
       [ademas; tambien; lit "asimismo"; lit "igualmente"]
  then continuidad
  else if existsb (fun ind => contains ind actual_lower)
       [lit "por tanto"; asi_pues; lit "en resumen"]
  then conclusion_parcial
  else normal.

(** The pause before any multiplier, by the last character of the
    stripped sentence. *)
Definition pausa_puntuacion (frase : pystr) : Q :=
  if endswith [c_dot] (strip frase) then 8 # 10
  else if endswith [c_bang] (strip frase) then 6 # 10
  else if endswith [c_quest] (strip frase) then 5 # 10
  else if endswith [c_comma] (strip frase) then 3 # 10
  else 5 # 10.

(** [None] stands for the [IndexError] of [todas_frases[frase_id + 1]]. *)
Definition _calcular_pausa_transicion (frase : pystr) (frase_id total_frases : Z)
    (todas_frases : list pystr) (es_ultimo_parrafo : bool) : option Q :=
  let pausa_base := pausa_puntuacion frase in
  let limitar := fun p : Q => py_min2 (py_max2 p (2 # 10)) 3 in
  if (frase_id =? total_frases - 1)%Z then
    if es_ultimo_parrafo
    then Some (limitar (pausa_base * 2))
    else Some (limitar (pausa_base * (18 # 10)))
  else if (frase_id <? total_frases - 1)%Z then
    match getitem todas_frases (frase_id + 1) with
    | None => None
    | Some siguiente_frase =>
        match _detectar_tipo_transicion frase siguiente_frase with
        | contraste => Some (limitar (pausa_base * (13 # 10)))
        | continuidad => Some (limitar (pausa_base * (8 # 10)))
        | conclusion_parcial => Some (limitar (pausa_base * (11 # 10)))
        | normal => Some (limitar pausa_base)
        end
    end
  else Some (limitar pausa_base).

End Planificacion.

(** The measure that every splitting round decreases. *)
Definition medida (frases : list pystr) : nat :=
  fold_right (fun f acc => (length f - 1) + acc) 0 frases.

(** What a sentence that leaves the segmenter looks like. *)
Definition frase_terminada (f : pystr) : Prop :=
  f <> [] /\ exists p c, f = p ++ [c] /\ (c = c_dot \/ c = c_bang \/ c = c_quest).

(** [str.lower] on the characters of Latin-1, for running examples. *)
Definition lower_latin1 (s : pystr) : pystr :=
  List.map (fun c : pychar =>
    if ((65 <=? c) && (c <=? 90)
        || (192 <=? c) && (c <=? 222) && negb (c =? 215))%N
    then (c + 32)%N else c) s.

End Orquestador.

(** ** The generator: [EstructuraComplejaMejorada] *)

Module Generador.
Import Py Orquestador.

(** A waveform: the samples of a numpy array. *)
Definition Audio := list Q.

Section AntiTruncamiento.
Local Open Scope Q_scope.

Variable lower : pystr -> pystr.
Variable is_word : pychar -> bool.

(** [np.sqrt(np.mean(audio**2))]: a square root, hence a parameter. *)
Variable np_rms : Audio -> Q.

(** [librosa.feature.rms(y=audio, frame_length=600, hop_length=150)[0]];
    [None] when the call raises. *)
Variable librosa_rms : Audio -> option (list Q).

Definition sample_rate : Q := 24000.
Definition min_duration_ratio : Q := 7 # 10.
Definition max_duration_ratio : Q := 15 # 10.
Definition min_energy_threshold : Q := 1 # 1000.
Definition max_silence_ratio : Q := 25 # 100.

Definition problematic_finals : list pychar :=
  [115; 100; 114; 110; 108]%N.   (* s d r n l *)

Definition vocal (c : pychar) : bool :=
  ((c =? 97) || (c =? 101) || (c =? 105) || (c =? 111) || (c =? 117))%N.

Definition vocal_acentuada (c : pychar) : bool :=
  vocal c || ((c =? c_a_acute) || (c =? c_e_acute) || (c =? c_i_acute)
              || (c =? c_o_acute) || (c =? c_u_acute))%N.

(** The number of matches [re.finditer] yields for a pattern
    [X medio? \s+ Y]: from left to right, not overlapping. *)
Fixpoint contar_patron (X : pychar -> bool) (medio : option pychar)
    (Y : pychar -> bool) (skip : nat) (s : pystr) : nat :=
  match s with
  | [] => O
  | c :: r =>
      match skip with
      | S k => contar_patron X medio Y k r
      | O =>
          let tras_medio :=
            match medio with
            | None => Some (r, O)
            | Some m =>
                match r with
                | m' :: r2 => if (m' =? m)%N then Some (r2, 1%nat) else None
                | [] => None
                end
            end in
          match tras_medio with
          | Some (r2, lm) =>
              let blancos := length (take_while is_space r2) in
              match drop_while is_space r2 with
              | y :: _ =>
                  if X c && (1 <=? blancos)%nat && Y y
                  then S (contar_patron X medio Y (lm + blancos + 1) r)
                  else contar_patron X medio Y 0 r
              | [] => contar_patron X medio Y 0 r
              end
          | None => contar_patron X medio Y 0 r
          end
      end
  end.

(** [re.findall(r'\b\w+\b', s)]: the maximal runs of word characters. *)
Fixpoint palabras_desde (cur s : pystr) : list pystr :=
  match s with
  | [] => match cur with [] => [] | _ :: _ => [rev cur] end
  | c :: r =>
      if is_word c then palabras_desde (c :: cur) r
      else match cur with
           | [] => palabras_desde [] r
           | _ :: _ => rev cur :: palabras_desde [] r
           end
  end.

Definition palabras (s : pystr) : list pystr := palabras_desde [] s.

Record Rasgos := {
  sinalefas : nat;
  finales_problematicos : nat;
  total_chars : nat;
  complexity_score : Q
}.

(** [detect_spanish_features]; the syllable estimate, which nothing reads,
    is left out. *)
Definition detect_spanish_features (text : pystr) : Rasgos :=
  let t := lower text in
  let n_sinalefas :=
    (contar_patron vocal_acentuada None vocal_acentuada 0 t
     + contar_patron vocal (Some 110%N) vocal 0 t
     + contar_patron vocal (Some 114%N) vocal 0 t)%nat in
  let n_finales :=
    length (List.filter
              (fun w => match last_char w with
                        | Some c => existsb (N.eqb c) problematic_finals
                        | None => false
                        end)
              (palabras t)) in
  let sinalefa_factor := Qnat n_sinalefas * (1 # 10) in
  let finals_factor := Qnat n_finales * (2 # 100) in
  {| sinalefas := n_sinalefas;
     finales_problematicos := n_finales;
     total_chars := length text;
     complexity_score := py_min2 1 (sinalefa_factor + finals_factor) |}.

(** The acceptable duration interval of a text, shared by the validator
    and by the quality score. *)
Definition expected_bounds (text : pystr) : Q * Q :=
  let expected_min := Qnat (length text) / 15 * min_duration_ratio in
  let expected_max := Qnat (length text) / 8 * max_duration_ratio in
  if Qltb (3 # 10) (complexity_score (detect_spanish_features text))
  then (expected_min * (9 # 10), expected_max * (12 # 10))
  else (expected_min, expected_max).

(** [np.sum(rms_frames < threshold) / len(rms_frames)]: numpy yields NaN,
    here [None], on no frame at all. *)
Definition silence_ratio_of (rms_frames : list Q) : option Q :=
  match rms_frames with
  | [] => None
  | _ :: _ =>
      Some (Qnat (length (List.filter (fun x => Qltb x min_energy_threshold) rms_frames))
            / Qnat (length rms_frames))
  end.

Record Penalizaciones := {
  duration_penalty : Q;
  energy_penalty : Q;
  silence_penalty : Q
}.

(** The [try] block of [evaluate_audio_quality] up to the three penalties;
    [None] when it raises: librosa fails, or the division by
    [expected_mid = 0.0] of an empty text. *)
Definition penalizaciones (audio : Audio) (text : pystr) : option Penalizaciones :=
  let duration := Qnat (length audio) / sample_rate in
  let '(expected_min, expected_max) := expected_bounds text in
  let expected_mid := (expected_min + expected_max) / 2 in
  let rms := np_rms audio in
  match librosa_rms audio with
  | None => None
  | Some rms_frames =>
      let silence_ratio := silence_ratio_of rms_frames in
      if Qeq_bool expected_mid 0 then None
      else
        Some {| duration_penalty := Qabs (duration - expected_mid) / expected_mid;
                energy_penalty :=
                  py_max2 0 ((min_energy_threshold - rms) / min_energy_threshold);
                silence_penalty :=
                  match silence_ratio with
                  | Some sr => py_max2 0 (sr - max_silence_ratio)
                  | None => 0    (* max(0, nan) is 0 *)
                  end |}
  end.

Definition evaluate_audio_quality (audio : Audio) (text : pystr) : Q :=
  match penalizaciones audio text with
  | Some p => 2 * duration_penalty p + 1 * energy_penalty p + 1 * silence_penalty p
  | None => 999
  end.

End AntiTruncamiento.

(** *** The validation and retry loop *)

(** What a call can raise.  [ErrorInterpolacion] is an [Exception] whose
    text contains ['t must be strictly increasing or decreasing'];
    [OtraBaseException] is any [BaseException] that is neither an
    [Exception] nor [KeyboardInterrupt]. *)
Inductive Excepcion :=
  | KeyboardInterrupt | OtraBaseException | ErrorInterpolacion | OtraException.

Definition es_Exception (e : Excepcion) : bool :=
  match e with
  | ErrorInterpolacion | OtraException => true
  | KeyboardInterrupt | OtraBaseException => false
  end.

(** What [self.f5tts.infer] does: it returns a waveform (possibly [None])
    or raises. *)
Inductive ResultadoInfer :=
  | InferWav (wav : option Audio)
  | InferLanza (e : Excepcion).

(** How [generate_single_phrase_with_validation] ends. *)
Inductive Salida :=
  | Retorna (wav : Audio)
  | Propaga (e : Excepcion)
  | SystemExit.

(** The attributes of the instance the function reads or writes, and what
    it has done to the outside world. *)
Record Instancia := {
  nfe_steps : Z;
  sway_sampling_coef : Q;
  cfg_strength : Q;
  speed : Q;
  fallback_after_attempts : option Z;   (* [None] or an integer *)
  llamadas : nat;                       (* calls made to the engine *)
  escrituras : nat;                     (* calls made to [sf.write] *)
  archivo : option Audio                (* the phrase file, once written *)
}.

Definition con_parametros (self : Instancia) (nfe : Z) (sway spd : Q) : Instancia :=
  {| nfe_steps := nfe; sway_sampling_coef := sway; cfg_strength := cfg_strength self;
     speed := spd; fallback_after_attempts := fallback_after_attempts self;
     llamadas := llamadas self; escrituras := escrituras self;
     archivo := archivo self |}.

Definition con_llamada (self : Instancia) : Instancia :=
  {| nfe_steps := nfe_steps self; sway_sampling_coef := sway_sampling_coef self;
     cfg_strength := cfg_strength self; speed := speed self;
     fallback_after_attempts := fallback_after_attempts self;
     llamadas := S (llamadas self); escrituras := escrituras self;
     archivo := archivo self |}.

Definition con_escritura (self : Instancia) (f : option Audio) : Instancia :=
  {| nfe_steps := nfe_steps self; sway_sampling_coef := sway_sampling_coef self;
     cfg_strength := cfg_strength self; speed := speed self;
     fallback_after_attempts := fallback_after_attempts self;
     llamadas := llamadas self; escrituras := S (escrituras self);
     archivo := f |}.

(** [np.max(np.abs(wav))] and the normalisation to a peak of 0.9 that is
    applied when it is positive. *)
Definition pico (wav : Audio) : Q :=
  fold_left (fun m x => py_max2 m (Qabs x)) wav 0%Q.

Definition normalizar (wav : Audio) : Audio :=
  if Qltb 0 (pico wav)
  then List.map (fun x => (x / pico wav * (9 # 10))%Q) wav
  else wav.

Definition audio_vacio (wav : option Audio) : bool :=
  match wav with
  | None | Some [] => true
  | Some (_ :: _) => false
  end.

(** [_extend_text_for_engine]. *)
Definition _extend_text_for_engine (text : pystr) : pystr :=
  let s := strip text in
  if negb (nonempty s) then s
  else if endswith [c_quest] s then s ++ lit "..."
  else if endswith [c_bang] s then s ++ lit "..."
  else if negb (endswith [c_dot] s) then s ++ lit "..."
  else removelast s ++ lit "...".

Section Reintentos.
Local Open Scope Q_scope.

Variable lower : pystr -> pystr.
Variable is_word : pychar -> bool.
Variable np_rms : Audio -> Q.
Variable librosa_rms : Audio -> option (list Q).

(** The engine: the result of its [n]-th call on a text with the values of
    [nfe_step], [sway_sampling_coef], [cfg_strength] and [speed]. *)
Variable f5tts_infer : nat -> pystr -> Z -> Q -> Q -> Q -> ResultadoInfer.

(** Whether the [n]-th call of [sf.write] succeeds; otherwise it raises an
    [OSError]-like [Exception]. *)
Variable sf_write_ok : nat -> bool.

(** [validate_audio_anti_truncation], whose criteria are computed by numpy
    and librosa; it catches what they raise and never raises itself. *)
Variable validate_audio_anti_truncation : Audio -> pystr -> bool.

(** [apply_equal_power_crossfade], built on sine and cosine ramps. *)
Variable apply_equal_power_crossfade : Audio -> Audio -> nat -> Audio.

(** The two text helpers built on regular expressions. *)
Variable _clean_text_simple : pystr -> pystr.
Variable _split_text_for_engine_short : pystr -> list pystr.

Definition infer (self : Instancia) (gen_text : pystr) (nfe : Z) (sway cfg spd : Q)
  : ResultadoInfer * Instancia :=
  (f5tts_infer (llamadas self) gen_text nfe sway cfg spd, con_llamada self).

Definition sf_write (self : Instancia) (wav : Audio) : bool * Instancia :=
  if sf_write_ok (escrituras self)
  then (true, con_escritura self (Some wav))
  else (false, con_escritura self (archivo self)).

(** A step of the recovery either leaves the function or falls through. *)
Inductive Paso := Sigue | Termina (s : Salida).

(** Recovery 1: the text extended, with the stable parameters. *)
Definition fallback_extension (text : pystr) (self : Instancia) : Paso * Instancia :=
  let ext_text := _extend_text_for_engine text in
  let '(r, self) := infer self ext_text 28 (- (3 # 10)) (cfg_strength self) (95 # 100) in
  match r with
  | InferLanza e =>
      if es_Exception e then (Sigue, self) else (Termina (Propaga e), self)
  | InferWav None | InferWav (Some []) => (Sigue, self)
  | InferWav (Some wav_ext) =>
      if validate_audio_anti_truncation wav_ext ext_text then
        let wav_ext := normalizar wav_ext in
        let '(ok, self) := sf_write self wav_ext in
        if ok then (Termina (Retorna wav_ext), self) else (Sigue, self)
      else (Sigue, self)
  end.

(** The [for] loop over the parts of recovery 2. *)
Fixpoint sintetizar_partes (parts : list pystr) (segs : list Audio) (self : Instancia)
  : (list Audio + Excepcion) * Instancia :=
  match parts with
  | [] => (inl segs, self)
  | ptxt :: resto =>
      let ptxt_clean := _clean_text_simple ptxt in
      let '(r, self) :=
        infer self ptxt_clean 28 (- (3 # 10)) (cfg_strength self) (95 # 100) in
      match r with
      | InferLanza e => (inr e, self)
      | InferWav None | InferWav (Some []) => sintetizar_partes resto segs self
      | InferWav (Some wav_p) =>
          sintetizar_partes resto (segs ++ [normalizar wav_p]) self
      end
  end.

Definition fade_samples : nat := 3600.   (* int(0.15 * 24000) *)

(** Recovery 2: the text in two parts, joined by a crossfade. *)
Definition fallback_division (text : pystr) (self : Instancia) : Paso * Instancia :=
  let parts := _split_text_for_engine_short text in
  if (1 <? length parts)%nat then
    match sintetizar_partes parts [] self with
    | (inr e, self) =>
        if es_Exception e then (Sigue, self) else (Termina (Propaga e), self)
    | (inl [], self) => (Sigue, self)
    | (inl (s0 :: segs), self) =>
        let combined :=
          fold_left (fun c s => apply_equal_power_crossfade c s fade_samples) segs s0 in
        if validate_audio_anti_truncation combined text then
          let '(ok, self) := sf_write self combined in
          if ok then (Termina (Retorna combined), self) else (Sigue, self)
        else (Sigue, self)
    end
  else (Sigue, self).

(** The handler of the interpolation error: both recoveries, then the
    resume file, the release of the GPU and [SystemExit]. *)
Definition recuperar (text : pystr) (self : Instancia) : Salida * Instancia :=
  match fallback_extension text self with
  | (Termina s, self) => (s, self)
  | (Sigue, self) =>
      match fallback_division text self with
      | (Termina s, self) => (s, self)
      | (Sigue, self) => (SystemExit, self)
      end
  end.

(** [self.fallback_after_attempts and attempt >= self.fallback_after_attempts] *)
Definition toca_fallback (self : Instancia) (attempt : Z) : bool :=
  match fallback_after_attempts self with
  | None => false
  | Some c => negb (c =? 0)%Z && (c <=? attempt)%Z
  end.

Definition mejor_candidato (best_candidate : option (Audio * Q)) (wav : Audio) (quality_score : Q)
  : Audio * Q :=
  match best_candidate with
  | None => (wav, quality_score)
  | Some (b, s) => if Qltb quality_score s then (wav, quality_score) else (b, s)
  end.

(** The [while True] loop: one attempt per unit of fuel, [None] when the
    fuel is spent before the function leaves the loop. *)
Fixpoint bucle (fuel : nat) (text : pystr) (attempt : Z)
    (best_candidate : option (Audio * Q)) (self : Instancia)
  : option (Salida * Instancia) :=
  match fuel with
  | O => None
  | S fuel' =>
      let manejar := fun (e : Excepcion) (best : option (Audio * Q)) (self : Instancia) =>
        match e with
        | KeyboardInterrupt | OtraBaseException => Some (Propaga e, self)
        | ErrorInterpolacion => Some (recuperar text self)
        | OtraException =>
            match best with
            | Some (b, _) =>
                if (10 <=? attempt)%Z then Some (Retorna (normalizar b), self)
                else bucle fuel' text (attempt + 1) best self
            | None => bucle fuel' text (attempt + 1) best self
            end
        end in
      let '(r, self) :=
        infer self text (nfe_steps self) (sway_sampling_coef self)
              (cfg_strength self) (speed self) in
      match r with
      | InferLanza e => manejar e best_candidate self
      | InferWav None | InferWav (Some []) =>
          bucle fuel' text (attempt + 1) best_candidate self
      | InferWav (Some wav) =>
          if validate_audio_anti_truncation wav text then
            let wav := normalizar wav in
            let '(ok, self) := sf_write self wav in
            if ok then Some (Retorna wav, self)
            else manejar OtraException best_candidate self
          else
            let quality_score :=
              evaluate_audio_quality lower is_word np_rms librosa_rms wav text in
            let best := mejor_candidato best_candidate wav quality_score in
            if toca_fallback self attempt then
              let wav := normalizar (fst best) in
              let '(ok, self) := sf_write self wav in
              if ok then Some (Retorna wav, self)
              else manejar OtraException (Some best) self
            else bucle fuel' text (attempt + 1) (Some best) self
      end
  end.

(** The [finally] clause. *)
Definition restaurar (self : Instancia) (original_nfe : Z) (original_sway original_speed : Q)
  : Instancia :=
  con_parametros self original_nfe original_sway original_speed.

(** [short_phrase]: fewer than seven words or fewer than 35 characters. *)
Definition es_frase_corta (text : pystr) : bool :=
  let num_words := length (palabras is_word text) in
  (num_words <? 7)%nat || (length text <? 35)%nat.

(** The stable parameters, for a short phrase only. *)
Definition ajustar_frase_corta (text : pystr) (self : Instancia) : Instancia :=
  if es_frase_corta text
  then con_parametros self 28 (- (3 # 10)) (95 # 100)
  else self.

(** The [try] block: the adjustment for short phrases, then the loop. *)
Definition cuerpo (fuel : nat) (text : pystr) (self : Instancia)
  : option (Salida * Instancia) :=
  bucle fuel text 1 None (ajustar_frase_corta text self).


(** The function itself; [phrase_idx], which only names the file and the
    log lines, is left out. *)
Definition generate_single_phrase_with_validation (fuel : nat) (text : pystr)
    (self : Instancia) : option (Salida * Instancia) :=
  let text := _clean_text_simple text in
  let original_nfe := nfe_steps self in
  let original_sway := sway_sampling_coef self in
  let original_speed := speed self in
  match cuerpo fuel text self with
  | Some (salida, self) =>
      Some (salida, restaurar self original_nfe original_sway original_speed)
  | None => None
  end.

End Reintentos.

(** The instance as [__init__] leaves it, with a given ceiling. *)
Definition instancia_con_techo (techo : option Z) : Instancia :=
  {| nfe_steps := 64; sway_sampling_coef := - (1 # 1); cfg_strength := 2;
     speed := 95 # 100; fallback_after_attempts := techo;
     llamadas := 0; escrituras := 0; archivo := None |}.

Definition instancia_inicial : Instancia := instancia_con_techo (Some 50%Z).



Definition motor_interrumpido (n : nat) (gen_text : pystr) (nfe : Z) (sway cfg spd : Q)
  : ResultadoInfer := InferLanza KeyboardInterrupt.

Definition rechaza_todo (wav : Audio) (text : pystr) : bool := false.
Definition escritura_ok (n : nat) : bool := true.
Definition rms_constante (wav : Audio) : Q := 1 # 2.
Definition rms_frames_constante (wav : Audio) : option (list Q) := Some [1 # 2]%Q.
Definition sin_fundido (a b : Audio) (n : nat) : Audio := a ++ b.
Definition sin_dividir (text : pystr) : list pystr := [text].

(** The function on these examples, for a given engine. *)
Definition generar_ejemplo
    (motor : nat -> pystr -> Z -> Q -> Q -> Q -> ResultadoInfer)
    (fuel : nat) (text : pystr) (self : Instancia) : option (Salida * Instancia) :=
  generate_single_phrase_with_validation lower_latin1 is_word_latin1
    rms_constante rms_frames_constante motor escritura_ok rechaza_todo
    sin_fundido strip sin_dividir fuel text self.

End Generador.

(** ** The processor: analyzer, problem detector, selective regenerator *)

Module Procesador.
Import Py Orquestador.

Definition Audio := Generador.Audio.

(** A numpy float that is a number or NaN.  Comparisons with NaN are
    false. *)
Inductive npfloat := Real (q : Q) | NaN.

Definition Qsum (l : list Q) : Q := fold_left Qplus l 0%Q.

(** [np.mean] of a list of numbers: NaN on the empty list. *)
Definition np_mean (l : list Q) : npfloat :=
  match l with
  | [] => NaN
  | _ :: _ => Real (Qsum l / Qnat (length l))
  end.

Definition nf_sub (a b : npfloat) : npfloat :=
  match a, b with
  | Real x, Real y => Real (x - y)
  | _, _ => NaN
  end.

(** Division of numpy floats by a divisor that is not zero. *)
Definition nf_div (a b : npfloat) : npfloat :=
  match a, b with
  | Real x, Real y => Real (x / y)
  | _, _ => NaN
  end.

Inductive PositionType := attack | sustain | decay | release.
Inductive SentenceType := interrogative | exclamative | suspensive | declarative.

Record Window := {
  window_id : nat;
  position : Q;
  position_type : PositionType;
  pitch_mean : Q;
  energy : Q;
  spectral_centroid : Q;
  text_snippet : option pystr     (* a key the analyzer never sets *)
}.

(** One entry of the analysis map.  The keys that the analyzer sets only
    for a segment with voiced windows are optional. *)
Record Segment := {
  segment_id : nat;
  text : pystr;
  text_length : nat;
  windows : list Window;
  is_paragraph_end : bool;
  is_question : bool;
  is_exclamation : bool;
  sentence_type : SentenceType;
  pitch_start : option npfloat;
  pitch_middle : option npfloat;
  pitch_end : option npfloat;
  arc_slope : option npfloat;
  seg_pitch_mean : option npfloat  (* key ['pitch_mean'], never set by the analyzer *)
}.

Record Metricas := {
  m_pitch_start : npfloat;
  m_pitch_middle : npfloat;
  m_pitch_end : npfloat;
  m_arc_slope : npfloat
}.

(** The block of [analyze_complete_audio] under [if all_pitches:]. *)
Definition metricas_arco (all_pitches : list Q) : option Metricas :=
  match all_pitches with
  | [] => None
  | _ :: _ =>
      let n := Z.of_nat (length all_pitches) in
      let p_start := np_mean (slice_to (Z.max 2 (n / 5)) all_pitches) in
      let p_middle := np_mean (slice (n / 3) (2 * n / 3) all_pitches) in
      let p_end := np_mean (slice_from (- Z.max 2 (n / 5)) all_pitches) in
      Some {| m_pitch_start := p_start;
              m_pitch_middle := p_middle;
              m_pitch_end := p_end;
              m_arc_slope := nf_div (nf_sub p_end p_start) p_start |}
  end.

Definition _classify_position (position : Q) : PositionType :=
  if Qltb position (15 # 100) then attack
  else if Qltb position (7 # 10) then sustain
  else if Qltb position (85 # 100) then decay
  else release.

(** [re.search(r'[.!?]\s*$', s)]: a terminal mark followed by blanks only
    ([$] also matches before a final newline, which is a blank). *)
Fixpoint termina_en_signo (s : pystr) : bool :=
  match s with
  | [] => false
  | c :: r => (is_terminal c && forallb is_space r) || termina_en_signo r
  end.

Definition _is_paragraph_end (text : pystr) : bool := termina_en_signo (strip text).

Definition _detect_sentence_type (text : pystr) : SentenceType :=
  let text := strip text in
  if contains [c_quest] text || endswith [c_quest] text then interrogative
  else if contains [c_bang] text || endswith [c_bang] text then exclamative
  else if endswith (lit "...") text then suspensive
  else declarative.

Section Analizador.
Local Open Scope Q_scope.

(** The constructor argument [window_samples] and the three numeric
    primitives of a window. *)
Variable window_samples : nat.
Variable _extract_pitch : Audio -> Q.
Variable np_rms : Audio -> Q.
Variable _extract_spectral_centroid : Audio -> Q.

(** [None] stands for the [ValueError] of [range] with a step of zero. *)
Definition _split_into_windows (audio : Audio) : option (list Audio) :=
  let hop := (window_samples / 2)%nat in
  if (hop =? 0)%nat then None
  else
    let limite := (length audio - window_samples)%nat in
    let cuantas := ((limite + hop - 1) / hop)%nat in
    Some (List.map (fun k => firstn window_samples (skipn (k * hop) audio))
                   (seq 0 cuantas)).

Definition analizar_ventana (total : nat) (w_idx : nat) (window : Audio) : Window :=
  let position := Qnat w_idx / Qnat (Nat.max (total - 1) 1) in
  {| window_id := w_idx;
     position := position;
     position_type := _classify_position position;
     pitch_mean := _extract_pitch window;
     energy := np_rms window;
     spectral_centroid := _extract_spectral_centroid window;
     text_snippet := None |}.

Definition analizar_segmento (i : nat) (audio : Audio) (text : pystr) : option Segment :=
  match _split_into_windows audio with
  | None => None
  | Some ws =>
      let ventanas := imap (analizar_ventana (length ws)) ws in
      let all_pitches :=
        List.filter (fun p => Qltb 0 p) (List.map pitch_mean ventanas) in
      let m := metricas_arco all_pitches in
      Some {| segment_id := i;
              text := text;
              text_length := length text;
              windows := ventanas;
              is_paragraph_end := _is_paragraph_end text;
              is_question := contains [c_quest] text;
              is_exclamation := contains [c_bang] text;
              sentence_type := _detect_sentence_type text;
              pitch_start := option_map m_pitch_start m;
              pitch_middle := option_map m_pitch_middle m;
              pitch_end := option_map m_pitch_end m;
              arc_slope := option_map m_arc_slope m;
              seg_pitch_mean := None |}
  end.

Fixpoint analizar_desde (i : nat) (audio_segments : list Audio) (texts : list pystr)
  : option (list Segment) :=
  match audio_segments, texts with
  | audio :: audios, text :: textos =>
      match analizar_segmento i audio text with
      | None => None
      | Some seg =>
          match analizar_desde (S i) audios textos with
          | None => None
          | Some resto => Some (seg :: resto)
          end
      end
  | _, _ => Some []
  end.

Definition analyze_complete_audio (audio_segments : list Audio) (texts : list pystr)
  : option (list Segment) :=
  analizar_desde 0 audio_segments texts.

End Analizador.

(** *** The problem detector *)

Inductive Categoria := enfasis_alto | micro_ascenso | mantener_grave | finales_definitivos.

Inductive TipoProblema :=
  | missing_paragraph_cadence
  | missing_question_rise
  | missing_micro_ascenso
  | insufficient_emphasis
  | missing_definitive_ending
  | inverted_prosodic_arc
  | missing_emphasis (categoria : Categoria).

Record Problem := {
  p_segment_id : Z;
  p_window_id : option nat;
  p_type : TipoProblema;
  severity : Q;
  p_current : Q;      (* current_pitch, current_slope or current_variation *)
  p_expected : Q;     (* expected_pitch, expected_slope or expected_variation *)
  p_palabra : option pystr
}.

(** [sorted(problems, key=lambda x: x['severity'], reverse=True)]: stable,
    largest severity first. *)
Fixpoint insertar_por_severidad (x : Problem) (l : list Problem) : list Problem :=
  match l with
  | [] => [x]
  | y :: r =>
      if Qltb (severity x) (severity y)
      then y :: insertar_por_severidad x r
      else x :: l
  end.

Definition ordenar_por_severidad (l : list Problem) : list Problem :=
  fold_right insertar_por_severidad [] l.

Section Detector.
Local Open Scope Q_scope.

Variable lower : pystr -> pystr.

(** [self.rules]. *)
Definition paragraph_end_drop : Q := - (8 # 100).
Definition question_rise : Q := 15 # 100.
Definition arc_slope_ideal : Q := - (5 # 100).
Definition micro_ascenso_esperado : Q := 3 # 100.
Definition enfasis_especial : Q := 8 # 100.
Definition mantener_tension : Q := - (2 # 100).
Definition descenso_final_fuerte : Q := - (12 # 100).

(** [self.palabras_especiales], in the order of the dictionary. *)
Definition palabras_enfasis_alto : list pystr :=
  [lit "diferente"; lit "incre" ++ [c_i_acute] ++ lit "ble"; lit "importante";
   lit "fundamental"; lit "crucial"].
Definition palabras_micro_ascenso : list pystr :=
  [lit "jazm" ++ [c_i_acute] ++ lit "n"; lit "sal marina"; lit "marina";
   lit "olvidadas"; lit "amanecer"; lit "esperanza"; lit "doraron"].
Definition palabras_mantener_grave : list pystr :=
  [lit "oscuridad"; lit "sombras"; lit "silencio"; lit "profundidad"; lit "niebla"].
Definition palabras_finales_definitivos : list pystr :=
  [lit "definitivo"; lit "final"; lit "siempre"; lit "nunca"; lit "eternidad";
   lit "silencio"; lit "vigilia"].

Definition palabras_especiales : list (Categoria * list pystr) :=
  [(enfasis_alto, palabras_enfasis_alto);
   (micro_ascenso, palabras_micro_ascenso);
   (mantener_grave, palabras_mantener_grave);
   (finales_definitivos, palabras_finales_definitivos)].

Definition nf_gt (a : npfloat) (b : Q) : bool :=
  match a with Real x => Qltb b x | NaN => false end.

(** Problem 1: a declarative paragraph end without the fall. *)
Definition problema_cadencia (i : nat) (last_window : Window) (segment : Segment)
  : list Problem :=
  match pitch_start segment, pitch_end segment with
  | Some (Real s), Some (Real actual) =>
      let expected_drop := s * (1 + paragraph_end_drop) in
      if Qltb expected_drop actual && Qltb 0 actual then
        [{| p_segment_id := Z.of_nat i;
            p_window_id := Some (window_id last_window);
            p_type := missing_paragraph_cadence;
            severity := Qabs (actual - expected_drop) / py_max2 expected_drop 1;
            p_current := actual; p_expected := expected_drop;
            p_palabra := None |}]
      else []
  | _, _ => []
  end.

(** Problem 2: a question without the rise. *)
Definition problema_pregunta (i : nat) (last_window : Window) (segment : Segment)
  : list Problem :=
  match pitch_middle segment, pitch_end segment with
  | Some (Real m), Some (Real actual) =>
      let expected_rise := m * (1 + question_rise) in
      if Qltb actual expected_rise && Qltb 0 actual then
        [{| p_segment_id := Z.of_nat i;
            p_window_id := Some (window_id last_window);
            p_type := missing_question_rise;
            severity := Qabs (expected_rise - actual) / py_max2 expected_rise 1;
            p_current := actual; p_expected := expected_rise;
            p_palabra := None |}]
      else []
  | _, _ => []
  end.

Definition snippet_lower (w : Window) : pystr :=
  lower (match text_snippet w with Some t => t | None => [] end).

(** Problems 3 and 4: a key word in the snippet of a window, with the
    expected boost, the tolerance, the weight and the type. *)
Definition problemas_palabra_ventana (i : nat) (segment : Segment) (texto_segment : pystr)
    (palabras : list pystr) (boost tolerancia peso : Q) (tipo : TipoProblema)
  : list Problem :=
  flat_map (fun palabra =>
    if contains palabra texto_segment then
      flat_map (fun window =>
        if contains palabra (snippet_lower window) then
          let pitch_actual := pitch_mean window in
          let pitch_esperado := pitch_actual * (1 + boost) in
          if Qltb pitch_actual (pitch_esperado * tolerancia) then
            [{| p_segment_id := Z.of_nat i;
                p_window_id := Some (window_id window);
                p_type := tipo;
                severity :=
                  Qabs (pitch_esperado - pitch_actual) / py_max2 pitch_esperado 1 * peso;
                p_current := pitch_actual; p_expected := pitch_esperado;
                p_palabra := Some palabra |}]
          else []
        else []) (windows segment)
    else []) palabras.

(** Problem 5: a word of a definitive ending without the strong fall. *)
Definition problemas_final_palabra (i : nat) (segment : Segment) (texto_segment : pystr)
  : list Problem :=
  flat_map (fun palabra =>
    if contains palabra texto_segment && is_paragraph_end segment then
      match pitch_start segment, pitch_end segment with
      | Some (Real s), Some (Real actual) =>
          let expected_drop := s * (1 + descenso_final_fuerte) in
          if Qltb (expected_drop * (11 # 10)) actual then
            [{| p_segment_id := Z.of_nat i;
                p_window_id := None;
                p_type := missing_definitive_ending;
                severity :=
                  Qabs (actual - expected_drop) / py_max2 expected_drop 1 * (13 # 10);
                p_current := actual; p_expected := expected_drop;
                p_palabra := Some palabra |}]
          else []
      | _, _ => []
      end
    else []) palabras_finales_definitivos.

(** Problem 6: an arc that rises. *)
Definition problema_arco (i : nat) (segment : Segment) : list Problem :=
  match arc_slope segment with
  | Some (Real slope) =>
      if Qltb (1 # 10) slope then
        [{| p_segment_id := Z.of_nat i;
            p_window_id := None;
            p_type := inverted_prosodic_arc;
            severity := py_min2 (Qabs (slope - arc_slope_ideal)) 1 * (8 # 10);
            p_current := slope; p_expected := arc_slope_ideal;
            p_palabra := None |}]
      else []
  | _ => []
  end.

Definition expected_boost (categoria : Categoria) : Q :=
  match categoria with
  | enfasis_alto => enfasis_especial
  | micro_ascenso => micro_ascenso_esperado
  | mantener_grave => - mantener_tension
  | finales_definitivos => descenso_final_fuerte
  end.

(** [segment.get(key, segment['pitch_mean'])]. *)
Definition get_o (v : option npfloat) (pm : Q) : npfloat :=
  match v with Some x => x | None => Real pm end.

Definition _verificar_enfasis_palabra (segment : Segment) (palabra : pystr)
    (categoria : Categoria) : option Problem :=
  match seg_pitch_mean segment with
  | Some (Real pm) =>
      if Qle_bool pm 0 then None
      else
        match nf_sub (get_o (pitch_end segment) pm) (get_o (pitch_start segment) pm) with
        | Real pitch_variation =>
            let expected_variation := pm * expected_boost categoria in
            if Qltb (Qabs (expected_variation * (1 # 2)))
                    (Qabs (pitch_variation - expected_variation))
            then
              let sev := Qabs (pitch_variation - expected_variation)
                         / py_max2 (Qabs expected_variation) 1 in
              Some {| p_segment_id := Z.of_nat (segment_id segment);
                      p_window_id := None;
                      p_type := missing_emphasis categoria;
                      severity := py_min2 sev 1;
                      p_current := pitch_variation; p_expected := expected_variation;
                      p_palabra := Some palabra |}
            else None
        | NaN => None
        end
  | _ => None
  end.

Definition problemas_enfasis (segment : Segment) : list Problem :=
  let text_lower := lower (text segment) in
  flat_map (fun cp : Categoria * list pystr =>
    flat_map (fun palabra =>
      if contains palabra text_lower then
        match _verificar_enfasis_palabra segment palabra (fst cp) with
        | Some p => [p]
        | None => []
        end
      else []) (snd cp)) palabras_especiales.

(** Disabled in the source: it returns [None]. *)
Definition _verificar_variacion_velocidad (analysis_map : list Segment) (current_index : nat)
  : option Problem := None.

Definition _es_final_definitivo (segment : Segment) : bool :=
  let t := lower (text segment) in
  existsb (fun palabra => contains palabra t)
    [lit "final"; lit "siempre"; lit "nunca"; lit "definitivo"; lit "eternidad";
     lit "para siempre"]
  || (is_paragraph_end segment && endswith [c_dot] t).

Definition _verificar_final_definitivo (segment : Segment) (seg_id : nat) : option Problem :=
  match pitch_start segment, pitch_end segment with
  | Some (Real s), Some (Real actual) =>
      let expected_drop := s * (1 + descenso_final_fuerte) in
      if Qltb expected_drop actual && Qltb 0 actual then
        let sev := Qabs (actual - expected_drop) / py_max2 (Qabs expected_drop) 1 in
        Some {| p_segment_id := Z.of_nat seg_id;
                p_window_id := None;
                p_type := missing_definitive_ending;
                severity := py_min2 sev 1;
                p_current := actual; p_expected := expected_drop;
                p_palabra := None |}
      else None
  | _, _ => None
  end.

Definition olist {A} (o : option A) : list A :=
  match o with Some x => [x] | None => [] end.

(** The body of the [for] loop of [identify_problems] for segment [i]. *)
Definition problemas_de_segmento (analysis_map : list Segment) (i : nat) (segment : Segment)
  : list Problem :=
  let ending_windows :=
    List.filter (fun w => match position_type w with release => true | _ => false end)
                (windows segment) in
  match List.last (List.map Some ending_windows) None with
  | None => []
  | Some last_window =>
      let texto_segment := lower (text segment) in
      (if is_paragraph_end segment
          && match sentence_type segment with declarative => true | _ => false end
       then problema_cadencia i last_window segment
       else if is_question segment then problema_pregunta i last_window segment
       else [])
      ++ problemas_palabra_ventana i segment texto_segment palabras_micro_ascenso
           micro_ascenso_esperado (95 # 100) (12 # 10) missing_micro_ascenso
      ++ problemas_palabra_ventana i segment texto_segment palabras_enfasis_alto
           enfasis_especial (9 # 10) (15 # 10) insufficient_emphasis
      ++ problemas_final_palabra i segment texto_segment
      ++ problema_arco i segment
      ++ problemas_enfasis segment
      ++ (if (0 <? i)%nat then olist (_verificar_variacion_velocidad analysis_map i) else [])
      ++ (if _es_final_definitivo segment
          then olist (_verificar_final_definitivo segment i) else [])
  end.

Definition identify_problems (analysis_map : list Segment) : list Problem :=
  ordenar_por_severidad
    (List.concat (imap (problemas_de_segmento analysis_map) analysis_map)).

End Detector.

(** An analysis entry for examples: the declarative sentence
    ['Hola mundo.'] with four windows of pitch 100, 100, 300 and 300, the
    last of them in the release zone. *)
Definition ventana_ejemplo (id : nat) (pos : Q) (tipo : PositionType) (pitch : Q) : Window :=
  {| window_id := id; position := pos; position_type := tipo; pitch_mean := pitch;
     energy := 1 # 10; spectral_centroid := 1000; text_snippet := None |}.

Definition segmento_sin_cadencia : Segment :=
  {| segment_id := 0;
     text := lit "Hola mundo.";
     text_length := 11;
     windows := [ventana_ejemplo 0 0 attack 100; ventana_ejemplo 1 (1 # 3) sustain 100;
                 ventana_ejemplo 2 (2 # 3) sustain 300; ventana_ejemplo 3 1 release 300];
     is_paragraph_end := true;
     is_question := false;
     is_exclamation := false;
     sentence_type := declarative;
     pitch_start := Some (Real 100);
     pitch_middle := Some (Real 100);
     pitch_end := Some (Real 300);
     arc_slope := Some (Real 2);
     seg_pitch_mean := None |}.

(** *** The selective regenerator *)

(** What [_evaluate_fix] does on a regenerated waveform: a score, or an
    exception ([critico]: its text contains ["must be strictly
    increasing"]). *)
Inductive Evaluacion :=
  | Puntua (score : Q)
  | EvaluaLanza (critico : bool).

(** One round of the [for attempt] loop up to the score: an exception
    before any waveform exists, or the waveform of [_generate_with_params]
    (empty when the engine failed) and its evaluation. *)
Inductive ResultadoIntento :=
  | GeneraLanza (critico : bool)
  | Genera (new_audio : Audio) (ev : Evaluacion).

Record Fix := {
  f_segment_id : Z;
  f_problem_type : TipoProblema;
  f_improvement_score : Q
}.

Record FixReport := {
  attempted : nat;
  successful : nat;
  failed : nat;
  fixes : list Fix
}.

(** How [fix_critical_problems] ends: it returns, an index is out of
    range, or [sys.exit(1)] is called. *)
Inductive ResultadoFix :=
  | FixRetorna (fixed_segments : list Audio) (fix_report : FixReport)
  | FixIndexError
  | FixSysExit.

Section Regenerador.
Local Open Scope Q_scope.

(** [self.max_attempts] and [self.max_fixes]. *)
Variable max_attempts : Z.
Variable max_fixes : Z.

(** The engine and the evaluation, for the [k]-th critical problem at a
    given attempt. *)
Variable regenerar : nat -> Problem -> nat -> ResultadoIntento.

(** The [for attempt in range(max_safe_attempts)] loop from [attempt] on,
    with [restantes] rounds left; [None] stands for [sys.exit(1)]. *)
Fixpoint intentos (k : nat) (problem : Problem) (restantes attempt : nat)
    (best_candidate : option Audio) (best_score : Q) (consecutive_failures : nat)
  : option (option Audio * Q) :=
  match restantes with
  | O => Some (best_candidate, best_score)
  | S restantes' =>
      let tras_error := fun (critico : bool) (consecutive_failures : nat) =>
        if critico then None
        else if (3 <=? consecutive_failures)%nat
        then Some (best_candidate, best_score)
        else intentos k problem restantes' (S attempt)
                      best_candidate best_score consecutive_failures in
      match regenerar k problem attempt with
      | GeneraLanza critico => tras_error critico (S consecutive_failures)
      | Genera [] _ =>
          if (3 <=? S consecutive_failures)%nat
          then Some (best_candidate, best_score)
          else intentos k problem restantes' (S attempt)
                        best_candidate best_score (S consecutive_failures)
      | Genera _ (EvaluaLanza critico) => tras_error critico 1%nat
      | Genera new_audio (Puntua score) =>
          let '(best_candidate, best_score) :=
            if Qltb best_score score
            then (Some new_audio, score)
            else (best_candidate, best_score) in
          if Qltb (8 # 10) score
          then Some (best_candidate, best_score)
          else intentos k problem restantes' (S attempt) best_candidate best_score 0%nat
      end
  end.

Definition max_safe_attempts : nat := Z.to_nat (Z.min max_attempts 5).

(** The best candidate and its score for the [k]-th critical problem. *)
Definition mejor_intento (k : nat) (problem : Problem) : option (option Audio * Q) :=
  intentos k problem max_safe_attempts 0%nat None 0 0%nat.

Definition critical_problems (problems : list Problem) (severity_threshold : Q)
  : list Problem :=
  slice_to max_fixes (List.filter (fun p => Qltb severity_threshold (severity p)) problems).

(** The [for problem in critical_problems] loop from the [k]-th one on. *)
Fixpoint corregir (k : nat) (pendientes : list Problem) (texts : list pystr)
    (fixed_segments : list Audio) (fix_report : FixReport) : ResultadoFix :=
  match pendientes with
  | [] => FixRetorna fixed_segments fix_report
  | problem :: resto =>
      let seg_id := p_segment_id problem in
      let fix_report :=
        {| attempted := S (attempted fix_report); successful := successful fix_report;
           failed := failed fix_report; fixes := fixes fix_report |} in
      match getitem texts seg_id with
      | None => FixIndexError
      | Some _ =>
          match mejor_intento k problem with
          | None => FixSysExit
          | Some (Some best_candidate, best_score) =>
              if Qltb (1 # 2) best_score then
                match setitem fixed_segments seg_id best_candidate with
                | None => FixIndexError
                | Some fixed_segments =>
                    corregir (S k) resto texts fixed_segments
                      {| attempted := attempted fix_report;
                         successful := S (successful fix_report);
                         failed := failed fix_report;
                         fixes := fixes fix_report ++
                           [{| f_segment_id := seg_id;
                               f_problem_type := p_type problem;
                               f_improvement_score := best_score |}] |}
                end
              else
                corregir (S k) resto texts fixed_segments
                  {| attempted := attempted fix_report;
                     successful := successful fix_report;
                     failed := S (failed fix_report);
                     fixes := fixes fix_report |}
          | Some (None, _) =>
              corregir (S k) resto texts fixed_segments
                {| attempted := attempted fix_report;
                   successful := successful fix_report;
                   failed := S (failed fix_report);
                   fixes := fixes fix_report |}
          end
      end
  end.

Definition fix_critical_problems (problems : list Problem) (audio_segments : list Audio)
    (texts : list pystr) (severity_threshold : Q) : ResultadoFix :=
  let fixed_segments := audio_segments in
  let fix_report := {| attempted := 0; successful := 0; failed := 0; fixes := [] |} in
  corregir 0 (critical_problems problems severity_threshold) texts fixed_segments fix_report.

End Regenerador.

End Procesador.

(** ** The orchestrator: from the text to the control matrix *)

Module Orquestacion.
Import Py Orquestador.

(** What a call yields: a value, an exception, or the end of the fuel of
    the sentence segmenter (which its measure rules out). *)
Inductive Error := ValueError | IndexError | ZeroDivisionError.

Inductive Resultado (A : Type) :=
  | Ok (a : A)
  | Lanza (e : Error)
  | SinCombustible.

Arguments Ok {A} a.
Arguments Lanza {A} e.
Arguments SinCombustible {A}.

Definition c_nl : pychar := 10%N.
Definition c_sp : pychar := 32%N.
Definition c_comillas : pychar := 34%N.     (* the double quote *)
Definition c_apostrofo : pychar := 39%N.

Fixpoint pystr_eqb (a b : pystr) : bool :=
  match a, b with
  | [], [] => true
  | x :: a', y :: b' => (x =? y)%N && pystr_eqb a' b'
  | _, _ => false
  end.

(** A [dict] with string keys, in insertion order: [d[k] = v] and
    [d.get(k)]. *)
Fixpoint dict_set {V : Type} (k : pystr) (v : V) (d : list (pystr * V))
  : list (pystr * V) :=
  match d with
  | [] => [(k, v)]
  | (k', v') :: r =>
      if pystr_eqb k k' then (k, v) :: r else (k', v') :: dict_set k v r
  end.

Fixpoint dict_get {V : Type} (k : pystr) (d : list (pystr * V)) : option V :=
  match d with
  | [] => None
  | (k', v') :: r => if pystr_eqb k k' then Some v' else dict_get k r
  end.

(** [d.update(e)]. *)
Definition dict_update {V : Type} (d e : list (pystr * V)) : list (pystr * V) :=
  fold_left (fun acc kv => dict_set (fst kv) (snd kv) acc) e d.

(** *** Paragraphs *)

(** The greedy [\s*\n] after a first newline: over the run of blanks at
    the head of [r], the number of characters up to and including its last
    newline. *)
Fixpoint ultimo_salto (r : pystr) (pos : nat) (mejor : option nat) : option nat :=
  match r with
  | [] => mejor
  | c :: r' =>
      if is_space c
      then ultimo_salto r' (S pos) (if (c =? c_nl)%N then Some (S pos) else mejor)
      else mejor
  end.

(** [re.split(r'\n\s*\n', s)]. *)
Fixpoint split_parrafos (skip : nat) (cur s : pystr) : list pystr :=
  match s with
  | [] => [rev cur]
  | c :: r =>
      match skip with
      | S k => split_parrafos k cur r
      | O =>
          if (c =? c_nl)%N then
            match ultimo_salto r 0 None with
            | Some n => rev cur :: split_parrafos n [] r
            | None => split_parrafos 0 (c :: cur) r
            end
          else split_parrafos 0 (c :: cur) r
      end
  end.

(** [re.sub(r'\s+', ' ', s)]; [en_blanco] tells whether the previous
    character was a blank. *)
Fixpoint colapsar_blancos (en_blanco : bool) (s : pystr) : pystr :=
  match s with
  | [] => []
  | c :: r =>
      if is_space c
      then (if en_blanco then colapsar_blancos true r
            else c_sp :: colapsar_blancos true r)
      else c :: colapsar_blancos false r
  end.

(** The body of the loop of [_segmentar_parrafos] for one raw piece. *)
Definition limpiar_parrafo (p : pystr) : list pystr :=
  let p_clean := strip p in
  if nonempty p_clean && (10 <? length p_clean) then
    let p_clean := colapsar_blancos false p_clean in
    if ends_in_terminal p_clean then [p_clean] else [p_clean ++ [c_dot]]
  else [].

Definition _segmentar_parrafos (texto : pystr) : list pystr :=
  flat_map limpiar_parrafo (split_parrafos 0 [] texto).

(** *** The role and the base tone of a paragraph *)

Inductive Funcion :=
  | apertura | desarrollo_ascendente | pivote | desarrollo_descendente | cierre.

(** [None] stands for the [ZeroDivisionError] of [indice / total]. *)
Definition _determinar_funcion_parrafo (indice total centro : nat) : option Funcion :=
  if (total =? 0)%nat then None
  else Some (if (indice =? 0)%nat then apertura
             else if (indice =? centro)%nat then pivote
             else if (indice =? total - 1)%nat then cierre
             else if (indice <? centro)%nat then desarrollo_ascendente
             else desarrollo_descendente).

(** *** The type of a sentence and its words of emphasis *)

Inductive TipoFrase :=
  | pregunta | exclamacion | subordinada_larga | enumeracion | cita | declarativa.

Record Enfasis := {
  tono_boost : Q;
  duracion_boost : Q;
  pausa_antes : Q;
  categoria : pystr
}.

Record ProsodyParams := {
  parrafo_id : nat;
  frase_id : nat;
  texto : pystr;
  tono_base : Q;
  velocidad : Q;
  curva : pystr;
  tono_inicial : option Q;
  tono_final : option Q;
  intensidad : Q;
  pausa_final : Q;
  enfasis_palabras : list (pystr * Enfasis);
  modificadores_especiales : list (pystr * Q)
}.

Definition con_tono_base (p : ProsodyParams) (t : Q) : ProsodyParams :=
  {| parrafo_id := parrafo_id p; frase_id := frase_id p; texto := texto p;
     tono_base := t; velocidad := velocidad p; curva := curva p;
     tono_inicial := tono_inicial p; tono_final := tono_final p;
     intensidad := intensidad p; pausa_final := pausa_final p;
     enfasis_palabras := enfasis_palabras p;
     modificadores_especiales := modificadores_especiales p |}.

Definition con_velocidad (p : ProsodyParams) (v : Q) : ProsodyParams :=
  {| parrafo_id := parrafo_id p; frase_id := frase_id p; texto := texto p;
     tono_base := tono_base p; velocidad := v; curva := curva p;
     tono_inicial := tono_inicial p; tono_final := tono_final p;
     intensidad := intensidad p; pausa_final := pausa_final p;
     enfasis_palabras := enfasis_palabras p;
     modificadores_especiales := modificadores_especiales p |}.

(** The entries of [configuracion['tipos_frase']] that
    [_procesar_frase_individual] reads. *)
Record TipoConfig := {
  tono_final_boost : option Q;
  tono_inicial_boost : option Q;
  velocidad_factor : option Q;
  intensidad_factor : option Q;
  contorno : option pystr
}.

Definition contorno_pregunta : pystr := lit "(0%,0%) (60%,0%) (100%,+20%)".
Definition contorno_exclamacion : pystr := lit "(0%,+15%) (30%,+10%) (100%,+5%)".

(** [None]: the type is not a key of the table. *)
Definition tipos_frase (t : TipoFrase) : option TipoConfig :=
  match t with
  | pregunta =>
      Some {| tono_final_boost := Some (20 # 100)%Q; tono_inicial_boost := None;
              velocidad_factor := Some (105 # 100)%Q; intensidad_factor := None;
              contorno := Some contorno_pregunta |}
  | exclamacion =>
      Some {| tono_final_boost := None; tono_inicial_boost := Some (15 # 100)%Q;
              velocidad_factor := Some (11 # 10)%Q; intensidad_factor := Some (13 # 10)%Q;
              contorno := Some contorno_exclamacion |}
  | subordinada_larga =>
      Some {| tono_final_boost := None; tono_inicial_boost := None;
              velocidad_factor := Some (92 # 100)%Q; intensidad_factor := None;
              contorno := None |}
  | enumeracion =>
      Some {| tono_final_boost := None; tono_inicial_boost := None;
              velocidad_factor := None; intensidad_factor := None;
              contorno := None |}
  | cita =>
      Some {| tono_final_boost := None; tono_inicial_boost := None;
              velocidad_factor := Some (90 # 100)%Q; intensidad_factor := None;
              contorno := None |}
  | declarativa => None
  end.

(** [configuracion['palabras_enfasis']], in the order of the dictionary. *)
Definition despues : pystr := lit "despu" ++ [c_e_acute] ++ lit "s".

Definition palabras_enfasis : list (pystr * list pystr) :=
  [(lit "importancia",
    [lit "fundamental"; lit "crucial"; lit "esencial"; lit "importante"; lit "clave"]);
   (lit "contraste",
    [lit "sin embargo"; lit "pero"; lit "no obstante"; lit "aunque"; lit "mientras"]);
   (lit "conclusion",
    [lit "finalmente"; lit "por lo tanto"; en_conclusion; asi_pues]);
   (lit "temporal",
    [lit "entonces"; despues; lit "antes"; lit "mientras tanto"; lit "posteriormente"]);
   (lit "causal",
    [lit "porque"; lit "debido a"; por_esta_razon; lit "consecuentemente"])].

(** The three strings that name a melodic curve. *)
Definition s_ataque : pystr := lit "ataque".
Definition s_meseta_modulada : pystr := lit "meseta_modulada".
Definition s_cadencia : pystr := lit "cadencia".
Definition s_ascendente_final : pystr := lit "ascendente_final".

(** The values of an F5-TTS parameter dictionary. *)
Inductive Valor := VTexto (s : pystr) | VEntero (n : Z) | VNumero (q : Q).

Section Matriz.
Local Open Scope Q_scope.

Variable lower : pystr -> pystr.
Variable is_word : pychar -> bool.

(** [math.pi], [math.sin] and the power [x ** y] of two floats. *)
Variable math_pi : Q.
Variable math_sin : Q -> Q.
Variable potencia : Q -> Q -> Q.

(** The two attributes of the instance that the computations read. *)
Variable f0_base : Q.
Variable velocidad_natural : Q.

Definition transicion_suave : Q := 5 # 100.

(** The dictionary literal is evaluated as a whole; none of its entries
    can raise. *)
Definition _calcular_tono_base_parrafo (indice total : nat) (funcion : Funcion)
    (centro : nat) : Q :=
  let m_apertura := 1 in
  let m_ascendente := 1 + (5 # 100) * (Qnat indice / Qnat (Nat.max centro 1)) in
  let m_pivote := 1 + desarrollo_peak in
  let m_descendente :=
    1 + desarrollo_peak
        * (1 - inject_Z (Z.of_nat indice - Z.of_nat centro)
               / inject_Z (Z.max (Z.of_nat total - Z.of_nat centro) 1)) in
  let m_cierre := 1 + cierre_drop in
  f0_base * match funcion with
            | apertura => m_apertura
            | desarrollo_ascendente => m_ascendente
            | pivote => m_pivote
            | desarrollo_descendente => m_descendente
            | cierre => m_cierre
            end.

Definition _analizar_tipo_frase (frase : pystr) : TipoFrase :=
  let frase_clean := strip frase in
  if contains [c_quest] frase_clean || startswith [c_quest_open] frase_clean
  then pregunta
  else if contains [c_bang] frase_clean || startswith [c_excl_open] frase_clean
  then exclamacion
  else if (150 <? length frase_clean)%nat
          && (contains (lit "que") (lower frase_clean)
              || contains (lit "donde") (lower frase_clean))
  then subordinada_larga
  else if (2 <=? count frase_clean [c_comma])%nat
          && existsb (fun word => contains word (lower frase_clean))
                     [lit "y"; lit "o"; ademas]
  then enumeracion
  else if contains [c_comillas] frase_clean || contains [c_apostrofo] frase_clean
  then cita
  else declarativa.

Definition _detectar_palabras_importantes (frase : pystr) : list (pystr * Enfasis) :=
  let texto_lower := lower frase in
  fold_left (fun enfasis_dict (cp : pystr * list pystr) =>
    fold_left (fun enfasis_dict palabra =>
      if contains palabra texto_lower
      then dict_set palabra
             {| tono_boost := 8 # 100; duracion_boost := 15 # 100;
                pausa_antes := 1 # 10; categoria := fst cp |} enfasis_dict
      else enfasis_dict) (snd cp) enfasis_dict)
    palabras_enfasis [].

(** The curve, the tone and the speed factor of a sentence by its relative
    position; [Lanza ZeroDivisionError] for [frase_id / total_frases] with
    no sentence. *)
Definition curva_y_tono (frase_id total_frases : nat) (tono_base_p : Q)
  : Resultado (pystr * Q * Q) :=
  let posicion_relativa := Qnat frase_id / Qnat (Nat.max (total_frases - 1) 1) in
  if Qltb posicion_relativa (25 # 100) then
    Ok (s_ataque, tono_base_p * (1 + (8 # 100)), 95 # 100)
  else if Qltb posicion_relativa (75 # 100) then
    if (total_frases =? 0)%nat then Lanza ZeroDivisionError
    else
      let oscilacion :=
        (3 # 100) * math_sin (2 * math_pi * Qnat frase_id / Qnat total_frases) in
      Ok (s_meseta_modulada, tono_base_p * (1 + oscilacion), 1)
  else
    let factor_descenso :=
      potencia (95 # 100) (Qnat frase_id - (75 # 100) * Qnat total_frases) in
    Ok (s_cadencia, tono_base_p * factor_descenso, 88 # 100).

Definition opt_entry (k : pystr) (v : option Q) : list (pystr * Q) :=
  match v with Some x => [(k, x)] | None => [] end.

Definition _procesar_frase_individual (frase : pystr) (parrafo_id frase_id total_frases : nat)
    (tono_base_p : Q) (funcion_parrafo : Funcion) (todas_frases : list pystr)
    (es_ultimo_parrafo : bool) : Resultado ProsodyParams :=
  match curva_y_tono frase_id total_frases tono_base_p with
  | Lanza e => Lanza e
  | SinCombustible => SinCombustible
  | Ok (curva, tono_frase, velocidad_factor_curva) =>
      let velocidad := velocidad_natural * velocidad_factor_curva in
      let tipo_frase := _analizar_tipo_frase frase in
      let palabras := _detectar_palabras_importantes frase in
      let tipo_config := tipos_frase tipo_frase in
      let leer := fun (campo : TipoConfig -> option Q) =>
        match tipo_config with Some c => campo c | None => None end in
      let m_tono_final :=
        option_map (fun b => tono_frase * (1 + b)) (leer tono_final_boost) in
      let m_tono_inicial :=
        option_map (fun b => tono_frase * (1 + b)) (leer tono_inicial_boost) in
      let velocidad :=
        match leer velocidad_factor with Some f => velocidad * f | None => velocidad end in
      let m_intensidad := leer intensidad_factor in
      let curva :=
        match tipo_config with
        | Some c => match contorno c with Some s => s | None => curva end
        | None => curva
        end in
      let modificadores :=
        opt_entry (lit "tono_final") m_tono_final
        ++ opt_entry (lit "tono_inicial") m_tono_inicial
        ++ opt_entry (lit "intensidad") m_intensidad in
      match _calcular_pausa_transicion lower frase (Z.of_nat frase_id)
              (Z.of_nat total_frases) todas_frases es_ultimo_parrafo with
      | None => Lanza IndexError
      | Some pausa =>
          Ok {| parrafo_id := parrafo_id; frase_id := frase_id; texto := frase;
                tono_base := tono_frase; velocidad := velocidad; curva := curva;
                tono_inicial := m_tono_inicial; tono_final := m_tono_final;
                intensidad := match m_intensidad with Some x => x | None => 1 end;
                pausa_final := pausa;
                enfasis_palabras := palabras;
                modificadores_especiales := modificadores |}
      end
  end.

(** *** Smoothing and coherence *)

(** The loop of [_aplicar_suavizado_transiciones] from the second entry
    on; [anterior] is the tone of the entry before, already smoothed. *)
Fixpoint suavizar (anterior : Q) (resto : list ProsodyParams) : list ProsodyParams :=
  match resto with
  | [] => []
  | actual :: r =>
      let diff_tonal := Qabs (tono_base actual - anterior) in
      let umbral_suavizado := f0_base * (1 # 10) in
      let nuevo_tono :=
        if Qltb umbral_suavizado diff_tonal
        then anterior + (tono_base actual - anterior) * (1 - transicion_suave)
        else tono_base actual in
      con_tono_base actual nuevo_tono :: suavizar nuevo_tono r
  end.

Definition _aplicar_suavizado_transiciones (control_matrix : list ProsodyParams)
  : list ProsodyParams :=
  match control_matrix with
  | [] => []
  | primero :: resto => primero :: suavizar (tono_base primero) resto
  end.

Definition limitar_entrada (p : ProsodyParams) : ProsodyParams :=
  let tono_min := f0_base * (75 # 100) in
  let tono_max := f0_base * (135 # 100) in
  let p :=
    if Qltb (tono_base p) tono_min then con_tono_base p tono_min
    else if Qltb tono_max (tono_base p) then con_tono_base p tono_max
    else p in
  let vel_min := velocidad_natural * (75 # 100) in
  let vel_max := velocidad_natural * (125 # 100) in
  if Qltb (velocidad p) vel_min then con_velocidad p vel_min
  else if Qltb vel_max (velocidad p) then con_velocidad p vel_max
  else p.

Definition _verificar_coherencia_tonal (control_matrix : list ProsodyParams)
  : list ProsodyParams :=
  List.map limitar_entrada control_matrix.

(** *** The whole orchestration *)

(** The inner loop over the sentences of a paragraph, from the [j]-th. *)
Fixpoint frases_del_parrafo (i : nat) (funcion : Funcion) (tono_base_p : Q)
    (frases : list pystr) (es_ultimo_parrafo : bool) (j : nat) (pendientes : list pystr)
  : Resultado (list ProsodyParams) :=
  match pendientes with
  | [] => Ok []
  | frase :: resto =>
      match _procesar_frase_individual frase i j (length frases) tono_base_p funcion
              frases es_ultimo_parrafo with
      | Lanza e => Lanza e
      | SinCombustible => SinCombustible
      | Ok params =>
          match frases_del_parrafo i funcion tono_base_p frases es_ultimo_parrafo
                  (S j) resto with
          | Ok ps => Ok (params :: ps)
          | otro => otro
          end
      end
  end.

(** The outer loop over the paragraphs, from the [i]-th. *)
Fixpoint orquestar_parrafos (N centro : nat) (i : nat) (parrafos : list pystr)
  : Resultado (list ProsodyParams) :=
  match parrafos with
  | [] => Ok []
  | parrafo :: resto =>
      match _determinar_funcion_parrafo i N centro with
      | None => Lanza ZeroDivisionError
      | Some funcion =>
          let tono_base_p := _calcular_tono_base_parrafo i N funcion centro in
          match _segmentar_frases is_word parrafo with
          | None => SinCombustible
          | Some frases =>
              match frases_del_parrafo i funcion tono_base_p frases (i =? N - 1)%nat
                      0 frases with
              | Ok ps =>
                  match orquestar_parrafos N centro (S i) resto with
                  | Ok m => Ok (ps ++ m)
                  | otro => otro
                  end
              | otro => otro
              end
          end
      end
  end.

(** [orquestar_lectura_completa].  The list [M] and the global arc, which
    are computed and only logged, are left out. *)
Definition orquestar_lectura_completa (texto : pystr) : Resultado (list ProsodyParams) :=
  let parrafos := _segmentar_parrafos texto in
  let N := length parrafos in
  match _calcular_centro_dramatico lower parrafos with
  | None => Lanza ValueError
  | Some centro_gravitacional =>
      match orquestar_parrafos N centro_gravitacional 0 parrafos with
      | Ok control_matrix =>
          Ok (_verificar_coherencia_tonal
                (_aplicar_suavizado_transiciones control_matrix))
      | otro => otro
      end
  end.

(** *** The parameters for the engine *)

Definition _calcular_nfe_steps (params : ProsodyParams) : Z :=
  let base_nfe := 32%Z in
  let base_nfe :=
    match enfasis_palabras params with
    | [] => base_nfe
    | _ :: _ => (base_nfe + Z.of_nat (length (enfasis_palabras params)) * 2)%Z
    end in
  let base_nfe :=
    if pystr_eqb (curva params) s_ascendente_final || pystr_eqb (curva params) s_cadencia
    then (base_nfe + 8)%Z else base_nfe in
  Z.min base_nfe 64.

Definition _calcular_sway_coef (params : ProsodyParams) : Q :=
  let base_sway := - (5 # 10) in
  if pystr_eqb (curva params) s_ataque then base_sway - (1 # 10)
  else if pystr_eqb (curva params) s_cadencia then base_sway + (1 # 10)
  else base_sway.

Definition _calcular_cfg_strength (params : ProsodyParams) : Q :=
  let base_cfg := 2 in
  if Qltb (12 # 10) (intensidad params) then base_cfg + (3 # 10)
  else if Qltb (intensidad params) (9 # 10) then base_cfg - (2 # 10)
  else base_cfg.

(** One entry of [generar_parametros_f5tts]; the two divisions raise on a
    zero divisor. *)
Definition parametros_de (params : ProsodyParams) : Resultado (list (pystr * Valor)) :=
  if Qeq_bool velocidad_natural 0 then Lanza ZeroDivisionError
  else if Qeq_bool f0_base 0 then Lanza ZeroDivisionError
  else
    let f5_params :=
      [(lit "text", VTexto (texto params));
       (lit "speed", VNumero (velocidad params / velocidad_natural));
       (lit "nfe_step", VEntero (_calcular_nfe_steps params));
       (lit "sway_sampling_coef", VNumero (_calcular_sway_coef params));
       (lit "cfg_strength", VNumero (_calcular_cfg_strength params));
       (lit "pitch_adjustment", VNumero (tono_base params / f0_base));
       (lit "pause_after", VNumero (pausa_final params))] in
    Ok (dict_update f5_params
          (List.map (fun kv : pystr * Q => (fst kv, VNumero (snd kv)))
                    (modificadores_especiales params))).

Fixpoint generar_parametros_f5tts (control_matrix : list ProsodyParams)
  : Resultado (list (list (pystr * Valor))) :=
  match control_matrix with
  | [] => Ok []
  | params :: resto =>
      match parametros_de params with
      | Ok d =>
          match generar_parametros_f5tts resto with
          | Ok ds => Ok (d :: ds)
          | otro => otro
          end
      | Lanza e => Lanza e
      | SinCombustible => SinCombustible
      end
  end.

End Matriz.

(** The sine and the power replaced by constants, for running examples. *)
Definition seno_nulo (x : Q) : Q := 0%Q.
Definition potencia_uno (x y : Q) : Q := 1%Q.

End Orquestacion.

(** ** The selective regenerator: parameters, hints and evaluation *)

Module Regeneracion.
Import Py Orquestador Procesador.

(** [s.rstrip(chars)] and [sep.join(parts)]. *)
Definition rstrip_chars (chars s : pystr) : pystr :=
  rev (drop_while (fun c => existsb (N.eqb c) chars) (rev s)).

Fixpoint join (sep : pystr) (parts : list pystr) : pystr :=
  match parts with
  | [] => []
  | [p] => p
  | p :: resto => p ++ sep ++ join sep resto
  end.

(** The dictionary that [_adjust_generation_params] returns. *)
Record GenParams := {
  nfe_step : Z;
  sway_sampling_coef : Q;
  cfg_strength : Q;
  speed : Q
}.

(** The values of a problem type at an attempt, before the limits. *)
Definition parametros_del_tipo (tipo : TipoProblema) (attempt : Z) : GenParams :=
  let a := inject_Z attempt in
  match tipo with
  | missing_paragraph_cadence =>
      {| nfe_step := 48 + attempt * 3;
         sway_sampling_coef := - (7 # 10) - a * (8 # 100);
         cfg_strength := (25 # 10) + a * (15 # 100);
         speed := (88 # 100) - a * (3 # 100) |}
  | missing_question_rise =>
      {| nfe_step := 44 + attempt * 2;
         sway_sampling_coef := - (3 # 10) - a * (6 # 100);
         cfg_strength := (28 # 10) + a * (2 # 10);
         speed := (105 # 100) + a * (2 # 100) |}
  | inverted_prosodic_arc =>
      {| nfe_step := 36 + attempt * 5;
         sway_sampling_coef := - (8 # 10) + a * (3 # 100);
         cfg_strength := (23 # 10) + a * (1 # 10);
         speed := 1 |}
  | missing_micro_ascenso =>
      {| nfe_step := 44 + attempt * 2;
         sway_sampling_coef := - (35 # 100) - a * (4 # 100);
         cfg_strength := (24 # 10) + a * (1 # 10);
         speed := (102 # 100) + a * (1 # 100) |}
  | insufficient_emphasis =>
      {| nfe_step := 46 + attempt * 3;
         sway_sampling_coef := - (45 # 100) - a * (6 # 100);
         cfg_strength := (27 # 10) + a * (15 # 100);
         speed := (95 # 100) - a * (2 # 100) |}
  | missing_definitive_ending =>
      {| nfe_step := 52 + attempt * 4;
         sway_sampling_coef := - (9 # 10) - a * (1 # 10);
         cfg_strength := 3 + a * (2 # 10);
         speed := (82 # 100) - a * (4 # 100) |}
  | missing_emphasis _ =>
      {| nfe_step := 40; sway_sampling_coef := - (5 # 10);
         cfg_strength := 22 # 10; speed := 1 |}
  end%Z%Q.

Definition _adjust_generation_params (problem : Problem) (attempt : Z) : GenParams :=
  let base_params := parametros_del_tipo (p_type problem) attempt in
  {| nfe_step := Z.max 16 (Z.min (nfe_step base_params) 32);
     sway_sampling_coef :=
       py_max2 (- (4 # 10)) (py_min2 (sway_sampling_coef base_params) (4 # 10));
     cfg_strength := py_max2 1 (py_min2 (cfg_strength base_params) (22 # 10));
     speed := py_max2 (85 # 100) (py_min2 (speed base_params) (115 # 100)) |}%Q.

Definition _validate_generation_params (params : GenParams) : bool :=
  if (nfe_step params <? 4)%Z || (100 <? nfe_step params)%Z then false
  else if Qltb (sway_sampling_coef params) (- 2) || Qltb 2 (sway_sampling_coef params)
  then false
  else if Qltb (cfg_strength params) (1 # 2) || Qltb 10 (cfg_strength params) then false
  else if Qltb (speed params) (1 # 10) || Qltb 3 (speed params) then false
  else true.

(** The values used when the validation fails. *)
Definition parametros_por_defecto : GenParams :=
  {| nfe_step := 32; sway_sampling_coef := - (5 # 10); cfg_strength := 2; speed := 1 |}.

(** The hints of [_prepare_correction_hints]. *)
Record Hints := {
  h_text : pystr;
  modifications : list pystr;
  pitch_adjustment : option pystr;
  energy_boost : option pystr;
  target_word : option pystr;
  final_drop : option pystr
}.

Definition hints_de (t : pystr) (mods : list pystr) : Hints :=
  {| h_text := t; modifications := mods; pitch_adjustment := None;
     energy_boost := None; target_word := None; final_drop := None |}.

Definition _prepare_correction_hints (problem : Problem) (text : pystr) : Hints :=
  let palabra := match p_palabra problem with Some w => w | None => [] end in
  match p_type problem with
  | missing_paragraph_cadence =>
      let t := replace [c_dot] (lit "...") text in
      let t := if endswith (lit "...") text then t
               else rstrip_chars [c_dot] t ++ lit "..." in
      hints_de t [lit "extended_ending"]
  | missing_question_rise =>
      let t := replace [c_quest] (lit "?!") text in
      let t := if contains [c_quest_open] text then t else c_quest_open :: t in
      hints_de t [lit "emphasized_question"]
  | missing_micro_ascenso =>
      if nonempty palabra then
        {| h_text := replace palabra (lit "*" ++ palabra ++ lit "*") text;
           modifications := [lit "micro_ascenso_" ++ palabra];
           pitch_adjustment := Some (lit "+3%"); energy_boost := None;
           target_word := Some palabra; final_drop := None |}
      else hints_de text []
  | insufficient_emphasis =>
      if nonempty palabra then
        {| h_text := replace palabra (lit "**" ++ palabra ++ lit "**") text;
           modifications := [lit "enfasis_especial_" ++ palabra];
           pitch_adjustment := Some (lit "+8%"); energy_boost := Some (lit "+15%");
           target_word := Some palabra; final_drop := None |}
      else hints_de text []
  | missing_definitive_ending =>
      let t := rstrip_chars (lit ".!") text ++ lit "..." in
      let t := if nonempty palabra then replace palabra (palabra ++ lit "...") t else t in
      {| h_text := t; modifications := [lit "descenso_definitivo"];
         pitch_adjustment := Some (lit "-12%"); energy_boost := None;
         target_word := None; final_drop := Some (lit "strong") |}
  | inverted_prosodic_arc =>
      let parts := split [c_comma] text in
      let t := if (1 <? length parts)%nat
               then join (lit ", ") (slice_to (-1) parts) ++ lit "... "
                    ++ List.last parts []
               else text in
      hints_de t [lit "arc_normalization"]
  | missing_emphasis _ => hints_de text []
  end.

(** What [_generate_with_params] does at one attempt: a waveform (empty
    when the engine failed) or an exception that reaches the caller. *)
Inductive ResultadoGen :=
  | GenAudio (audio : Audio)
  | GenLanza (critico : bool).

Section Evaluacion.
Local Open Scope Q_scope.

(** [ProsodyAnalyzer()._extract_pitch], which catches what librosa
    raises. *)
Variable _extract_pitch : Audio -> Q.

(** The engine behind [_generate_with_params], for the [k]-th critical
    problem at a given attempt. *)
Variable _generate_with_params : nat -> nat -> pystr -> GenParams -> ResultadoGen.

(** The window of an analyzer built with its defaults:
    [int(44100 * 250 / 1000)]. *)
Definition window_samples_defecto : nat := Z.to_nat 11025.

(** [_evaluate_fix].  The pitches of a problem are numpy floats, so the
    division by [abs(current - target) = 0] yields [inf] or [nan] and the
    score 0. *)
Definition _evaluate_fix (audio : Audio) (problem : Problem) : Q :=
  let limitar := fun score : Q => py_min2 (py_max2 score 0) 1 in
  match p_type problem with
  | missing_paragraph_cadence | missing_question_rise =>
      let last_quarter := slice_from (- Z.of_nat (length audio) / 4) audio in
      let pitch := _extract_pitch last_quarter in
      if Qle_bool pitch 0 then 0
      else
        let target := p_expected problem in
        let current := p_current problem in
        if Qeq_bool (Qabs (current - target)) 0 then 0
        else
          let improvement := Qabs (pitch - target) / Qabs (current - target) in
          limitar (py_max2 0 (1 - improvement))
  | inverted_prosodic_arc =>
      let windows :=
        match _split_into_windows window_samples_defecto audio with
        | Some ws => ws
        | None => []
        end in
      let pitches := List.map _extract_pitch windows in
      let valid_pitches := List.filter (fun p => Qltb 0 p) pitches in
      if (length valid_pitches <? 3)%nat then 0
      else
        let primero := List.hd 0 valid_pitches in
        let ultimo := List.last valid_pitches 0 in
        let new_slope := (ultimo - primero) / primero in
        let target_slope := p_expected problem in
        limitar (py_max2 0 (1 - Qabs (new_slope - target_slope) / (2 # 10)))
  | _ => limitar (1 # 2)
  end.

(** One round of the attempt loop of [fix_critical_problems] on the text
    of the problem's segment: the parameters, their validation, the
    generation and the evaluation. *)
Definition regenerar_con (texts : list pystr) (k : nat) (problem : Problem) (attempt : nat)
  : ResultadoIntento :=
  let text := match getitem texts (p_segment_id problem) with
              | Some t => t
              | None => []
              end in
  let hints := _prepare_correction_hints problem text in
  let generation_params := _adjust_generation_params problem (Z.of_nat attempt) in
  let generation_params :=
    if _validate_generation_params generation_params then generation_params
    else parametros_por_defecto in
  match _generate_with_params k attempt (h_text hints) generation_params with
  | GenLanza critico => GeneraLanza critico
  | GenAudio new_audio => Genera new_audio (Puntua (_evaluate_fix new_audio problem))
  end.

End Evaluacion.

End Regeneracion.

(** ** The coordinator of the processor: paragraph boundaries *)

Module Coordinacion.
Import Py Orquestador.

Definition c_bullet : pychar := 8226%N.

(** [s.startswith(('•', '-', '1.', '2.', '3.'))]. *)
Definition empieza_lista (s : pystr) : bool :=
  existsb (fun pre => startswith pre s)
          [[c_bullet]; lit "-"; lit "1."; lit "2."; lit "3."].

(** [re.match(r'^[A-ZÁÉÍÓÚÑ]', s)]. *)
Definition empieza_mayuscula (s : pystr) : bool :=
  match s with
  | c :: _ => is_capital c
  | [] => false
  end.

(** The loop of [_detect_paragraph_boundaries] from the text of index [i],
    whose predecessor is [anterior]. *)
Fixpoint limites_desde (i : nat) (anterior : pystr) (resto : list pystr) : list nat :=
  match resto with
  | [] => []
  | text :: r =>
      (if endswith [c_dot] (strip anterior) && (100 <? length anterior) then
         (if empieza_mayuscula (strip text) then [i] else [])
       else if empieza_lista (strip text) then [i]
       else if (150 <? length anterior) && (length text <? 50) then [i]
       else [])
      ++ limites_desde (S i) text r
  end.

(** [sorted(list(set(l)))] on integers. *)
Fixpoint insertar_sin_repetir (x : nat) (l : list nat) : list nat :=
  match l with
  | [] => [x]
  | y :: r =>
      if x <? y then x :: l
      else if x =? y then l
      else y :: insertar_sin_repetir x r
  end.

Definition sorted_set (l : list nat) : list nat :=
  fold_right insertar_sin_repetir [] l.

Definition _detect_paragraph_boundaries (texts : list pystr) : list nat :=
  sorted_set (0 :: match texts with
                   | [] => []
                   | primero :: resto => limites_desde 1 primero resto
                   end).

(** The [for] loop of [_get_paragraph_id] from index [i]. *)
Fixpoint buscar_parrafo (sentence_idx : nat) (i : nat) (boundaries : list nat)
  : option nat :=
  match boundaries with
  | b0 :: ((b1 :: _) as resto) =>
      if (b0 <=? sentence_idx) && (sentence_idx <? b1) then Some i
      else buscar_parrafo sentence_idx (S i) resto
  | _ => None
  end.

Definition _get_paragraph_id (sentence_idx : nat) (boundaries : list nat) : Z :=
  match buscar_parrafo sentence_idx 0 boundaries with
  | Some i => Z.of_nat i
  | None => Z.of_nat (length boundaries) - 1
  end.

(** [_is_critical_position]; [None] stands for the [IndexError] of
    [texts[index]]. *)
Definition _is_critical_position (index : Z) (texts : list pystr) : option bool :=
  match getitem texts index with
  | None => None
  | Some text =>
      let total := Z.of_nat (length texts) in
      Some ((index <? 2)%Z
            || (total - 2 <=? index)%Z
            || contains [c_quest] text
            || contains [c_bang] text
            || ((0 <? index)%Z && (index mod 10 =? 0)%Z)
            || ((150 <? length text) && endswith [c_dot] (strip text)))
  end.

End Coordinacion.

(* ================================================================== *)
(** * Part II. Properties                                              *)
(* ================================================================== *)

Import Py Orquestador.

(** ** Arithmetic helpers on rationals *)

Lemma Qltb_true (a b : Q) : Qltb a b = true <-> (a < b)%Q.
Proof.
  unfold Qltb. rewrite negb_true_iff.
  split; intro H.
  - apply Qnot_le_lt. intro Hle. apply Qle_bool_iff in Hle. congruence.
  - destruct (Qle_bool b a) eqn:E; [|reflexivity].
    apply Qle_bool_iff in E. exfalso. apply (Qlt_not_le _ _ H E).
Qed.

Lemma Qltb_false (a b : Q) : Qltb a b = false <-> (b <= a)%Q.
Proof.
  unfold Qltb. rewrite negb_false_iff. apply Qle_bool_iff.
Qed.

Lemma py_max2_spec (a b : Q) : (a <= py_max2 a b /\ b <= py_max2 a b)%Q.
Proof.
  unfold py_max2. destruct (Qltb a b) eqn:E.
  - apply Qltb_true in E. split; lra.
  - apply Qltb_false in E. split; lra.
Qed.

Lemma py_min2_spec (a b : Q) : (py_min2 a b <= a /\ py_min2 a b <= b)%Q.
Proof.
  unfold py_min2. destruct (Qltb b a) eqn:E.
  - apply Qltb_true in E. split; lra.
  - apply Qltb_false in E. split; lra.
Qed.

Lemma py_min2_cases (a b : Q) : py_min2 a b = a \/ py_min2 a b = b.
Proof. unfold py_min2. destruct (Qltb b a); auto. Qed.

Lemma Qnat_nonneg (n : nat) : (0 <= Qnat n)%Q.
Proof.
  unfold Qnat. change 0%Q with (inject_Z 0). rewrite <- Zle_Qle. lia.
Qed.

Lemma Qnat_le (n m : nat) : n <= m -> (Qnat n <= Qnat m)%Q.
Proof. intro H. unfold Qnat. rewrite <- Zle_Qle. lia. Qed.

Lemma Qnat_pos (n : nat) : 0 < n -> (0 < Qnat n)%Q.
Proof.
  intro H. unfold Qnat. change 0%Q with (inject_Z 0). rewrite <- Zlt_Qlt. lia.
Qed.

Lemma Qdiv_le_mono (a b c : Q) : (0 < c -> a <= b -> a / c <= b / c)%Q.
Proof.
  intros Hc Hab. unfold Qdiv. apply Qmult_le_compat_r; [exact Hab|].
  apply Qlt_le_weak, Qinv_lt_0_compat, Hc.
Qed.

Lemma Qdiv_nonneg (a c : Q) : (0 <= a -> 0 < c -> 0 <= a / c)%Q.
Proof.
  intros Ha Hc. unfold Qdiv. apply Qmult_le_0_compat; [exact Ha|].
  apply Qlt_le_weak, Qinv_lt_0_compat, Hc.
Qed.

Lemma Qdiv_le_1 (a c : Q) : (0 < c -> a <= c -> a / c <= 1)%Q.
Proof.
  intros Hc Hac. apply Qle_shift_div_r; [exact Hc|]. lra.
Qed.

(** ** The narrative arc *)

Section ArcoNarrativo.
Local Open Scope Q_scope.

Lemma arco_lookup (N c i : nat) (x : Q) :
  _generar_arco_narrativo N c !! i = Some x ->
  (i < N)%nat /\ x = factor_arco N c i.
Proof.
  unfold _generar_arco_narrativo. intro H.
  rewrite list_lookup_fmap in H.
  destruct (seq 0 N !! i) as [k|] eqn:E; simpl in H; [|discriminate].
  apply lookup_seq in E. destruct E as [-> Hlt].
  inversion H. split; [exact Hlt | reflexivity].
Qed.

(** Before the centre the factor rises, up to the peak at the centre. *)
Lemma factor_arco_asciende (N c i j : nat) :
  (i <= j)%nat -> (j <= c)%nat -> factor_arco N c i <= factor_arco N c j.
Proof.
  intros Hij Hjc. unfold factor_arco, desarrollo_peak.
  destruct (Nat.ltb_spec i c) as [Hic|Hic];
  destruct (Nat.ltb_spec j c) as [Hjc'|Hjc'].
  - assert (Hc : 0 < Qnat c) by (apply Qnat_pos; lia).
    pose proof (Qdiv_le_mono (Qnat i) (Qnat j) (Qnat c) Hc (Qnat_le i j Hij)).
    lra.
  - assert (j = c) by lia. subst j. rewrite Nat.eqb_refl.
    assert (Hc : 0 < Qnat c) by (apply Qnat_pos; lia).
    pose proof (Qdiv_le_1 (Qnat i) (Qnat c) Hc (Qnat_le i c ltac:(lia))).
    lra.
  - lia.
  - assert (i = c) by lia. assert (j = c) by lia. subst. lra.
Qed.

(** From the centre on the factor falls. *)
Lemma factor_arco_desciende (N c i j : nat) :
  (c < N)%nat -> (c <= i)%nat -> (i <= j)%nat -> (j < N)%nat ->
  factor_arco N c j <= factor_arco N c i.
Proof.
  intros HcN Hci Hij HjN. unfold factor_arco, desarrollo_peak, cierre_drop.
  destruct (Nat.ltb_spec i c) as [Hic|Hic]; [lia|].
  destruct (Nat.ltb_spec j c) as [Hjc|Hjc]; [lia|].
  destruct (Nat.eqb_spec j c) as [Ej|Ej].
  - subst j. assert (i = c) by lia. subst i. rewrite Nat.eqb_refl. lra.
  - assert (Hd : (0 < Z.of_nat N - Z.of_nat c - 1)%Z) by lia.
    destruct (Z.ltb_spec 0 (Z.of_nat N - Z.of_nat c - 1)) as [_|Hn]; [|lia].
    set (d := inject_Z (Z.of_nat N - Z.of_nat c - 1)).
    assert (Hdq : 0 < d).
    { unfold d. change 0 with (inject_Z 0). rewrite <- Zlt_Qlt. exact Hd. }
    set (pj := inject_Z (Z.of_nat j - Z.of_nat c) / d).
    assert (Hpj : 0 <= pj).
    { unfold pj. apply Qdiv_nonneg; [|exact Hdq].
      change 0 with (inject_Z 0). rewrite <- Zle_Qle. lia. }
    destruct (Nat.eqb_spec i c) as [Ei|Ei].
    + lra.
    + set (pi := inject_Z (Z.of_nat i - Z.of_nat c) / d).
      assert (Hle : pi <= pj).
      { unfold pi, pj. apply Qdiv_le_mono; [exact Hdq|].
        rewrite <- Zle_Qle. lia. }
      lra.
Qed.

(** C5.  For every paragraph count [N] and every centre [c] below [N],
    the factors that [_generar_arco_narrativo] produces do not decrease
    over the indices up to the centre and do not increase over the
    indices from the centre on. *)
Theorem arco_narrativo_monotono (N c i j : nat) (x y : Q) :
  (c < N)%nat -> (i <= j)%nat ->
  _generar_arco_narrativo N c !! i = Some x ->
  _generar_arco_narrativo N c !! j = Some y ->
  ((j <= c)%nat -> x <= y) /\ ((c <= i)%nat -> y <= x).
Proof.
  intros HcN Hij Hx Hy.
  apply arco_lookup in Hx. destruct Hx as [HiN ->].
  apply arco_lookup in Hy. destruct Hy as [HjN ->].
  split; intro H.
  - apply factor_arco_asciende; assumption.
  - apply factor_arco_desciende; assumption.
Qed.

Lemma arco_narrativo_monotono_witness :
  (1 < 3)%nat /\ (0 <= 1)%nat
  /\ _generar_arco_narrativo 3 1 !! 0%nat = Some (factor_arco 3 1 0)
  /\ _generar_arco_narrativo 3 1 !! 1%nat = Some (factor_arco 3 1 1)
  /\ (((1 <= 1)%nat -> factor_arco 3 1 0 <= factor_arco 3 1 1)
      /\ ((1 <= 0)%nat -> factor_arco 3 1 1 <= factor_arco 3 1 0)).
Proof.
  split; [lia|]. split; [lia|].
  split; [reflexivity|]. split; [reflexivity|].
  apply (arco_narrativo_monotono 3 1 0 1); [lia | lia | reflexivity | reflexivity].
Defined.

End ArcoNarrativo.

(** ** The pause after a sentence *)

Section Pausas.
Local Open Scope Q_scope.

Variable lower : pystr -> pystr.

Lemma limitar_acotado (p : Q) :
  2 # 10 <= py_min2 (py_max2 p (2 # 10)) 3 /\ py_min2 (py_max2 p (2 # 10)) 3 <= 3.
Proof.
  split.
  - destruct (py_min2_cases (py_max2 p (2 # 10)) 3) as [-> | ->].
    + apply py_max2_spec.
    + lra.
  - apply py_min2_spec.
Qed.

(** C6.  Whatever the sentence, its position and its neighbours, the pause
    that [_calcular_pausa_transicion] returns lies in [0.2, 3.0]; the only
    other outcome is the [IndexError] of a call whose [frase_id + 1] is
    below [total_frases] and is no index of [todas_frases]. *)
Theorem pausa_transicion_acotada (frase : pystr) (frase_id total_frases : Z)
    (todas_frases : list pystr) (es_ultimo_parrafo : bool) :
  match _calcular_pausa_transicion lower frase frase_id total_frases
          todas_frases es_ultimo_parrafo with
  | Some pausa => 2 # 10 <= pausa /\ pausa <= 3
  | None => (frase_id < total_frases - 1)%Z
            /\ getitem todas_frases (frase_id + 1) = None
  end.
Proof.
  unfold _calcular_pausa_transicion.
  destruct (Z.eqb_spec frase_id (total_frases - 1)) as [E|E].
  - destruct es_ultimo_parrafo; apply limitar_acotado.
  - destruct (Z.ltb_spec frase_id (total_frases - 1)) as [L|L].
    + destruct (getitem todas_frases (frase_id + 1)) as [sig|] eqn:G.
      * destruct (_detectar_tipo_transicion lower frase sig); apply limitar_acotado.
      * split; [exact L | reflexivity].
    + apply limitar_acotado.
Qed.

End Pausas.

(** ** The quality score *)

Section Calidad.
Local Open Scope Q_scope.
Import Generador.

Variable lower : pystr -> pystr.
Variable is_word : pychar -> bool.
Variable np_rms : Audio -> Q.
Variable librosa_rms : Audio -> option (list Q).

Lemma expected_bounds_nonneg (text : pystr) :
  0 <= fst (expected_bounds lower is_word text)
  /\ 0 <= snd (expected_bounds lower is_word text).
Proof.
  unfold expected_bounds, min_duration_ratio, max_duration_ratio.
  pose proof (Qnat_nonneg (length text)) as Hn.
  assert (H15 : 0 <= Qnat (length text) / 15) by (apply Qdiv_nonneg; lra).
  assert (H8 : 0 <= Qnat (length text) / 8) by (apply Qdiv_nonneg; lra).
  destruct (Qltb _ _); simpl; split; lra.
Qed.

Lemma penalizaciones_nonneg (audio : Audio) (text : pystr) (p : Penalizaciones) :
  penalizaciones lower is_word np_rms librosa_rms audio text = Some p ->
  0 <= duration_penalty p /\ 0 <= energy_penalty p /\ 0 <= silence_penalty p.
Proof.
  unfold penalizaciones.
  pose proof (expected_bounds_nonneg text) as [Hmin Hmax].
  destruct (expected_bounds lower is_word text) as [emin emax]. simpl in Hmin, Hmax.
  destruct (librosa_rms audio) as [frames|]; [|discriminate].
  destruct (Qeq_bool ((emin + emax) / 2) 0) eqn:E; [discriminate|].
  intro H.
  match type of H with Some ?r = Some _ => assert (Hp : r = p) by congruence end.
  clear H. subst p.
  cbn [duration_penalty energy_penalty silence_penalty].
  apply Qeq_bool_neq in E.
  assert (Hmid : 0 < (emin + emax) / 2).
  { assert (0 <= (emin + emax) / 2) by (apply Qdiv_nonneg; lra).
    apply Qle_lteq in H. destruct H as [H|H]; [exact H|].
    exfalso. apply E. symmetry. exact H. }
  split; [|split].
  - apply Qdiv_nonneg; [apply Qabs_nonneg | exact Hmid].
  - apply py_max2_spec.
  - destruct (silence_ratio_of frames); [apply py_max2_spec | lra].
Qed.

(** C7.  For every waveform and text the score of
    [evaluate_audio_quality] is not negative, and a score of zero is the
    score of three penalties that are all zero. *)
Theorem evaluate_audio_quality_nonneg (audio : Audio) (text : pystr) :
  0 <= evaluate_audio_quality lower is_word np_rms librosa_rms audio text
  /\ (evaluate_audio_quality lower is_word np_rms librosa_rms audio text == 0 ->
      exists p, penalizaciones lower is_word np_rms librosa_rms audio text = Some p
                /\ duration_penalty p == 0
                /\ energy_penalty p == 0
                /\ silence_penalty p == 0).
Proof.
  unfold evaluate_audio_quality.
  destruct (penalizaciones lower is_word np_rms librosa_rms audio text) as [p|] eqn:E.
  - destruct (penalizaciones_nonneg audio text p E) as (Hd & He & Hs).
    split; [lra|].
    intro H0. exists p. split; [reflexivity|].
    split; [|split]; lra.
  - split; [lra|]. intro H. exfalso. lra.
Qed.

End Calidad.

(** The score of a waveform of 2810 samples for a text of one character,
    whose duration is the middle of the expected interval. *)
Lemma evaluate_audio_quality_nonneg_witness :
  let audio := repeat (1 # 2)%Q 2810 in
  let text := lit "a" in
  let f := Generador.evaluate_audio_quality lower_latin1 is_word_latin1
             (fun _ => 1 # 2)%Q (fun _ => Some [1 # 2])%Q in
  (f audio text == 0)%Q
  /\ exists p, Generador.penalizaciones lower_latin1 is_word_latin1
                 (fun _ => 1 # 2)%Q (fun _ => Some [1 # 2])%Q audio text = Some p
               /\ (Generador.duration_penalty p == 0)%Q
               /\ (Generador.energy_penalty p == 0)%Q
               /\ (Generador.silence_penalty p == 0)%Q.
Proof.
  cbv zeta.
  assert (H : (Generador.evaluate_audio_quality lower_latin1 is_word_latin1
                 (fun _ => 1 # 2) (fun _ => Some [1 # 2])
                 (repeat (1 # 2) 2810) (lit "a") == 0)%Q) by (vm_compute; reflexivity).
  split; [exact H|].
  exact (proj2 (evaluate_audio_quality_nonneg lower_latin1 is_word_latin1
                  (fun _ => 1 # 2)%Q (fun _ => Some [1 # 2])%Q
                  (repeat (1 # 2)%Q 2810) (lit "a")) H).
Defined.

(** ** Sentence segmentation *)

Section PropiedadesCadenas.

Lemma drop_while_length (p : pychar -> bool) (s : pystr) :
  length (drop_while p s) <= length s.
Proof.
  induction s as [|c r IH]; simpl; [lia|].
  destruct (p c); simpl; lia.
Qed.

Lemma strip_length (s : pystr) : length (strip s) <= length s.
Proof.
  unfold strip, rstrip, lstrip. rewrite length_rev.
  pose proof (drop_while_length is_space (rev (drop_while is_space s))) as H1.
  rewrite length_rev in H1.
  pose proof (drop_while_length is_space s). lia.
Qed.

Lemma nonempty_length (s : pystr) : nonempty s = true <-> 1 <= length s.
Proof. destruct s; simpl; split; intro; try lia; try discriminate; reflexivity. Qed.

Lemma last_char_app (s : pystr) (c : pychar) : last_char (s ++ [c]) = Some c.
Proof.
  unfold last_char. rewrite map_app. simpl. apply last_last.
Qed.

(** A string whose last character is a terminal mark is a prefix followed
    by [.], [!] or [?]. *)
Lemma ends_in_terminal_inv (s : pystr) :
  ends_in_terminal s = true ->
  exists p c, s = p ++ [c] /\ (c = c_dot \/ c = c_bang \/ c = c_quest).
Proof.
  unfold ends_in_terminal.
  induction s as [|a s _] using rev_ind; [discriminate|].
  rewrite last_char_app. unfold is_terminal. intro H.
  exists s, a. split; [reflexivity|].
  apply orb_true_iff in H. destruct H as [H|H].
  - apply orb_true_iff in H. destruct H as [H|H]; apply N.eqb_eq in H; auto.
  - apply N.eqb_eq in H. auto.
Qed.

End PropiedadesCadenas.

Section Segmentacion.

Variable is_word : pychar -> bool.

Lemma medida_app (l1 l2 : list pystr) : medida (l1 ++ l2) = medida l1 + medida l2.
Proof. induction l1 as [|f l IH]; simpl; [reflexivity|]. rewrite IH. lia. Qed.

Lemma partir_en_spec (texto : pystr) (pos : nat) (extra : pystr -> bool) (r : list pystr) :
  partir_en texto pos extra = Some r ->
  exists a b, r = [a; b] /\ 1 <= length a /\ 1 <= length b
              /\ length a + length b <= length texto.
Proof.
  unfold partir_en.
  destruct (nonempty (strip (firstn pos texto))) eqn:E1; simpl; [|discriminate].
  destruct (nonempty (strip (skipn pos texto))) eqn:E2; simpl; [|discriminate].
  destruct (extra _); [|discriminate].
  intros [= <-]. eexists _, _. split; [reflexivity|].
  apply nonempty_length in E1. apply nonempty_length in E2.
  split; [exact E1|]. split; [exact E2|].
  pose proof (strip_length (firstn pos texto)).
  pose proof (strip_length (skipn pos texto)).
  assert (length (firstn pos texto) + length (skipn pos texto) = length texto).
  { rewrite <- length_app, firstn_skipn. reflexivity. }
  lia.
Qed.

(** [_dividir_frase_simple] returns its argument alone or two shorter,
    non-empty parts. *)
Lemma dividir_casos_spec (texto : pystr) (r : list pystr) :
  dividir_caso1 texto = Some r \/ dividir_caso2 texto = Some r
  \/ dividir_caso3 texto = Some r \/ dividir_caso4 texto = Some r ->
  exists a b, r = [a; b] /\ 1 <= length a /\ 1 <= length b
              /\ length a + length b <= length texto.
Proof.
  unfold dividir_caso1, dividir_caso2, dividir_caso3, dividir_caso4.
  intros [H | [H | [H | H]]];
    destruct (re_search _ _ _ _ _) as [[ini pos]|]; try discriminate;
    try (destruct (0 <? ini); [|discriminate]);
    exact (partir_en_spec _ _ _ _ H).
Qed.

(** [_dividir_frase_simple] returns its argument alone or two shorter,
    non-empty parts. *)
Lemma dividir_frase_simple_spec (texto : pystr) :
  _dividir_frase_simple texto = [texto]
  \/ exists a b, _dividir_frase_simple texto = [a; b]
                 /\ 1 <= length a /\ 1 <= length b
                 /\ length a + length b <= length texto.
Proof.
  unfold _dividir_frase_simple.
  destruct (dividir_caso1 texto) as [r|] eqn:E1.
  { right. destruct (dividir_casos_spec texto r) as (a & b & -> & H); [auto|].
    exists a, b. auto. }
  destruct (dividir_caso2 texto) as [r|] eqn:E2.
  { right. destruct (dividir_casos_spec texto r) as (a & b & -> & H); [auto|].
    exists a, b. auto. }
  destruct (dividir_caso3 texto) as [r|] eqn:E3.
  { right. destruct (dividir_casos_spec texto r) as (a & b & -> & H); [auto|].
    exists a, b. auto. }
  destruct (dividir_caso4 texto) as [r|] eqn:E4.
  { right. destruct (dividir_casos_spec texto r) as (a & b & -> & H); [auto|].
    exists a, b. auto. }
  left. reflexivity.
Qed.

Lemma ronda_medida (frases : list pystr) :
  let divididas := List.map _dividir_frase_simple frases in
  medida (List.concat divididas) <= medida frases
  /\ (existsb (fun d => 1 <? length d) divididas = true ->
      medida (List.concat divididas) < medida frases).
Proof.
  induction frases as [|f l IH]; simpl.
  - split; [lia | discriminate].
  - destruct IH as [IHle IHlt]. rewrite medida_app.
    destruct (dividir_frase_simple_spec f) as [E | (a & b & E & Ha & Hb & Hab)];
      rewrite E; simpl.
    + split; [lia|]. intro H. specialize (IHlt H). lia.
    + split; [lia|]. intros _. lia.
Qed.

(** The loop ends before its fuel does. *)
Lemma separar_bucle_termina (fuel : nat) (frases : list pystr) :
  medida frases < fuel -> exists r, separar_bucle fuel frases = Some r.
Proof.
  revert frases. induction fuel as [|fuel IH]; intros frases Hm; [lia|].
  simpl. pose proof (ronda_medida frases) as [Hle Hlt]. simpl in Hle, Hlt.
  destruct (existsb _ _) eqn:E.
  - apply IH. specialize (Hlt eq_refl). lia.
  - eexists. reflexivity.
Qed.

Lemma frase_terminada_intro (f : pystr) : ends_in_terminal f = true -> frase_terminada f.
Proof.
  intro H. split.
  - intros ->. discriminate.
  - apply ends_in_terminal_inv, H.
Qed.

Lemma finalizar_frase_terminada (frase : pystr) :
  Forall frase_terminada (finalizar_frase frase).
Proof.
  unfold finalizar_frase.
  destruct (nonempty (strip frase)); [|constructor].
  destruct (ends_in_terminal (strip frase)) eqn:E.
  - repeat constructor; apply frase_terminada_intro, E.
  - destruct (_ || _); [|destruct (_ || _)];
      repeat constructor; apply frase_terminada_intro;
      unfold ends_in_terminal; rewrite last_char_app; reflexivity.
Qed.

Lemma separar_terminadas (texto : pystr) :
  exists frases,
    _separar_exclamaciones_interrogaciones (combustible texto) texto = Some frases
    /\ Forall frase_terminada frases.
Proof.
  unfold _separar_exclamaciones_interrogaciones, combustible.
  destruct (separar_bucle_termina (S (length texto)) [texto]) as [r Hr].
  { simpl. lia. }
  rewrite Hr. eexists. split; [reflexivity|].
  clear Hr. induction r as [|f r IH]; simpl; [constructor|].
  apply Forall_app. split; [apply finalizar_frase_terminada | exact IH].
Qed.

Lemma segmentar_raw_terminadas (frases_raw : list pystr) :
  exists frases, segmentar_raw frases_raw = Some frases /\ Forall frase_terminada frases.
Proof.
  induction frases_raw as [|f l (frases & E & HF)]; cbn [segmentar_raw]; cbv zeta.
  - exists []. split; [reflexivity | constructor].
  - destruct (nonempty _).
    + destruct (separar_terminadas (strip (replace marca_dot [c_dot] f)))
        as (sub & Es & Hs).
      rewrite Es, E. eexists. split; [reflexivity|].
      apply Forall_app. split; assumption.
    + rewrite E. eexists. split; [reflexivity|]. exact HF.
Qed.

(** C3.  For every paragraph text [_segmentar_frases] returns, and every
    sentence it returns is non-empty and ends in one of the terminal marks
    [.], [!] and [?]. *)
Theorem segmentar_frases_terminadas (parrafo : pystr) :
  exists frases,
    _segmentar_frases is_word parrafo = Some frases
    /\ Forall (fun f => f <> []
                 /\ exists p c, f = p ++ [c]
                                /\ (c = c_dot \/ c = c_bang \/ c = c_quest)) frases.
Proof.
  unfold _segmentar_frases.
  destruct (segmentar_raw_terminadas (frases_raw_de is_word parrafo)) as (frases & E & HF).
  rewrite E. eexists. split; [reflexivity|].
  apply List.Forall_forall. intros f Hf.
  apply filter_In in Hf. destruct Hf as [Hf _].
  rewrite List.Forall_forall in HF. exact (HF f Hf).
Qed.

End Segmentacion.

(** ** The dramatic centre *)

Section CentroDramatico.
Local Open Scope Q_scope.

Variable lower : pystr -> pystr.

Lemma peso_lexico_sin_embargo (t : pystr) :
  (3 * Z.of_nat (count t (lit "sin embargo")) <= peso_lexico t)%Z.
Proof.
  unfold peso_lexico, indicadores_peso, peso_categoria,
    giros, importancia, conclusiones, contraste_adj, causalidad.
  cbn [fold_left fst snd]. lia.
Qed.

Lemma peso_lexico_sin_indicadores (t : pystr) :
  sin_indicadores t = true -> peso_lexico t = 0%Z.
Proof.
  unfold sin_indicadores, peso_lexico, indicadores_peso, peso_categoria,
    giros, importancia, conclusiones, contraste_adj, causalidad.
  cbn [forallb fold_left fst snd]. intro H.
  repeat (apply andb_prop in H; destruct H as [? H]).
  repeat match goal with
  | H : _ && _ = true |- _ => apply andb_prop in H; destruct H
  | H : (_ =? 0)%nat = true |- _ => apply Nat.eqb_eq in H; rewrite H; clear H
  end.
  reflexivity.
Qed.

Lemma pesos_tres (p0 p1 p2 : pystr) :
  pesos_parrafos lower [p0; p1; p2] =
  [ inject_Z (peso_lexico (lower p0)) + Qnat (length p0) / 100;
    (inject_Z (peso_lexico (lower p1)) + Qnat (length p1) / 100) * (12 # 10);
    (inject_Z (peso_lexico (lower p2)) + Qnat (length p2) / 100) * (12 # 10) ].
Proof. reflexivity. Qed.

(** C4, as the code has it.  In a document of three paragraphs whose second
    paragraph contains ["sin embargo"], whose first and third paragraphs
    contain no word of the five weighted categories and are each less than
    300 characters longer than the second, the dramatic centre is
    paragraph 1. *)
Theorem centro_dramatico_segundo (p0 p1 p2 : pystr) :
  (1 <= count (lower p1) (lit "sin embargo"))%nat ->
  sin_indicadores (lower p0) = true ->
  sin_indicadores (lower p2) = true ->
  (length p0 < length p1 + 300)%nat ->
  (length p2 < length p1 + 300)%nat ->
  _calcular_centro_dramatico lower [p0; p1; p2] = Some 1%nat.
Proof.
  intros Hse H0 H2 Hl0 Hl2.
  unfold _calcular_centro_dramatico. rewrite pesos_tres.
  rewrite (peso_lexico_sin_indicadores _ H0), (peso_lexico_sin_indicadores _ H2).
  pose proof (peso_lexico_sin_embargo (lower p1)) as HW.
  assert (HW3 : 3 <= inject_Z (peso_lexico (lower p1))).
  { change 3 with (inject_Z 3). rewrite <- Zle_Qle. lia. }
  assert (Hq0 : Qnat (length p0) <= Qnat (length p1) + 300).
  { unfold Qnat. change 300 with (inject_Z 300). rewrite <- inject_Z_plus, <- Zle_Qle. lia. }
  assert (Hq2 : Qnat (length p2) <= Qnat (length p1) + 300).
  { unfold Qnat. change 300 with (inject_Z 300). rewrite <- inject_Z_plus, <- Zle_Qle. lia. }
  pose proof (Qnat_nonneg (length p1)) as Hn1.
  set (w0 := inject_Z 0 + Qnat (length p0) / 100).
  set (w1 := (inject_Z (peso_lexico (lower p1)) + Qnat (length p1) / 100) * (12 # 10)).
  set (w2 := (inject_Z 0 + Qnat (length p2) / 100) * (12 # 10)).
  assert (H01 : w0 < w1).
  { unfold w0, w1, Qdiv. change (inject_Z 0) with 0. change (/ 100) with (1 # 100). lra. }
  assert (H21 : w2 <= w1).
  { unfold w2, w1, Qdiv. change (inject_Z 0) with 0. change (/ 100) with (1 # 100). lra. }
  cbn [py_max fold_left].
  assert (E1 : py_max2 w0 w1 = w1).
  { unfold py_max2. apply Qltb_true in H01. rewrite H01. reflexivity. }
  rewrite E1.
  assert (E2 : py_max2 w1 w2 = w1).
  { unfold py_max2. apply Qltb_false in H21. rewrite H21. reflexivity. }
  rewrite E2.
  cbn [py_index].
  assert (E3 : Qeq_bool w0 w1 = false).
  { destruct (Qeq_bool w0 w1) eqn:E; [|reflexivity].
    apply Qeq_bool_iff in E. lra. }
  rewrite E3.
  assert (E4 : Qeq_bool w1 w1 = true) by (apply Qeq_bool_iff; reflexivity).
  rewrite E4. reflexivity.
Qed.

End CentroDramatico.

Lemma centro_dramatico_segundo_witness :
  let p0 := lit "Hola a todos." in
  let p1 := lit "Sin embargo, llueve." in
  let p2 := lit "Es tarde." in
  (1 <= count (lower_latin1 p1) (lit "sin embargo"))%nat
  /\ sin_indicadores (lower_latin1 p0) = true
  /\ sin_indicadores (lower_latin1 p2) = true
  /\ (length p0 < length p1 + 300)%nat
  /\ (length p2 < length p1 + 300)%nat
  /\ _calcular_centro_dramatico lower_latin1 [p0; p1; p2] = Some 1%nat.
Proof.
  cbv zeta.
  assert (H1 : (1 <= count (lower_latin1 (lit "Sin embargo, llueve.")) (lit "sin embargo"))%nat)
    by (vm_compute; lia).
  assert (H2 : sin_indicadores (lower_latin1 (lit "Hola a todos.")) = true)
    by (vm_compute; reflexivity).
  assert (H3 : sin_indicadores (lower_latin1 (lit "Es tarde.")) = true)
    by (vm_compute; reflexivity).
  assert (H4 : (length (lit "Hola a todos.") < length (lit "Sin embargo, llueve.") + 300)%nat)
    by (vm_compute; lia).
  assert (H5 : (length (lit "Es tarde.") < length (lit "Sin embargo, llueve.") + 300)%nat)
    by (vm_compute; lia).
  repeat (split; [assumption|]).
  exact (centro_dramatico_segundo lower_latin1 _ _ _ H1 H2 H3 H4 H5).
Defined.

(** C4, as the specification states it, fails.  In both documents the
    second paragraph holds the only contrast connective, and the centre is
    paragraph 2: in the first because the third paragraph is long (and
    holds no indicator at all), in the second because it holds three
    importance markers. *)
Lemma centro_dramatico_contraejemplo :
  let p0 := lit "Hola a todos." in
  let p1 := lit "Sin embargo, llueve." in
  let largo := List.concat (repeat (lit "La casa es azul. ") 25) in
  let p2 := lit "Es fundamental, crucial y esencial." in
  contains (lit "sin embargo") (lower_latin1 p1) = true
  /\ existsb (fun giro => contains giro (lower_latin1 p0)
                          || contains giro (lower_latin1 largo)
                          || contains giro (lower_latin1 p2)) giros = false
  /\ sin_indicadores (lower_latin1 p0) = true
  /\ sin_indicadores (lower_latin1 largo) = true
  /\ _calcular_centro_dramatico lower_latin1 [p0; p1; largo] = Some 2%nat
  /\ _calcular_centro_dramatico lower_latin1 [p0; p1; p2] = Some 2%nat.
Proof.
  cbv zeta. repeat split; vm_compute; reflexivity.
Qed.

(** ** The summary of a segment *)

Section ResumenSegmento.
Local Open Scope Q_scope.
Import Procesador.

Lemma clamp_index_nonneg (len : nat) (k : nat) :
  clamp_index len (Z.of_nat k) = Nat.min k len.
Proof.
  unfold clamp_index. destruct (Z.leb_spec 0 (Z.of_nat k)); [|lia].
  rewrite Nat2Z.id. reflexivity.
Qed.

Lemma firstn_min_length {A} (k : nat) (l : list A) :
  firstn (Nat.min k (length l)) l = firstn k l.
Proof.
  destruct (Nat.le_ge_cases k (length l)) as [H|H].
  - rewrite Nat.min_l by exact H. reflexivity.
  - rewrite Nat.min_r by exact H.
    rewrite firstn_all, firstn_all2 by exact H. reflexivity.
Qed.

Lemma slice_to_firstn {A} (k : nat) (l : list A) :
  slice_to (Z.of_nat k) l = firstn k l.
Proof. unfold slice_to. rewrite clamp_index_nonneg. apply firstn_min_length. Qed.

Lemma slice_from_negative {A} (k : nat) (l : list A) :
  (0 < k)%nat -> slice_from (- Z.of_nat k) l = skipn (length l - k) l.
Proof.
  intro Hk. unfold slice_from, clamp_index.
  destruct (Z.leb_spec 0 (- Z.of_nat k)); [lia|].
  f_equal. lia.
Qed.

Lemma slice_nonneg {A} (a b : nat) (l : list A) :
  (a <= length l)%nat -> (b <= length l)%nat ->
  slice (Z.of_nat a) (Z.of_nat b) l = firstn (b - a) (skipn a l).
Proof.
  intros Ha Hb. unfold slice. rewrite !clamp_index_nonneg.
  rewrite !Nat.min_l by assumption. reflexivity.
Qed.

Lemma Qsum_acc (l : list Q) (a : Q) : fold_left Qplus l a == a + Qsum l.
Proof.
  unfold Qsum. revert a. induction l as [|x l IH]; intro a; simpl.
  - lra.
  - rewrite (IH (a + x)), (IH (0 + x)). lra.
Qed.

Lemma Qsum_pos (l : list Q) :
  l <> [] -> List.Forall (fun x => 0 < x) l -> 0 < Qsum l.
Proof.
  intros Hne HF. induction HF as [|x r Hx HF IH]; [congruence|].
  unfold Qsum. cbn [fold_left]. rewrite Qsum_acc.
  destruct r as [|y r'].
  - unfold Qsum. cbn [fold_left]. lra.
  - assert (0 < Qsum (y :: r')) by (apply IH; congruence). lra.
Qed.

Lemma np_mean_pos (l : list Q) :
  l <> [] -> List.Forall (fun x => 0 < x) l ->
  exists m, np_mean l = Real m /\ 0 < m.
Proof.
  intros Hne HF. exists (Qsum l / Qnat (length l)).
  split; [destruct l; [congruence | reflexivity]|].
  apply Qlt_shift_div_l.
  - apply Qnat_pos. destruct l; [congruence | simpl; lia].
  - pose proof (Qsum_pos l Hne HF). lra.
Qed.

Lemma Forall_firstn_skipn {A} (P : A -> Prop) (k : nat) (l : list A) :
  List.Forall P l -> List.Forall P (firstn k l) /\ List.Forall P (skipn k l).
Proof.
  intro H. rewrite <- (firstn_skipn k l) in H.
  apply Forall_app in H. exact H.
Qed.

Lemma metricas_arco_nonempty (l : list Q) :
  l <> [] ->
  metricas_arco l =
  let n := Z.of_nat (length l) in
  let p_start := np_mean (slice_to (Z.max 2 (n / 5)) l) in
  let p_end := np_mean (slice_from (- Z.max 2 (n / 5)) l) in
  Some {| m_pitch_start := p_start;
          m_pitch_middle := np_mean (slice (n / 3) (2 * n / 3) l);
          m_pitch_end := p_end;
          m_arc_slope := nf_div (nf_sub p_end p_start) p_start |}.
Proof. destruct l; [congruence | reflexivity]. Qed.

Lemma voiced_positive (l : list Q) :
  List.Forall (fun x => 0 < x) (List.filter (fun p => Qltb 0 p) l).
Proof.
  apply List.Forall_forall. intros x Hx.
  apply filter_In in Hx. destruct Hx as [_ Hx]. apply Qltb_true in Hx. exact Hx.
Qed.

Variable window_samples : nat.
Variable _extract_pitch : Audio -> Q.
Variable np_rms : Audio -> Q.
Variable _extract_spectral_centroid : Audio -> Q.

(** C10, as the code has it.  For a segment with voiced windows the
    analyzer sets [pitch_start] and [pitch_end] to the mean pitch of the
    first and of the last [max(2, n // 5)] voiced windows, [pitch_middle]
    to the mean over the middle third (indices [n // 3] up to [2n // 3]),
    and [arc_slope] to [(pitch_end - pitch_start) / pitch_start], whose
    divisor is positive. *)
Theorem resumen_de_segmento (i : nat) (audio : Audio) (texto : pystr) (seg : Segment) :
  analizar_segmento window_samples _extract_pitch np_rms _extract_spectral_centroid
    i audio texto = Some seg ->
  let voiced := List.filter (fun p => Qltb 0 p) (List.map pitch_mean (windows seg)) in
  let n := length voiced in
  let k := Nat.max 2 (n / 5) in
  voiced <> [] ->
  pitch_start seg = Some (np_mean (firstn k voiced))
  /\ pitch_middle seg = Some (np_mean (firstn (2 * n / 3 - n / 3) (skipn (n / 3) voiced)))
  /\ pitch_end seg = Some (np_mean (skipn (n - k) voiced))
  /\ exists s e, np_mean (firstn k voiced) = Real s
                 /\ np_mean (skipn (n - k) voiced) = Real e
                 /\ 0 < s
                 /\ arc_slope seg = Some (Real ((e - s) / s)).
Proof.
  unfold analizar_segmento.
  destruct (_split_into_windows window_samples audio) as [ws|]; [|discriminate].
  intro H.
  match type of H with Some ?r = Some _ => assert (Hs : r = seg) by congruence end.
  clear H. subst seg. cbv zeta.
  cbn [windows pitch_start pitch_middle pitch_end arc_slope].
  set (voiced := List.filter (fun p => Qltb 0 p) _).
  set (n := length voiced). set (k := Nat.max 2 (n / 5)).
  intro Hne.
  assert (Hn : (1 <= n)%nat).
  { unfold n. destruct voiced; [congruence | simpl; lia]. }
  assert (Ek : Z.max 2 (Z.of_nat n / 5) = Z.of_nat k).
  { unfold k. rewrite Nat2Z.inj_max, Nat2Z.inj_div. reflexivity. }
  assert (E3 : (Z.of_nat n / 3 = Z.of_nat (n / 3))%Z).
  { rewrite Nat2Z.inj_div. reflexivity. }
  assert (E23 : (2 * Z.of_nat n / 3 = Z.of_nat (2 * n / 3))%Z).
  { rewrite Nat2Z.inj_div, Nat2Z.inj_mul. reflexivity. }
  assert (Hk : (2 <= k)%nat) by (unfold k; lia).
  assert (Hstart : firstn k voiced <> []).
  { intro E. apply (f_equal (@length Q)) in E.
    rewrite length_firstn in E. simpl in E. fold n in E. lia. }
  assert (Hend : skipn (n - k) voiced <> []).
  { intro E. apply (f_equal (@length Q)) in E.
    rewrite length_skipn in E. simpl in E. fold n in E. lia. }
  assert (Hpos : List.Forall (fun x => 0 < x) voiced) by apply voiced_positive.
  destruct (np_mean_pos (firstn k voiced) Hstart) as (s & Es & Hs).
  { apply Forall_firstn_skipn, Hpos. }
  destruct (np_mean_pos (skipn (n - k) voiced) Hend) as (e & Ee & He).
  { apply Forall_firstn_skipn, Hpos. }
  rewrite (metricas_arco_nonempty voiced Hne). cbv zeta.
  cbn [option_map m_pitch_start m_pitch_middle m_pitch_end m_arc_slope].
  fold n. rewrite Ek, E3, E23.
  rewrite slice_to_firstn, slice_from_negative by lia.
  rewrite slice_nonneg.
  2:{ apply Nat.Div0.div_le_upper_bound. subst n. lia. }
  2:{ apply Nat.Div0.div_le_upper_bound. subst n. lia. }
  fold n.
  split; [reflexivity|]. split; [reflexivity|]. split; [reflexivity|].
  exists s, e. rewrite Es, Ee. repeat split; try reflexivity. exact Hs.
Qed.

End ResumenSegmento.

(** A waveform of twelve samples cut into windows of four, with the first
    sample of a window standing for its pitch. *)
Lemma resumen_de_segmento_witness :
  let audio := [100; 0; 110; 0; 120; 0; 130; 0; 0; 0; 0; 0]%Q in
  let pitch := fun w : Procesador.Audio => hd 0%Q w in
  exists seg,
    Procesador.analizar_segmento 4 pitch (fun _ => 1 # 10)%Q (fun _ => 1000%Q)
      0 audio (lit "Hola.") = Some seg
    /\ Procesador.pitch_start seg = Some (Procesador.np_mean [100; 110]%Q)
    /\ Procesador.pitch_middle seg = Some (Procesador.np_mean [110]%Q)
    /\ Procesador.pitch_end seg = Some (Procesador.np_mean [120; 130]%Q).
Proof.
  cbv zeta. eexists. split; [reflexivity|].
  pose proof (resumen_de_segmento 4 (fun w => hd 0%Q w) (fun _ => 1 # 10)%Q
                (fun _ => 1000%Q) 0
                [100; 0; 110; 0; 120; 0; 130; 0; 0; 0; 0; 0]%Q (lit "Hola.") _ eq_refl) as H.
  cbv zeta in H. specialize (H ltac:(vm_compute; discriminate)).
  destruct H as (H1 & H2 & H3 & _).
  split; [exact H1|]. split; [exact H2 | exact H3].
Defined.

(** C10, as the specification states it, fails.  With fifteen voiced
    windows the middle 20% are three windows, and [pitch_middle] is 102,
    the mean of the five windows 5 to 9; no three consecutive windows have
    that mean.  With five voiced windows the first 20% is one window, of
    pitch 100, and [pitch_start] is 150, the mean of the first two. *)
Lemma resumen_contraejemplo :
  let voiced := [100; 100; 100; 100; 100; 110; 100; 100; 100; 100;
                 100; 100; 100; 100; 100]%Q in
  let cinco := [100; 200; 200; 200; 200]%Q in
  (exists m q, Procesador.metricas_arco voiced = Some m
               /\ Procesador.m_pitch_middle m = Procesador.Real q
               /\ (q == 102)%Q
               /\ Procesador.m_pitch_middle m
                  = Procesador.np_mean (firstn 5 (skipn 5 voiced)))
  /\ forallb (fun i =>
       match Procesador.np_mean (firstn 3 (skipn i voiced)) with
       | Procesador.Real x => negb (Qeq_bool x 102)
       | Procesador.NaN => true
       end) (seq 0 13) = true
  /\ (exists m q, Procesador.metricas_arco cinco = Some m
                  /\ Procesador.m_pitch_start m = Procesador.Real q
                  /\ (q == 150)%Q
                  /\ ~ (q == 100)%Q).
Proof.
  cbv zeta. split; [|split].
  - eexists _, _. split; [reflexivity|]. split; [reflexivity|].
    split; [vm_compute; reflexivity | reflexivity].
  - vm_compute. reflexivity.
  - eexists _, _. split; [reflexivity|]. split; [reflexivity|].
    split; [vm_compute; reflexivity | vm_compute; discriminate].
Qed.

(** ** The problem detector *)

Section Severidad.
Local Open Scope Q_scope.
Import Procesador.

Variable lower : pystr -> pystr.





End Severidad.

(** C2 fails on the code.  For the analysis of one declarative sentence
    whose pitch rises from 100 to 300, [identify_problems] returns three
    problems; the first, [missing_paragraph_cadence], has the severity
    52/23, which is above 1, and the two others come from paths that
    clamp. *)
Theorem identify_problems_severidad_mayor_que_uno :
  exists p1 p2 p3,
    Procesador.identify_problems lower_latin1 [Procesador.segmento_sin_cadencia]
    = [p1; p2; p3]
    /\ Procesador.p_type p1 = Procesador.missing_paragraph_cadence
    /\ (Procesador.severity p1 == 52 # 23)%Q
    /\ (1 < Procesador.severity p1)%Q
    /\ Procesador.p_type p2 = Procesador.missing_definitive_ending
    /\ (Procesador.severity p2 == 1)%Q
    /\ Procesador.p_type p3 = Procesador.inverted_prosodic_arc
    /\ (Procesador.severity p3 == 8 # 10)%Q.
Proof.
  eexists _, _, _.
  split; [vm_compute; reflexivity|].
  repeat split; vm_compute; reflexivity.
Qed.

(** The entry is what the analyzer yields for such windows: a waveform of
    twelve samples cut into windows of four, the first sample of a window
    standing for its pitch, gives the same flags, the same window zones
    and the same four pitch metrics. *)
Lemma segmento_sin_cadencia_del_analizador :
  let audio := [100; 0; 100; 0; 300; 0; 300; 0; 0; 0; 0; 0]%Q in
  let pitch := fun w : Procesador.Audio => hd 0%Q w in
  exists seg,
    Procesador.analyze_complete_audio 4 pitch (fun _ => 1 # 10)%Q (fun _ => 1000%Q)
      [audio] [lit "Hola mundo."] = Some [seg]
    /\ Procesador.is_paragraph_end seg = true
    /\ Procesador.sentence_type seg = Procesador.declarative
    /\ List.map Procesador.position_type (Procesador.windows seg)
       = [Procesador.attack; Procesador.sustain; Procesador.sustain; Procesador.release]
    /\ List.map Procesador.pitch_mean (Procesador.windows seg) = [100; 100; 300; 300]%Q
    /\ (exists s m e a,
          Procesador.pitch_start seg = Some (Procesador.Real s) /\ (s == 100)%Q
          /\ Procesador.pitch_middle seg = Some (Procesador.Real m) /\ (m == 100)%Q
          /\ Procesador.pitch_end seg = Some (Procesador.Real e) /\ (e == 300)%Q
          /\ Procesador.arc_slope seg = Some (Procesador.Real a) /\ (a == 2)%Q).
Proof.
  cbv zeta. eexists. split; [vm_compute; reflexivity|].
  repeat split; try reflexivity.
  eexists _, _, _, _. repeat split; try reflexivity; vm_compute; reflexivity.
Qed.

(** ** The selective regenerator *)

Section MarcoRegenerador.
Local Open Scope Q_scope.
Import Procesador.

Variable max_attempts : Z.
Variable max_fixes : Z.
Variable regenerar : nat -> Problem -> nat -> ResultadoIntento.

Lemma norm_index_lt (len : nat) (i : Z) (n : nat) :
  norm_index len i = Some n -> (n < len)%nat.
Proof.
  unfold norm_index.
  destruct (Z.leb_spec 0 i).
  - destruct (Z.ltb_spec i (Z.of_nat len)); [|discriminate].
    intros [= <-]. lia.
  - destruct (Z.leb_spec (- Z.of_nat len) i); [|discriminate].
    intros [= <-]. lia.
Qed.

(** What the loop over the critical problems does to the segments, from
    the [k]-th problem on. *)
Lemma corregir_marco (pendientes : list Problem) :
  forall (k : nat) (texts : list pystr) (segs : list Audio) (rep : FixReport)
         (fixed : list Audio) (rep' : FixReport),
  corregir max_attempts regenerar k pendientes texts segs rep = FixRetorna fixed rep' ->
  length fixed = length segs
  /\ forall i : nat,
       fixed !! i = segs !! i
       \/ exists (j : nat) (problem : Problem) (cand : Audio) (score : Q),
            pendientes !! j = Some problem
            /\ norm_index (length segs) (p_segment_id problem) = Some i
            /\ mejor_intento max_attempts regenerar (k + j) problem = Some (Some cand, score)
            /\ 1 # 2 < score
            /\ fixed !! i = Some cand.
Proof.
  induction pendientes as [|problem resto IH]; intros k texts segs rep fixed rep' H.
  - cbn [corregir] in H. injection H as <- _. split; [reflexivity|]. intro i. left. reflexivity.
  - cbn [corregir] in H.
    destruct (getitem texts (p_segment_id problem)); [|discriminate].
    destruct (mejor_intento max_attempts regenerar k problem)
      as [[[cand|] score]|] eqn:Em; [| |discriminate].
    + destruct (Qltb (1 # 2) score) eqn:Es.
      * unfold setitem in H.
        destruct (norm_index (length segs) (p_segment_id problem)) as [n|] eqn:En;
          [|discriminate].
        apply IH in H. destruct H as [Hlen Hfr].
        rewrite length_insert in Hlen. split; [exact Hlen|].
        intro i. destruct (Hfr i) as [Heq | (j & pr & c & s & Hj & Hn & Hm & Hs & Hf)].
        -- destruct (Nat.eq_dec n i) as [->|Hne].
           ++ right. exists 0%nat, problem, cand, score.
              rewrite Nat.add_0_r. apply Qltb_true in Es.
              repeat split; try assumption; try reflexivity.
              rewrite Heq. apply list_lookup_insert_eq.
              eapply norm_index_lt; eauto.
           ++ left. rewrite Heq. apply list_lookup_insert_ne. exact Hne.
        -- right. exists (S j), pr, c, s.
           rewrite length_insert in Hn.
           replace (k + S j)%nat with (S k + j)%nat by lia.
           repeat split; assumption.
      * apply IH in H. destruct H as [Hlen Hfr]. split; [exact Hlen|].
        intro i. destruct (Hfr i) as [Heq | (j & pr & c & s & Hj & Hn & Hm & Hs & Hf)].
        -- left. exact Heq.
        -- right. exists (S j), pr, c, s.
           replace (k + S j)%nat with (S k + j)%nat by lia.
           repeat split; assumption.
    + apply IH in H. destruct H as [Hlen Hfr]. split; [exact Hlen|].
      intro i. destruct (Hfr i) as [Heq | (j & pr & c & s & Hj & Hn & Hm & Hs & Hf)].
      -- left. exact Heq.
      -- right. exists (S j), pr, c, s.
         replace (k + S j)%nat with (S k + j)%nat by lia.
         repeat split; assumption.
Qed.

(** C8.  When [fix_critical_problems] returns, the list it returns is as
    long as the list of segments it was given, and at every index the
    segment is the one given, or it is the best candidate, of a score
    above 0.5, of one of the critical problems whose [segment_id]
    designates that index. *)
Theorem fix_critical_problems_marco (problems : list Problem)
    (audio_segments : list Audio) (texts : list pystr) (severity_threshold : Q)
    (fixed_segments : list Audio) (fix_report : FixReport) :
  fix_critical_problems max_attempts max_fixes regenerar problems audio_segments texts
    severity_threshold = FixRetorna fixed_segments fix_report ->
  length fixed_segments = length audio_segments
  /\ forall i : nat,
       fixed_segments !! i = audio_segments !! i
       \/ exists (k : nat) (problem : Problem) (cand : Audio) (score : Q),
            critical_problems max_fixes problems severity_threshold !! k = Some problem
            /\ norm_index (length audio_segments) (p_segment_id problem) = Some i
            /\ mejor_intento max_attempts regenerar k problem = Some (Some cand, score)
            /\ 1 # 2 < score
            /\ fixed_segments !! i = Some cand.
Proof.
  unfold fix_critical_problems. intro H.
  apply corregir_marco in H. exact H.
Qed.

End MarcoRegenerador.

(** Two segments and one critical problem on the first: the candidate of
    score 0.9 replaces it and the second segment stays. *)
Lemma fix_critical_problems_marco_witness :
  let problema :=
    {| Procesador.p_segment_id := 0; Procesador.p_window_id := None;
       Procesador.p_type := Procesador.inverted_prosodic_arc;
       Procesador.severity := 9 # 10; Procesador.p_current := 2 # 10;
       Procesador.p_expected := - (5 # 100); Procesador.p_palabra := None |} in
  let regenerar := fun (_ : nat) (_ : Procesador.Problem) (_ : nat) =>
    Procesador.Genera [5 # 1]%Q (Procesador.Puntua (9 # 10)) in
  let segs := [[1 # 1]; [2 # 1]]%Q in
  exists fixed rep,
    Procesador.fix_critical_problems 25 8 regenerar [problema] segs
      [lit "Uno."; lit "Dos."] (3 # 10) = Procesador.FixRetorna fixed rep
    /\ fixed = [[5 # 1]; [2 # 1]]%Q
    /\ length fixed = length segs.
Proof.
  cbv zeta.
  match goal with
  | |- exists fixed rep, ?call = _ /\ _ =>
      destruct call as [fixed rep| |] eqn:E;
        [| vm_compute in E; discriminate | vm_compute in E; discriminate]
  end.
  exists fixed, rep. split; [reflexivity|].
  pose proof (fix_critical_problems_marco _ _ _ _ _ _ _ _ _ E) as [Hlen _].
  split; [|exact Hlen].
  vm_compute in E. injection E as E _. symmetry. exact E.
Defined.

(** ** The validation and retry loop *)

Section BucleReintentos.
Local Open Scope Q_scope.
Import Generador.

Variable lower : pystr -> pystr.
Variable is_word : pychar -> bool.
Variable np_rms : Audio -> Q.
Variable librosa_rms : Audio -> option (list Q).
Variable f5tts_infer : nat -> pystr -> Z -> Q -> Q -> Q -> ResultadoInfer.
Variable sf_write_ok : nat -> bool.
Variable validate_audio_anti_truncation : Audio -> pystr -> bool.
Variable apply_equal_power_crossfade : Audio -> Audio -> nat -> Audio.
Variable _clean_text_simple : pystr -> pystr.
Variable _split_text_for_engine_short : pystr -> list pystr.

Local Abbreviation quality := (evaluate_audio_quality lower is_word np_rms librosa_rms).
Local Abbreviation el_bucle :=
  (bucle lower is_word np_rms librosa_rms f5tts_infer sf_write_ok
         validate_audio_anti_truncation apply_equal_power_crossfade
         _clean_text_simple _split_text_for_engine_short).
Local Abbreviation generar :=
  (generate_single_phrase_with_validation lower is_word np_rms librosa_rms
     f5tts_infer sf_write_ok validate_audio_anti_truncation
     apply_equal_power_crossfade _clean_text_simple _split_text_for_engine_short).

(** C9.  Whenever [generate_single_phrase_with_validation] leaves, by a
    return of a valid waveform, by a return of the fallback candidate, by
    an exception that propagates or by [SystemExit], the attributes
    [nfe_steps], [sway_sampling_coef] and [speed] of the instance have the
    values they had at entry. *)
Theorem parametros_restaurados (fuel : nat) (text : pystr) (self self' : Instancia)
    (salida : Salida) :
  generar fuel text self = Some (salida, self') ->
  nfe_steps self' = nfe_steps self
  /\ sway_sampling_coef self' = sway_sampling_coef self
  /\ speed self' = speed self.
Proof.
  unfold generate_single_phrase_with_validation.
  destruct (cuerpo _ _ _ _ _ _ _ _ _ _ _ _ _) as [[s st]|]; [|discriminate].
  intro H.
  match type of H with Some (_, ?r) = Some _ => assert (Hs : r = self') by congruence end.
  subst self'. repeat split; reflexivity.
Qed.




End BucleReintentos.

(** A phrase interrupted at its first attempt: the exception propagates,
    and the instance has its parameters back, although the phrase is short
    and the loop ran with the stable ones. *)
Lemma parametros_restaurados_witness :
  exists self',
    Generador.generar_ejemplo Generador.motor_interrumpido 1 (lit "Hola.")
      Generador.instancia_inicial
    = Some (Generador.Propaga Generador.KeyboardInterrupt, self')
    /\ Generador.nfe_steps self' = Generador.nfe_steps Generador.instancia_inicial
    /\ Generador.sway_sampling_coef self'
       = Generador.sway_sampling_coef Generador.instancia_inicial
    /\ Generador.speed self' = Generador.speed Generador.instancia_inicial.
Proof.
  match goal with
  | |- exists self', ?call = _ /\ _ =>
      destruct call as [[s st]|] eqn:E; [|vm_compute in E; discriminate]
  end.
  exists st. split.
  - assert (Hs : s = Generador.Propaga Generador.KeyboardInterrupt)
      by (vm_compute in E; congruence).
    rewrite Hs. reflexivity.
  - unfold Generador.generar_ejemplo in E.
    exact (parametros_restaurados _ _ _ _ _ _ _ _ _ _ _ _ _ _ _ E).
Defined.

(** Inside the [try] block the same phrase runs with 28 steps. *)
Lemma cuerpo_frase_corta :
  option_map (fun r => Generador.nfe_steps (snd r))
    (Generador.cuerpo lower_latin1 is_word_latin1 Generador.rms_constante
       Generador.rms_frames_constante Generador.motor_interrumpido
       Generador.escritura_ok Generador.rechaza_todo Generador.sin_fundido
       strip Generador.sin_dividir 1 (lit "Hola.") Generador.instancia_inicial)
  = Some 28%Z.
Proof. reflexivity. Qed.




(* ================================================================== *)
(** * Part III. Further properties of the code                         *)
(* ================================================================== *)

(** ** The windows of the analyzer *)

Section Ventanas.
Local Open Scope Q_scope.
Import Procesador.

Variable window_samples : nat.
Variable _extract_pitch : Audio -> Q.
Variable np_rms : Audio -> Q.
Variable _extract_spectral_centroid : Audio -> Q.
Variable lower : pystr -> pystr.

Lemma rango_por_pasos (limite hop k : nat) :
  (0 < hop)%nat -> (k < (limite + hop - 1) / hop)%nat -> (k * hop < limite)%nat.
Proof.
  intros Hhop Hk.
  pose proof (Nat.Div0.mul_div_le (limite + hop - 1) hop) as Hle.
  destruct limite as [|l].
  - rewrite Nat.add_0_l in Hk.
    rewrite Nat.div_small in Hk by lia. lia.
  - nia.
Qed.

Lemma rango_por_pasos_vacio (limite hop : nat) :
  (0 < hop)%nat -> ((limite + hop - 1) / hop = 0)%nat <-> limite = 0%nat.
Proof.
  intro Hhop. split.
  - intro H. destruct limite as [|l]; [reflexivity|].
    exfalso.
    assert (hop * 1 <= S l + hop - 1)%nat as Hge by lia.
    apply Nat.div_le_lower_bound in Hge; lia.
  - intros ->. apply Nat.div_small. lia.
Qed.

(** X1.  With a window of at least two samples [_split_into_windows]
    raises nothing, every window it returns has exactly [window_samples]
    samples, a waveform of at most [window_samples] samples gives no window
    at all, and a longer one gives at least one. *)
Theorem split_into_windows_completas (audio : Audio) :
  (2 <= window_samples)%nat ->
  exists wins,
    _split_into_windows window_samples audio = Some wins
    /\ Forall (fun w => length w = window_samples) wins
    /\ ((length audio <= window_samples)%nat -> wins = [])
    /\ ((window_samples < length audio)%nat -> wins <> []).
Proof.
  intro Hws. unfold _split_into_windows.
  assert (Hhop : (0 < window_samples / 2)%nat).
  { apply Nat.div_str_pos. lia. }
  destruct (Nat.eqb_spec (window_samples / 2) 0) as [E|_]; [lia|].
  eexists. split; [reflexivity|]. split; [|split].
  - apply List.Forall_forall. intros w Hin.
    apply in_map_iff in Hin. destruct Hin as (k & <- & Hk).
    apply in_seq in Hk. destruct Hk as [_ Hk]. rewrite Nat.add_0_l in Hk.
    apply rango_por_pasos in Hk; [|exact Hhop].
    rewrite length_firstn, length_skipn. lia.
  - intro Hlen.
    replace (length audio - window_samples)%nat with 0%nat by lia.
    rewrite Nat.add_0_l, (Nat.div_small (window_samples / 2 - 1)) by lia. reflexivity.
  - intros Hlen Hnil.
    apply (f_equal (@length _)) in Hnil.
    rewrite length_map, length_seq in Hnil. cbn [length] in Hnil.
    apply rango_por_pasos_vacio in Hnil; [lia|exact Hhop].
Qed.

Lemma classify_cero (d : Q) : _classify_position (Qnat 0 / d) = attack.
Proof.
  unfold _classify_position.
  assert (H : Qltb (Qnat 0 / d) (15 # 100) = true).
  { apply Qltb_true. unfold Qnat, Qdiv. cbn [Z.of_nat].
    change (inject_Z 0) with 0. rewrite Qmult_0_l. reflexivity. }
  rewrite H. reflexivity.
Qed.

Lemma classify_uno (x : Q) : x == 1 -> _classify_position x = release.
Proof.
  intro H. unfold _classify_position.
  assert (H1 : Qltb x (15 # 100) = false) by (apply Qltb_false; rewrite H; discriminate).
  assert (H2 : Qltb x (7 # 10) = false) by (apply Qltb_false; rewrite H; discriminate).
  assert (H3 : Qltb x (85 # 100) = false) by (apply Qltb_false; rewrite H; discriminate).
  rewrite H1, H2, H3. reflexivity.
Qed.

Lemma ventanas_de_segmento (i : nat) (audio : Audio) (texto : pystr) (seg : Segment) :
  analizar_segmento window_samples _extract_pitch np_rms _extract_spectral_centroid
    i audio texto = Some seg ->
  exists ws,
    _split_into_windows window_samples audio = Some ws
    /\ windows seg
       = imap (analizar_ventana _extract_pitch np_rms _extract_spectral_centroid (length ws)) ws
    /\ seg_pitch_mean seg = None.
Proof.
  unfold analizar_segmento.
  destruct (_split_into_windows window_samples audio) as [ws|]; [|discriminate].
  intro H. exists ws.
  match type of H with Some ?r = Some _ => assert (Hs : r = seg) by congruence end.
  subst seg. cbn [windows seg_pitch_mean]. auto.
Qed.

(** X2.  In the analysis of a segment the windows are numbered from 0 in
    order, the position of each lies in [0, 1], none carries a text
    snippet, the first is in the attack zone, and when there are at least
    two the last is in the release zone. *)
Theorem ventanas_del_analizador (i : nat) (audio : Audio) (texto : pystr) (seg : Segment)
    (k : nat) (w : Window) :
  analizar_segmento window_samples _extract_pitch np_rms _extract_spectral_centroid
    i audio texto = Some seg ->
  windows seg !! k = Some w ->
  window_id w = k
  /\ 0 <= position w /\ position w <= 1
  /\ text_snippet w = None
  /\ (k = 0%nat -> position_type w = attack)
  /\ ((1 <= k)%nat -> S k = length (windows seg) -> position_type w = release).
Proof.
  intros Hseg Hk.
  apply ventanas_de_segmento in Hseg. destruct Hseg as (ws & _ & Hw & _).
  rewrite Hw in Hk |- *. rewrite length_imap.
  rewrite list_lookup_imap in Hk.
  destruct (ws !! k) as [win|] eqn:Ewin; [|discriminate].
  apply lookup_lt_Some in Ewin.
  cbn in Hk.
  match type of Hk with Some ?r = Some _ => assert (Hs : r = w) by congruence end.
  subst w. cbn [window_id position text_snippet position_type].
  assert (Hden : 0 < Qnat (Nat.max (length ws - 1) 1)) by (apply Qnat_pos; lia).
  repeat split.
  - apply Qdiv_nonneg; [apply Qnat_nonneg|exact Hden].
  - apply Qdiv_le_1; [exact Hden|]. apply Qnat_le. lia.
  - intros ->. apply classify_cero.
  - intros H1 Hlast. apply classify_uno.
    replace (Nat.max (length ws - 1) 1) with k by lia.
    apply Qmult_inv_r. intro H0.
    assert (0 < Qnat k) as Hpos by (apply Qnat_pos; lia).
    rewrite H0 in Hpos. discriminate.
Qed.

(** X3.  A segment whose waveform has at most one window and a half of
    samples is analysed into at most one window, which is in the attack
    zone; the detector looks only at segments with a window in the release
    zone, so it reports nothing for such a segment, whatever its text. *)
Theorem segmento_corto_sin_problemas (i j : nat) (audio : Audio) (texto : pystr)
    (seg : Segment) (analysis_map : list Segment) :
  analizar_segmento window_samples _extract_pitch np_rms _extract_spectral_centroid
    i audio texto = Some seg ->
  (length audio <= window_samples + window_samples / 2)%nat ->
  problemas_de_segmento lower analysis_map j seg = [].
Proof.
  intros Hseg Hlen.
  apply ventanas_de_segmento in Hseg. destruct Hseg as (ws & Hsplit & Hw & _).
  assert (Hcorta : (length ws <= 1)%nat).
  { unfold _split_into_windows in Hsplit.
    destruct (Nat.eqb_spec (window_samples / 2) 0) as [E|Hhop]; [discriminate|].
    match type of Hsplit with Some ?r = Some _ => assert (Hs : r = ws) by congruence end.
    subst ws. rewrite length_map, length_seq.
    apply Nat.lt_succ_r. apply Nat.Div0.div_lt_upper_bound. lia. }
  unfold problemas_de_segmento. rewrite Hw.
  destruct ws as [|w0 [|w1 ws]]; [reflexivity| |cbn [length] in Hcorta; lia].
  cbn [imap]. cbn [List.filter analizar_ventana position_type length Nat.sub].
  rewrite classify_cero. reflexivity.
Qed.

End Ventanas.

(** A waveform of twelve samples and windows of four. *)
Lemma split_into_windows_completas_witness :
  exists wins,
    Procesador._split_into_windows 4 [1; 2; 3; 4; 5; 6; 7; 8; 9; 10; 11; 12]%Q = Some wins
    /\ Forall (fun w => length w = 4%nat) wins
    /\ length wins = 4%nat.
Proof.
  destruct (split_into_windows_completas 4 [1; 2; 3; 4; 5; 6; 7; 8; 9; 10; 11; 12]%Q)
    as (wins & Hs & Hall & _ & _); [lia|].
  exists wins. split; [exact Hs|]. split; [exact Hall|].
  vm_compute in Hs. injection Hs as <-. reflexivity.
Defined.

(** The last of the four windows of the same waveform. *)
Lemma ventanas_del_analizador_witness :
  let audio := [100; 0; 100; 0; 300; 0; 300; 0; 0; 0; 0; 0]%Q in
  let pitch := fun w : Procesador.Audio => hd 0%Q w in
  exists seg w,
    Procesador.analizar_segmento 4 pitch (fun _ => 1 # 10)%Q (fun _ => 1000%Q)
      0 audio (lit "Hola mundo.") = Some seg
    /\ Procesador.windows seg !! 3%nat = Some w
    /\ Procesador.window_id w = 3%nat
    /\ Procesador.position_type w = Procesador.release.
Proof.
  cbv zeta.
  match goal with
  | |- exists seg w, ?call = _ /\ _ => destruct call as [seg|] eqn:E;
      [|vm_compute in E; discriminate]
  end.
  destruct (Procesador.windows seg !! 3%nat) as [w|] eqn:Ew.
  - exists seg, w. split; [reflexivity|]. split; [exact Ew|].
    pose proof (ventanas_del_analizador _ _ _ _ _ _ _ _ _ _ E Ew)
      as (Hid & _ & _ & _ & _ & Hrel).
    split; [exact Hid|]. apply Hrel; [lia|].
    vm_compute in E. injection E as <-. reflexivity.
  - exfalso. vm_compute in E. injection E as <-. discriminate Ew.
Defined.

(** A declarative paragraph end of five samples with windows of four: one
    window, no problem. *)
Lemma segmento_corto_sin_problemas_witness :
  let audio := [300; 0; 300; 0; 300]%Q in
  let pitch := fun w : Procesador.Audio => hd 0%Q w in
  exists seg,
    Procesador.analizar_segmento 4 pitch (fun _ => 1 # 10)%Q (fun _ => 1000%Q)
      0 audio (lit "Nunca.") = Some seg
    /\ length (Procesador.windows seg) = 1%nat
    /\ Procesador.problemas_de_segmento lower_latin1 [seg] 0 seg = [].
Proof.
  cbv zeta.
  match goal with
  | |- exists seg, ?call = _ /\ _ => destruct call as [seg|] eqn:E;
      [|vm_compute in E; discriminate]
  end.
  exists seg. split; [reflexivity|]. split.
  - vm_compute in E. injection E as <-. reflexivity.
  - apply (segmento_corto_sin_problemas _ _ _ _ _ _ _ _ _ _ _ E). vm_compute. lia.
Defined.

(** ** The order and the range of the severities *)

Section OrdenSeveridad.
Local Open Scope Q_scope.
Import Procesador.

Variable lower : pystr -> pystr.

Lemma insertar_permutacion (x : Problem) (l : list Problem) :
  Permutation (insertar_por_severidad x l) (x :: l).
Proof.
  induction l as [|y r IH]; cbn [insertar_por_severidad]; [reflexivity|].
  destruct (Qltb (severity x) (severity y)); [|reflexivity].
  rewrite IH. apply perm_swap.
Qed.

Lemma ordenar_permutacion (l : list Problem) :
  Permutation (ordenar_por_severidad l) l.
Proof.
  unfold ordenar_por_severidad.
  induction l as [|x r IH]; cbn [fold_right]; [reflexivity|].
  rewrite insertar_permutacion. apply perm_skip, IH.
Qed.

Lemma insertar_ordenado (x : Problem) (l : list Problem) :
  StronglySorted (fun a b => severity b <= severity a) l ->
  StronglySorted (fun a b => severity b <= severity a) (insertar_por_severidad x l).
Proof.
  induction 1 as [|y r Hr IH Hall]; cbn [insertar_por_severidad].
  - constructor; constructor.
  - destruct (Qltb (severity x) (severity y)) eqn:E.
    + apply Qltb_true in E. constructor; [exact IH|].
      eapply Permutation_Forall; [symmetry; apply insertar_permutacion|].
      constructor; [lra|exact Hall].
    + apply Qltb_false in E. constructor.
      * constructor; assumption.
      * constructor; [exact E|].
        eapply Forall_impl; [exact Hall|]. cbn beta. intros z Hz. lra.
Qed.

Lemma ordenar_ordenado (l : list Problem) :
  StronglySorted (fun a b => severity b <= severity a) (ordenar_por_severidad l).
Proof.
  unfold ordenar_por_severidad.
  induction l as [|x r IH]; cbn [fold_right]; [constructor|].
  apply insertar_ordenado, IH.
Qed.

Lemma ordenado_por_indices {A} (R : A -> A -> Prop) (l : list A) :
  StronglySorted R l ->
  forall (i j : nat) (p q : A),
    (i < j)%nat -> l !! i = Some p -> l !! j = Some q -> R p q.
Proof.
  induction 1 as [|y r Hr IH Hall]; intros i j p q Hij Hi Hj; [discriminate|].
  destruct j as [|j]; [lia|].
  cbn in Hj. destruct i as [|i].
  - cbn in Hi. injection Hi as <-.
    rewrite List.Forall_forall in Hall. apply Hall.
    apply list_elem_of_In. eapply list_elem_of_lookup_2. exact Hj.
  - cbn in Hi. apply (IH i j); [lia|assumption|assumption].
Qed.

Lemma ordenado_filter {A} (R : A -> A -> Prop) (f : A -> bool) (l : list A) :
  StronglySorted R l -> StronglySorted R (List.filter f l).
Proof.
  induction 1 as [|y r Hr IH Hall]; cbn [List.filter]; [constructor|].
  destruct (f y); [|exact IH].
  constructor; [exact IH|].
  rewrite List.Forall_forall in Hall |- *.
  intros z Hz. apply filter_In in Hz. apply Hall, Hz.
Qed.

Lemma ordenado_app {A} (R : A -> A -> Prop) (l1 l2 : list A) :
  StronglySorted R (l1 ++ l2) ->
  forall p q, In p l1 -> In q l2 -> R p q.
Proof.
  induction l1 as [|x l1 IH]; intros Hs p q Hp Hq; [destruct Hp|].
  cbn [app] in Hs. apply StronglySorted_inv in Hs. destruct Hs as [Hs Hall].
  destruct Hp as [<-|Hp].
  - rewrite List.Forall_forall in Hall. apply Hall. apply in_or_app. right. exact Hq.
  - apply IH; assumption.
Qed.

(** X4.  The list that [identify_problems] returns holds the problems
    found in the segments, each as often as it was found, in the order of
    non-increasing severity. *)
Theorem identify_problems_ordenado (analysis_map : list Segment) :
  Permutation (identify_problems lower analysis_map)
              (List.concat (imap (problemas_de_segmento lower analysis_map) analysis_map))
  /\ forall (i j : nat) (p q : Problem),
       (i < j)%nat ->
       identify_problems lower analysis_map !! i = Some p ->
       identify_problems lower analysis_map !! j = Some q ->
       severity q <= severity p.
Proof.
  split.
  - apply ordenar_permutacion.
  - apply (ordenado_por_indices (fun a b => severity b <= severity a)).
    apply ordenar_ordenado.
Qed.

(** X5.  The problems that [fix_critical_problems] takes up from the list
    of [identify_problems] are the first ones of those above the threshold,
    and each problem above the threshold that is left out is at most as
    severe as every one taken up. *)
Theorem criticos_los_mas_severos (max_fixes : Z) (severity_threshold : Q)
    (analysis_map : list Segment) :
  exists resto,
    List.filter (fun p => Qltb severity_threshold (severity p))
                (identify_problems lower analysis_map)
    = critical_problems max_fixes (identify_problems lower analysis_map) severity_threshold
      ++ resto
    /\ forall p q,
         In p (critical_problems max_fixes (identify_problems lower analysis_map)
                 severity_threshold) ->
         In q resto ->
         severity_threshold < severity p /\ severity q <= severity p.
Proof.
  unfold critical_problems, slice_to.
  set (l := List.filter _ _).
  exists (skipn (clamp_index (length l) max_fixes) l).
  split; [symmetry; apply firstn_skipn|].
  intros p q Hp Hq. split.
  - assert (Hin : In p l).
    { rewrite <- (firstn_skipn (clamp_index (length l) max_fixes) l).
      apply in_or_app. left. exact Hp. }
    apply filter_In in Hin. apply Qltb_true, Hin.
  - apply (ordenado_app (fun a b => severity b <= severity a)
             (firstn (clamp_index (length l) max_fixes) l)
             (skipn (clamp_index (length l) max_fixes) l));
      [|exact Hp|exact Hq].
    rewrite firstn_skipn. apply ordenado_filter, ordenar_ordenado.
Qed.

Lemma Forall_flat_map {A B} (P : B -> Prop) (f : A -> list B) (l : list A) :
  (forall a, Forall P (f a)) -> Forall P (flat_map f l).
Proof.
  intro H. induction l as [|a l IH]; cbn [flat_map]; [constructor|].
  apply Forall_app. split; [apply H|exact IH].
Qed.


(** What every severity that the detector computes satisfies. *)
Local Abbreviation acotada := (fun p : Problem =>
  0 <= severity p
  /\ (p_type p = missing_question_rise -> severity p < 1)
  /\ (p_type p = inverted_prosodic_arc -> severity p <= 8 # 10)
  /\ (forall c, p_type p = missing_emphasis c -> severity p <= 1)).










End OrdenSeveridad.


(** ** The detector on the output of the analyzer *)

Section DetectorSobreAnalizador.
Local Open Scope Q_scope.
Import Procesador.

Variable window_samples : nat.
Variable _extract_pitch : Audio -> Q.
Variable np_rms : Audio -> Q.
Variable _extract_spectral_centroid : Audio -> Q.
Variable lower : pystr -> pystr.

Lemma flat_map_nil {A B} (f : A -> list B) (l : list A) :
  (forall a, In a l -> f a = []) -> flat_map f l = [].
Proof.
  induction l as [|a l IH]; intro H; cbn [flat_map]; [reflexivity|].
  rewrite (H a) by (left; reflexivity).
  rewrite IH; [reflexivity|]. intros b Hb. apply H. right. exact Hb.
Qed.

Lemma contains_nil (sub : pystr) : sub <> [] -> contains sub [] = false.
Proof. destruct sub; [congruence|reflexivity]. Qed.

Lemma analizar_desde_segmentos (audios : list Audio) :
  forall (i : nat) (texts : list pystr) (m : list Segment) (seg : Segment),
  analizar_desde window_samples _extract_pitch np_rms _extract_spectral_centroid
    i audios texts = Some m ->
  In seg m ->
  exists j audio texto,
    analizar_segmento window_samples _extract_pitch np_rms _extract_spectral_centroid
      j audio texto = Some seg.
Proof.
  induction audios as [|audio audios IH]; intros i texts m seg H Hin.
  - cbn [analizar_desde] in H. injection H as <-. destruct Hin.
  - cbn [analizar_desde] in H. destruct texts as [|texto textos].
    + injection H as <-. destruct Hin.
    + destruct (analizar_segmento _ _ _ _ i audio texto) as [s|] eqn:Es; [|discriminate].
      destruct (analizar_desde _ _ _ _ (S i) audios textos) as [resto|] eqn:Er;
        [|discriminate].
      injection H as <-. destruct Hin as [<-|Hin].
      * exists i, audio, texto. exact Es.
      * apply (IH _ _ _ _ Er Hin).
Qed.

Lemma palabra_ventana_sin_snippet (i : nat) (segment : Segment) (t : pystr)
    (palabras : list pystr) (boost tolerancia peso : Q) (tipo : TipoProblema) :
  lower [] = [] ->
  Forall (fun palabra => palabra <> []) palabras ->
  Forall (fun w => text_snippet w = None) (windows segment) ->
  problemas_palabra_ventana lower i segment t palabras boost tolerancia peso tipo = [].
Proof.
  intros Hlower Hpal Hwin. unfold problemas_palabra_ventana.
  rewrite List.Forall_forall in Hpal, Hwin.
  apply flat_map_nil. intros palabra Hp.
  destruct (contains palabra t); [|reflexivity].
  apply flat_map_nil. intros w Hw.
  unfold snippet_lower. rewrite (Hwin w Hw), Hlower.
  rewrite contains_nil by (apply Hpal, Hp). reflexivity.
Qed.

Lemma enfasis_sin_media (segment : Segment) :
  seg_pitch_mean segment = None -> problemas_enfasis lower segment = [].
Proof.
  intro H. unfold problemas_enfasis.
  apply flat_map_nil. intros [categoria palabras] _.
  apply flat_map_nil. intros palabra _.
  unfold _verificar_enfasis_palabra. rewrite H.
  destruct (contains palabra _); reflexivity.
Qed.

(** X7.  On the analysis that [analyze_complete_audio] returns, the
    detector reports four types of problem only.  The analyzer gives no
    window a text snippet and no segment a mean pitch, so the checks of
    the key words, which read them, report nothing: there is no
    [missing_micro_ascenso], no [insufficient_emphasis] and no
    [missing_emphasis_*] problem. *)
Theorem tipos_sobre_el_analizador (audio_segments : list Audio) (texts : list pystr)
    (analysis_map : list Segment) (p : Problem) :
  lower [] = [] ->
  analyze_complete_audio window_samples _extract_pitch np_rms _extract_spectral_centroid
    audio_segments texts = Some analysis_map ->
  In p (identify_problems lower analysis_map) ->
  p_type p = missing_paragraph_cadence \/ p_type p = missing_question_rise
  \/ p_type p = missing_definitive_ending \/ p_type p = inverted_prosodic_arc.
Proof.
  intros Hlower Han Hin. unfold identify_problems in Hin.
  apply (Permutation_in _ (ordenar_permutacion _)) in Hin.
  apply in_concat in Hin. destruct Hin as (ps & Hps & Hp).
  apply list_elem_of_In, elem_of_lookup_imap in Hps.
  destruct Hps as (i & segment & -> & Hseg).
  apply list_elem_of_lookup_2, list_elem_of_In in Hseg.
  destruct (analizar_desde_segmentos _ _ _ _ _ Han Hseg) as (j & audio & texto & Hs).
  assert (Hwin : Forall (fun w => text_snippet w = None) (windows segment)).
  { apply List.Forall_forall. intros w Hw.
    apply list_elem_of_In, list_elem_of_lookup_1 in Hw. destruct Hw as [k Hk].
    destruct (ventanas_de_segmento _ _ _ _ _ _ _ _ Hs) as (ws & _ & Hw & _).
    rewrite Hw, list_lookup_imap in Hk.
    destruct (ws !! k); [|discriminate]. cbn in Hk.
    match type of Hk with Some ?r = Some _ => assert (Hr : r = w) by congruence end.
    subst w. reflexivity. }
  assert (Hpm : seg_pitch_mean segment = None).
  { destruct (ventanas_de_segmento _ _ _ _ _ _ _ _ Hs) as (ws & _ & _ & Hpm). exact Hpm. }
  unfold problemas_de_segmento in Hp.
  destruct (List.last _ None) as [last_window|]; [|destruct Hp].
  rewrite (palabra_ventana_sin_snippet _ _ _ palabras_micro_ascenso) in Hp;
    [|exact Hlower|repeat constructor; discriminate|exact Hwin].
  rewrite (palabra_ventana_sin_snippet _ _ _ palabras_enfasis_alto) in Hp;
    [|exact Hlower|repeat constructor; discriminate|exact Hwin].
  rewrite (enfasis_sin_media _ Hpm) in Hp.
  cbn [app] in Hp.
  apply in_app_or in Hp. destruct Hp as [Hp|Hp].
  { destruct (_ && _).
    - unfold problema_cadencia in Hp.
      destruct (pitch_start segment) as [[s|]|]; try destruct Hp.
      destruct (pitch_end segment) as [[e|]|]; try destruct Hp.
      destruct (_ && _); [|destruct Hp].
      destruct Hp as [<-|[]]. left. reflexivity.
    - destruct (is_question segment); [|destruct Hp].
      unfold problema_pregunta in Hp.
      destruct (pitch_middle segment) as [[s|]|]; try destruct Hp.
      destruct (pitch_end segment) as [[e|]|]; try destruct Hp.
      destruct (_ && _); [|destruct Hp].
      destruct Hp as [<-|[]]. right. left. reflexivity. }
  apply in_app_or in Hp. destruct Hp as [Hp|Hp].
  { unfold problemas_final_palabra in Hp.
    apply in_flat_map in Hp. destruct Hp as (palabra & _ & Hp).
    destruct (_ && _); [|destruct Hp].
    destruct (pitch_start segment) as [[s|]|]; try destruct Hp.
    destruct (pitch_end segment) as [[e|]|]; try destruct Hp.
    destruct (Qltb _ _); [|destruct Hp].
    destruct Hp as [<-|[]]. right. right. left. reflexivity. }
  apply in_app_or in Hp. destruct Hp as [Hp|Hp].
  { unfold problema_arco in Hp.
    destruct (arc_slope segment) as [[a|]|]; try destruct Hp.
    destruct (Qltb _ _); [|destruct Hp].
    destruct Hp as [<-|[]]. right. right. right. reflexivity. }
  apply in_app_or in Hp. destruct Hp as [Hp|Hp].
  { destruct (0 <? i)%nat; destruct Hp. }
  destruct (_es_final_definitivo lower segment); [|destruct Hp].
  unfold _verificar_final_definitivo in Hp.
  destruct (pitch_start segment) as [[s|]|]; try destruct Hp.
  destruct (pitch_end segment) as [[e|]|]; try destruct Hp.
  destruct (_ && _); [|destruct Hp].
  destruct Hp as [<-|[]]. right. right. left. reflexivity.
Qed.

End DetectorSobreAnalizador.

(** The sentence ['Es importante.'] holds the key word of a high emphasis
    and its pitch rises from 100 to 300: the only problems reported are
    the missing cadence, the missing definitive ending and the inverted
    arc. *)
Lemma tipos_sobre_el_analizador_witness :
  let audio := [100; 0; 100; 0; 300; 0; 300; 0; 0; 0; 0; 0]%Q in
  let pitch := fun w : Procesador.Audio => hd 0%Q w in
  exists m,
    Procesador.analyze_complete_audio 4 pitch (fun _ => 1 # 10)%Q (fun _ => 1000%Q)
      [audio] [lit "Es importante."] = Some m
    /\ length (Procesador.identify_problems lower_latin1 m) = 3%nat
    /\ Forall (fun p =>
         Procesador.p_type p = Procesador.missing_paragraph_cadence
         \/ Procesador.p_type p = Procesador.missing_question_rise
         \/ Procesador.p_type p = Procesador.missing_definitive_ending
         \/ Procesador.p_type p = Procesador.inverted_prosodic_arc)
         (Procesador.identify_problems lower_latin1 m).
Proof.
  cbv zeta.
  match goal with
  | |- exists m, ?call = _ /\ _ => destruct call as [m|] eqn:E;
      [|vm_compute in E; discriminate]
  end.
  exists m. split; [reflexivity|]. split.
  - vm_compute in E. injection E as <-. vm_compute. reflexivity.
  - apply List.Forall_forall. intros p Hp.
    apply (tipos_sobre_el_analizador _ _ _ _ lower_latin1 _ _ _ p eq_refl E Hp).
Defined.

(** ** The attempts and the report of the selective regenerator *)

Section IntentosYReporte.
Local Open Scope Q_scope.
Import Procesador.

Variable max_attempts : Z.
Variable max_fixes : Z.

Lemma intentos_ext (r1 r2 : nat -> Problem -> nat -> ResultadoIntento)
    (k : nat) (problem : Problem) (restantes : nat) :
  forall (attempt : nat) (bc : option Audio) (bs : Q) (cf : nat),
  (forall a, (attempt <= a < attempt + restantes)%nat -> r1 k problem a = r2 k problem a) ->
  intentos r1 k problem restantes attempt bc bs cf
  = intentos r2 k problem restantes attempt bc bs cf.
Proof.
  induction restantes as [|n IH]; intros attempt bc bs cf H; [reflexivity|].
  cbn [intentos]. rewrite <- (H attempt) by lia.
  assert (Hs : forall bc bs cf,
             intentos r1 k problem n (S attempt) bc bs cf
             = intentos r2 k problem n (S attempt) bc bs cf).
  { intros. apply IH. intros a Ha. apply H. lia. }
  destruct (r1 k problem attempt) as [critico|new_audio ev].
  - destruct critico; [reflexivity|]. destruct (3 <=? S cf)%nat; [reflexivity|apply Hs].
  - destruct new_audio as [|x new_audio].
    + destruct (3 <=? S cf)%nat; [reflexivity|apply Hs].
    + destruct ev as [score|critico].
      * destruct (Qltb bs score); destruct (Qltb (8 # 10) score);
          try reflexivity; apply Hs.
      * destruct critico; [reflexivity|]. cbn. apply Hs.
Qed.

(** X8.  Whatever [max_attempts] is, the choice of the best candidate for
    a problem depends on the first five attempts only: two engines that
    agree on the attempts 0 to 4 give the same candidate and the same
    score. *)
Theorem mejor_intento_cinco_intentos
    (r1 r2 : nat -> Problem -> nat -> ResultadoIntento) (k : nat) (problem : Problem) :
  (forall a, (a < 5)%nat -> r1 k problem a = r2 k problem a) ->
  mejor_intento max_attempts r1 k problem = mejor_intento max_attempts r2 k problem.
Proof.
  intro H. unfold mejor_intento. apply intentos_ext.
  intros a Ha. apply H. unfold max_safe_attempts in Ha. lia.
Qed.

Variable regenerar : nat -> Problem -> nat -> ResultadoIntento.

(** The invariant of the attempts: no candidate yet and the score 0, or
    the candidate is the waveform of an earlier attempt, not empty, with
    its positive score, which is above that of every attempt before it
    and not below that of any attempt made since. *)
Lemma intentos_procedencia (k : nat) (problem : Problem) (restantes : nat) :
  forall (attempt : nat) (bc : option Audio) (bs : Q) (cf : nat) (c : option Audio) (s : Q),
  intentos regenerar k problem restantes attempt bc bs cf = Some (c, s) ->
  (bc = None /\ bs = 0
   \/ exists a cand, (a < attempt)%nat /\ bc = Some cand
        /\ regenerar k problem a = Genera cand (Puntua bs)
        /\ cand <> [] /\ 0 < bs
        /\ forall a' w s', (a' < a)%nat ->
             regenerar k problem a' = Genera w (Puntua s') -> w <> [] -> s' < bs) ->
  (forall a' w s', (a' < attempt)%nat ->
     regenerar k problem a' = Genera w (Puntua s') -> w <> [] -> s' <= bs) ->
  c = None /\ s = 0
  \/ exists a cand, (a < attempt + restantes)%nat /\ c = Some cand
       /\ regenerar k problem a = Genera cand (Puntua s)
       /\ cand <> [] /\ 0 < s
       /\ forall a' w s', (a' < a)%nat ->
            regenerar k problem a' = Genera w (Puntua s') -> w <> [] -> s' < s.
Proof.
  induction restantes as [|n IH]; intros attempt bc bs cf c s H Hinv Hmax.
  - cbn [intentos] in H. injection H as <- <-.
    destruct Hinv as [Hinv|(a & cand & Ha & Hrest)]; [left; exact Hinv|].
    right. exists a, cand. split; [lia|exact Hrest].
  - cbn [intentos] in H.
    assert (Hfin : Some (bc, bs) = Some (c, s) ->
              c = None /\ s = 0
              \/ exists a cand, (a < attempt + S n)%nat /\ c = Some cand
                   /\ regenerar k problem a = Genera cand (Puntua s)
                   /\ cand <> [] /\ 0 < s
                   /\ forall a' w s', (a' < a)%nat ->
                        regenerar k problem a' = Genera w (Puntua s') -> w <> [] -> s' < s).
    { intros [= <- <-].
      destruct Hinv as [Hinv|(a & cand & Ha & Hrest)]; [left; exact Hinv|].
      right. exists a, cand. split; [lia|exact Hrest]. }
    assert (Hsig : forall cf',
              (forall w s', regenerar k problem attempt = Genera w (Puntua s') ->
                            w <> [] -> s' <= bs) ->
              intentos regenerar k problem n (S attempt) bc bs cf' = Some (c, s) ->
              c = None /\ s = 0
              \/ exists a cand, (a < attempt + S n)%nat /\ c = Some cand
                   /\ regenerar k problem a = Genera cand (Puntua s)
                   /\ cand <> [] /\ 0 < s
                   /\ forall a' w s', (a' < a)%nat ->
                        regenerar k problem a' = Genera w (Puntua s') -> w <> [] -> s' < s).
    { intros cf' Hact H'.
      replace (attempt + S n)%nat with (S attempt + n)%nat by lia.
      apply (IH _ _ _ _ _ _ H').
      - destruct Hinv as [Hinv|(a & cand & Ha & Hrest)]; [left; exact Hinv|].
        right. exists a, cand. split; [lia|exact Hrest].
      - intros a' w s' Ha' Hr Hw.
        destruct (Nat.eq_dec a' attempt) as [->|Hne].
        + apply (Hact w s' Hr Hw).
        + apply (Hmax a' w s'); [lia|exact Hr|exact Hw]. }
    destruct (regenerar k problem attempt) as [critico|new_audio ev] eqn:Er.
    + destruct critico; [discriminate|].
      destruct (3 <=? S cf)%nat; [apply Hfin, H|].
      apply (Hsig _ ltac:(intros; discriminate) H).
    + destruct new_audio as [|x new_audio].
      * destruct (3 <=? S cf)%nat; [apply Hfin, H|].
        apply (Hsig (S cf)); [|exact H].
        intros w s' [= <- _] Hw. congruence.
      * destruct ev as [score|critico].
        -- destruct (Qltb bs score) eqn:Eb.
           ++ apply Qltb_true in Eb.
              assert (Hnuevo :
                exists a cand, (a < S attempt)%nat /\ Some (x :: new_audio) = Some cand
                  /\ regenerar k problem a = Genera cand (Puntua score)
                  /\ cand <> [] /\ 0 < score
                  /\ forall a' w s', (a' < a)%nat ->
                       regenerar k problem a' = Genera w (Puntua s') -> w <> [] ->
                       s' < score).
              { exists attempt, (x :: new_audio).
                split; [lia|]. split; [reflexivity|]. split; [exact Er|].
                split; [discriminate|]. split.
                - destruct Hinv as [[_ ->]|(a & cand & _ & _ & _ & _ & Hpos & _)]; lra.
                - intros a' w s' Ha' Hr Hw.
                  pose proof (Hmax a' w s' Ha' Hr Hw). lra. }
              assert (Hmax' : forall a' w s', (a' < S attempt)%nat ->
                        regenerar k problem a' = Genera w (Puntua s') -> w <> [] ->
                        s' <= score).
              { intros a' w s' Ha' Hr Hw.
                destruct (Nat.eq_dec a' attempt) as [->|Hne].
                - rewrite Er in Hr. injection Hr as _ <-. lra.
                - pose proof (Hmax a' w s' ltac:(lia) Hr Hw). lra. }
              destruct (Qltb (8 # 10) score).
              ** injection H as <- <-. right.
                 destruct Hnuevo as (a & cand & Ha & Hrest).
                 exists a, cand. split; [lia|exact Hrest].
              ** replace (attempt + S n)%nat with (S attempt + n)%nat by lia.
                 apply (IH _ _ _ _ _ _ H); [right; exact Hnuevo|exact Hmax'].
           ++ apply Qltb_false in Eb.
              destruct (Qltb (8 # 10) score); [apply Hfin, H|].
              apply (Hsig 0%nat); [|exact H].
              intros w s' [= _ <-] _. exact Eb.
        -- destruct critico; [discriminate|]. cbn in H.
           apply (Hsig 1%nat); [|exact H]. intros; discriminate.
Qed.

(** X9.  When the attempts for a problem end without [sys.exit], there is
    no candidate and the score is 0, or the candidate is the waveform of
    one of the attempts below [min(max_attempts, 5)]: that waveform is not
    empty, the score returned is its score, it is positive, and it is above
    the score of every earlier attempt that gave a waveform. *)
Theorem mejor_intento_procedencia (k : nat) (problem : Problem)
    (c : option Audio) (s : Q) :
  mejor_intento max_attempts regenerar k problem = Some (c, s) ->
  c = None /\ s = 0
  \/ exists a cand,
       (Z.of_nat a < Z.min max_attempts 5)%Z /\ c = Some cand
       /\ regenerar k problem a = Genera cand (Puntua s)
       /\ cand <> [] /\ 0 < s
       /\ forall a' w s', (a' < a)%nat ->
            regenerar k problem a' = Genera w (Puntua s') -> w <> [] -> s' < s.
Proof.
  intro H. unfold mejor_intento in H.
  apply intentos_procedencia in H.
  - destruct H as [H|(a & cand & Ha & Hrest)]; [left; exact H|].
    right. exists a, cand. split; [|exact Hrest].
    unfold max_safe_attempts in Ha. lia.
  - left. split; reflexivity.
  - intros a' w s' Ha'. lia.
Qed.

(** What the loop over the critical problems does to the report. *)
Lemma corregir_reporte (pendientes : list Problem) :
  forall (k : nat) (texts : list pystr) (segs : list Audio) (rep : FixReport)
         (fixed : list Audio) (rep' : FixReport),
  corregir max_attempts regenerar k pendientes texts segs rep = FixRetorna fixed rep' ->
  attempted rep' = (attempted rep + length pendientes)%nat
  /\ (successful rep' + failed rep' = successful rep + failed rep + length pendientes)%nat
  /\ exists nuevos,
       fixes rep' = fixes rep ++ nuevos
       /\ successful rep' = (successful rep + length nuevos)%nat
       /\ Forall (fun f => 1 # 2 < f_improvement_score f
                           /\ exists problem, In problem pendientes
                                /\ f_segment_id f = p_segment_id problem
                                /\ f_problem_type f = p_type problem) nuevos.
Proof.
  induction pendientes as [|problem resto IH]; intros k texts segs rep fixed rep' H.
  - cbn [corregir] in H. injection H as _ <-.
    split; [cbn; lia|]. split; [cbn; lia|].
    exists []. rewrite app_nil_r. split; [reflexivity|]. split; [cbn; lia|constructor].
  - cbn [corregir] in H.
    destruct (getitem texts (p_segment_id problem)); [|discriminate].
    assert (Hfalla : forall segs',
      corregir max_attempts regenerar (S k) resto texts segs'
        {| attempted := S (attempted rep); successful := successful rep;
           failed := S (failed rep); fixes := fixes rep |} = FixRetorna fixed rep' ->
      attempted rep' = (attempted rep + length (problem :: resto))%nat
      /\ (successful rep' + failed rep'
          = successful rep + failed rep + length (problem :: resto))%nat
      /\ exists nuevos,
           fixes rep' = fixes rep ++ nuevos
           /\ successful rep' = (successful rep + length nuevos)%nat
           /\ Forall (fun f => 1 # 2 < f_improvement_score f
                               /\ exists pr, In pr (problem :: resto)
                                    /\ f_segment_id f = p_segment_id pr
                                    /\ f_problem_type f = p_type pr) nuevos).
    { intros segs' H'. apply IH in H'.
      cbn [attempted successful failed fixes] in H'.
      destruct H' as (Ha & Hsf & nuevos & Hf & Hs & Hall).
      cbn [length]. split; [lia|]. split; [lia|].
      exists nuevos. split; [exact Hf|]. split; [exact Hs|].
      eapply Forall_impl; [exact Hall|]. cbn beta.
      intros f (Hsc & pr & Hin & Hrest). split; [exact Hsc|].
      exists pr. split; [right; exact Hin|exact Hrest]. }
    destruct (mejor_intento max_attempts regenerar k problem)
      as [[[cand|] score]|] eqn:Em; [| |discriminate].
    + destruct (Qltb (1 # 2) score) eqn:Es.
      * destruct (setitem segs (p_segment_id problem) cand) as [segs'|]; [|discriminate].
        apply IH in H. cbn [attempted successful failed fixes] in H.
        destruct H as (Ha & Hsf & nuevos & Hf & Hs & Hall).
        cbn [length]. split; [lia|]. split; [lia|].
        eexists (_ :: nuevos). split; [rewrite Hf, <- app_assoc; reflexivity|].
        split; [cbn [length]; lia|].
        constructor.
        -- cbn [f_improvement_score f_segment_id f_problem_type].
           split; [apply Qltb_true, Es|].
           exists problem. split; [left; reflexivity|split; reflexivity].
        -- eapply Forall_impl; [exact Hall|]. cbn beta.
           intros f (Hsc & pr & Hin & Hrest). split; [exact Hsc|].
           exists pr. split; [right; exact Hin|exact Hrest].
      * apply (Hfalla _ H).
    + apply (Hfalla _ H).
Qed.

(** X10.  In the report that [fix_critical_problems] returns, [attempted]
    is the number of critical problems and the sum of [successful] and
    [failed]; it is at most [max_fixes] when that is not negative;
    [successful] is the number of entries of [fixes]; and every entry has
    a score above 0.5 and carries the segment and the type of a problem of
    the list whose severity is above the threshold. *)
Theorem fix_report_cuentas (problems : list Problem) (audio_segments : list Audio)
    (texts : list pystr) (severity_threshold : Q)
    (fixed_segments : list Audio) (fix_report : FixReport) :
  fix_critical_problems max_attempts max_fixes regenerar problems audio_segments texts
    severity_threshold = FixRetorna fixed_segments fix_report ->
  attempted fix_report = length (critical_problems max_fixes problems severity_threshold)
  /\ attempted fix_report = (successful fix_report + failed fix_report)%nat
  /\ successful fix_report = length (fixes fix_report)
  /\ ((0 <= max_fixes)%Z -> (Z.of_nat (attempted fix_report) <= max_fixes)%Z)
  /\ Forall (fun f => 1 # 2 < f_improvement_score f
                      /\ exists problem, In problem problems
                           /\ severity_threshold < severity problem
                           /\ f_segment_id f = p_segment_id problem
                           /\ f_problem_type f = p_type problem) (fixes fix_report).
Proof.
  unfold fix_critical_problems. intro H.
  apply corregir_reporte in H. cbn [attempted successful failed fixes] in H.
  destruct H as (Ha & Hsf & nuevos & Hf & Hs & Hall).
  cbn [app] in Hf. subst nuevos.
  split; [lia|]. split; [lia|]. split; [lia|]. split.
  - intro Hmf. rewrite Ha, Nat.add_0_l.
    unfold critical_problems, slice_to, clamp_index.
    destruct (Z.leb_spec 0 max_fixes) as [_|Hneg]; [|lia].
    rewrite length_firstn. lia.
  - eapply Forall_impl; [exact Hall|]. cbn beta.
    intros f (Hsc & pr & Hin & Hid & Hty). split; [exact Hsc|].
    exists pr.
    unfold critical_problems, slice_to in Hin.
    assert (Hin' : In pr (List.filter (fun p => Qltb severity_threshold (severity p)) problems)).
    { rewrite <- (firstn_skipn (clamp_index (length (List.filter
         (fun p => Qltb severity_threshold (severity p)) problems)) max_fixes)).
      apply in_or_app. left. exact Hin. }
    apply filter_In in Hin'. destruct Hin' as [Hp Hsev].
    split; [exact Hp|]. split; [apply Qltb_true, Hsev|]. split; assumption.
Qed.

End IntentosYReporte.

(** Two engines that differ from the sixth attempt on, with the default
    of 25 attempts: the score 0.3 of the first five attempts is the one
    returned for both. *)
Lemma mejor_intento_cinco_intentos_witness :
  let problema :=
    {| Procesador.p_segment_id := 0; Procesador.p_window_id := None;
       Procesador.p_type := Procesador.inverted_prosodic_arc;
       Procesador.severity := 9 # 10; Procesador.p_current := 2 # 10;
       Procesador.p_expected := - (5 # 100); Procesador.p_palabra := None |} in
  let r1 := fun (_ : nat) (_ : Procesador.Problem) (_ : nat) =>
    Procesador.Genera [1]%Q (Procesador.Puntua (3 # 10)) in
  let r2 := fun (_ : nat) (_ : Procesador.Problem) (a : nat) =>
    if (a <? 5)%nat then Procesador.Genera [1]%Q (Procesador.Puntua (3 # 10))
    else Procesador.Genera [9]%Q (Procesador.Puntua (9 # 10)) in
  Procesador.mejor_intento 25 r1 0 problema = Procesador.mejor_intento 25 r2 0 problema
  /\ Procesador.mejor_intento 25 r2 0 problema = Some (Some [1]%Q, (3 # 10)%Q).
Proof.
  cbv zeta. split.
  - apply mejor_intento_cinco_intentos. intros a Ha.
    destruct (Nat.ltb_spec a 5) as [_|Hge]; [reflexivity|lia].
  - vm_compute. reflexivity.
Defined.

(** An engine whose scores are 0.2, 0.6, 0.6, 0.4 and 0.1: the candidate
    is the waveform of the second attempt. *)
Lemma mejor_intento_procedencia_witness :
  let problema :=
    {| Procesador.p_segment_id := 0; Procesador.p_window_id := None;
       Procesador.p_type := Procesador.inverted_prosodic_arc;
       Procesador.severity := 9 # 10; Procesador.p_current := 2 # 10;
       Procesador.p_expected := - (5 # 100); Procesador.p_palabra := None |} in
  let regenerar := fun (_ : nat) (_ : Procesador.Problem) (a : nat) =>
    Procesador.Genera [inject_Z (Z.of_nat a)]
      (Procesador.Puntua (nth a [2 # 10; 6 # 10; 6 # 10; 4 # 10; 1 # 10] 0)%Q) in
  exists c s,
    Procesador.mejor_intento 25 regenerar 0 problema = Some (c, s)
    /\ c = Some [1%Q]
    /\ (exists a cand, c = Some cand
          /\ regenerar 0%nat problema a = Procesador.Genera cand (Procesador.Puntua s)).
Proof.
  cbv zeta.
  match goal with
  | |- exists c s, ?call = _ /\ _ => destruct call as [[c s]|] eqn:E;
      [|vm_compute in E; discriminate]
  end.
  exists c, s. split; [reflexivity|]. split.
  - vm_compute in E. injection E as <- _. reflexivity.
  - destruct (mejor_intento_procedencia _ _ _ _ _ _ E)
      as [[Hc _]|(a & cand & _ & Hc & Hr & _)].
    + exfalso. vm_compute in E. rewrite Hc in E. discriminate E.
    + exists a, cand. split; [exact Hc|exact Hr].
Defined.

(** Three problems above the threshold and [max_fixes] of 2; the engine
    reaches 0.9 on the first and 0.4 on the second. *)
Lemma fix_report_cuentas_witness :
  let problema := fun (seg : Z) (sev : Q) =>
    {| Procesador.p_segment_id := seg; Procesador.p_window_id := None;
       Procesador.p_type := Procesador.inverted_prosodic_arc;
       Procesador.severity := sev; Procesador.p_current := 2 # 10;
       Procesador.p_expected := - (5 # 100); Procesador.p_palabra := None |} in
  let regenerar := fun (k : nat) (_ : Procesador.Problem) (_ : nat) =>
    Procesador.Genera [5 # 1]%Q
      (Procesador.Puntua (if (k =? 0)%nat then 9 # 10 else 4 # 10)) in
  let segs := [[1 # 1]; [2 # 1]; [3 # 1]]%Q in
  exists fixed rep,
    Procesador.fix_critical_problems 25 2 regenerar
      [problema 0%Z (9 # 10); problema 1%Z (8 # 10); problema 2%Z (7 # 10)] segs
      [lit "Uno."; lit "Dos."; lit "Tres."] (3 # 10) = Procesador.FixRetorna fixed rep
    /\ Procesador.attempted rep = 2%nat
    /\ Procesador.successful rep = 1%nat
    /\ Procesador.attempted rep = (Procesador.successful rep + Procesador.failed rep)%nat
    /\ Procesador.successful rep = length (Procesador.fixes rep).
Proof.
  cbv zeta.
  match goal with
  | |- exists fixed rep, ?call = _ /\ _ =>
      destruct call as [fixed rep| |] eqn:E;
        [| vm_compute in E; discriminate | vm_compute in E; discriminate]
  end.
  exists fixed, rep. split; [reflexivity|].
  pose proof (fix_report_cuentas _ _ _ _ _ _ _ _ _ E) as (_ & Hsum & Hfix & _).
  assert (Hrep : Procesador.attempted rep = 2%nat /\ Procesador.successful rep = 1%nat).
  { vm_compute in E. injection E as _ <-. split; reflexivity. }
  destruct Hrep as [Ha Hs].
  split; [exact Ha|]. split; [exact Hs|]. split; [exact Hsum|exact Hfix].
Defined.

(** ** The paragraphs of the orchestrator *)

Section Parrafos.
Import Orquestacion.

Lemma colapsar_blancos_espacios (b : bool) (s : pystr) :
  Forall (fun c => is_space c = true -> c = c_sp) (colapsar_blancos b s).
Proof.
  revert b. induction s as [|c r IH]; intro b; cbn [colapsar_blancos]; [constructor|].
  destruct (is_space c) eqn:E.
  - destruct b; [apply IH|]. constructor; [reflexivity|apply IH].
  - constructor; [congruence|apply IH].
Qed.

Lemma colapsar_blancos_sin_dobles (s : pystr) :
  forall b : bool,
  contains [c_sp; c_sp] (colapsar_blancos b s) = false
  /\ (b = true -> startswith [c_sp] (colapsar_blancos b s) = false).
Proof.
  induction s as [|c r IH]; intro b; cbn [colapsar_blancos].
  - split; [reflexivity|]. intros _. reflexivity.
  - destruct (is_space c) eqn:E.
    + destruct b.
      * apply IH.
      * destruct (IH true) as [H1 H2]. specialize (H2 eq_refl). split; [|discriminate].
        cbn [contains]. rewrite H1, orb_false_r.
        change (startswith [c_sp; c_sp] (c_sp :: colapsar_blancos true r))
          with ((c_sp =? c_sp)%N && startswith [c_sp] (colapsar_blancos true r)).
        rewrite H2. apply andb_false_r.
    + destruct (IH false) as [H1 _].
      assert (Hc : (c_sp =? c)%N = false).
      { apply N.eqb_neq. intros <-. discriminate E. }
      split.
      * cbn [contains]. rewrite H1, orb_false_r.
        cbn [startswith]. rewrite Hc. reflexivity.
      * intros _. cbn [startswith]. rewrite Hc. reflexivity.
Qed.

Lemma colapsar_blancos_no_vacio (s : pystr) :
  s <> [] -> colapsar_blancos false s <> [].
Proof.
  destruct s as [|c r]; [congruence|]. intros _. cbn [colapsar_blancos].
  destruct (is_space c); discriminate.
Qed.

Lemma contains_app_punto (p : pystr) :
  contains [c_sp; c_sp] p = false -> contains [c_sp; c_sp] (p ++ [c_dot]) = false.
Proof.
  induction p as [|c r IH]; intro H; [reflexivity|].
  cbn [contains app] in H |- *.
  apply orb_false_iff in H. destruct H as [H1 H2].
  rewrite (IH H2), orb_false_r.
  destruct r as [|d r']; cbn [startswith app] in H1 |- *.
  - destruct (c_sp =? c)%N; reflexivity.
  - exact H1.
Qed.

(** X11.  Every paragraph that [_segmentar_parrafos] returns is not empty,
    ends in one of [.], [!] and [?], holds no blank other than the space
    (hence no line break) and no two spaces in a row. *)
Theorem segmentar_parrafos_normalizados (texto : pystr) :
  Forall (fun p =>
            p <> []
            /\ ends_in_terminal p = true
            /\ Forall (fun c => is_space c = true -> c = c_sp) p
            /\ contains [c_sp; c_sp] p = false)
         (_segmentar_parrafos texto).
Proof.
  unfold _segmentar_parrafos.
  apply Forall_flat_map. intro q. unfold limpiar_parrafo.
  destruct (nonempty (strip q) && _) eqn:E; [|constructor].
  apply andb_true_iff in E. destruct E as [E _].
  assert (Hne : colapsar_blancos false (strip q) <> []).
  { apply colapsar_blancos_no_vacio. destruct (strip q); [discriminate|congruence]. }
  pose proof (colapsar_blancos_espacios false (strip q)) as Hsp.
  destruct (colapsar_blancos_sin_dobles (strip q) false) as [Hdob _].
  destruct (ends_in_terminal (colapsar_blancos false (strip q))) eqn:Et;
    (constructor; [|constructor]).
  - repeat split; assumption.
  - split; [intro H; apply app_eq_nil in H; destruct H; discriminate|].
    split; [unfold ends_in_terminal; rewrite last_char_app; reflexivity|].
    split; [|apply contains_app_punto, Hdob].
    apply Forall_app. split; [exact Hsp|]. constructor; [discriminate|constructor].
Qed.

End Parrafos.

(** ** The base tone of a paragraph, the smoothing and the coherence check *)

Section TonosDelOrquestador.
Local Open Scope Q_scope.
Import Orquestacion.

Variable f0_base : Q.
Variable velocidad_natural : Q.

Lemma escala_acotada (f a m b : Q) :
  0 <= f -> a <= m -> m <= b -> f * a <= f * m /\ f * m <= f * b.
Proof.
  intros Hf Ha Hb. split.
  - rewrite (Qmult_comm f a), (Qmult_comm f m). apply Qmult_le_compat_r; assumption.
  - rewrite (Qmult_comm f m), (Qmult_comm f b). apply Qmult_le_compat_r; assumption.
Qed.

Lemma razon_unidad (a b : Z) :
  (0 <= a)%Z -> (a <= b)%Z -> (0 < b)%Z ->
  0 <= inject_Z a / inject_Z b /\ inject_Z a / inject_Z b <= 1.
Proof.
  intros Ha Hab Hb.
  assert (Hb' : 0 < inject_Z b).
  { change 0 with (inject_Z 0). rewrite <- Zlt_Qlt. exact Hb. }
  split.
  - apply Qdiv_nonneg; [|exact Hb'].
    change 0 with (inject_Z 0). rewrite <- Zle_Qle. exact Ha.
  - apply Qdiv_le_1; [exact Hb'|]. rewrite <- Zle_Qle. exact Hab.
Qed.

(** X12.  For a paragraph index below the number of paragraphs and a base
    frequency that is not negative, [_determinar_funcion_parrafo] returns a
    role and the base tone that [_calcular_tono_base_parrafo] gives for it
    lies between 0.92 and 1.15 times [f0_base].  The first paragraph has
    the role ['apertura'] and the tone [f0_base], also when it is the
    dramatic centre. *)
Theorem tono_base_parrafo_acotado (indice total centro : nat) :
  (indice < total)%nat ->
  0 <= f0_base ->
  exists funcion,
    _determinar_funcion_parrafo indice total centro = Some funcion
    /\ f0_base * (92 # 100)
       <= _calcular_tono_base_parrafo f0_base indice total funcion centro
    /\ _calcular_tono_base_parrafo f0_base indice total funcion centro
       <= f0_base * (115 # 100)
    /\ (indice = 0%nat ->
        funcion = apertura
        /\ _calcular_tono_base_parrafo f0_base indice total funcion centro == f0_base).
Proof.
  intros Hi Hf. unfold _determinar_funcion_parrafo.
  destruct (Nat.eqb_spec total 0) as [->|Ht]; [lia|].
  eexists. split; [reflexivity|].
  unfold _calcular_tono_base_parrafo, desarrollo_peak, cierre_drop. cbv zeta.
  destruct (Nat.eqb_spec indice 0) as [H0|H0].
  { split; [|split]; [lra|lra|]. intros _. split; [reflexivity|ring]. }
  destruct (Nat.eqb_spec indice centro) as [Hc|Hc].
  { split; [|split]; [lra|lra|]. intro; lia. }
  destruct (Nat.eqb_spec indice (total - 1)) as [Hu|Hu].
  { split; [|split]; [lra|lra|]. intro; lia. }
  destruct (Nat.ltb_spec indice centro) as [Hlt|Hge].
  - assert (Hr : 0 <= Qnat indice / Qnat (Nat.max centro 1)
                 /\ Qnat indice / Qnat (Nat.max centro 1) <= 1).
    { unfold Qnat. apply razon_unidad; lia. }
    destruct Hr as [Hr0 Hr1].
    set (r := Qnat indice / Qnat (Nat.max centro 1)) in *.
    destruct (escala_acotada f0_base (92 # 100) (1 + (5 # 100) * r) (115 # 100))
      as [H1 H2]; [exact Hf|lra|lra|].
    split; [exact H1|]. split; [exact H2|]. intro; lia.
  - assert (Hr : 0 <= inject_Z (Z.of_nat indice - Z.of_nat centro)
                      / inject_Z (Z.max (Z.of_nat total - Z.of_nat centro) 1)
                 /\ inject_Z (Z.of_nat indice - Z.of_nat centro)
                      / inject_Z (Z.max (Z.of_nat total - Z.of_nat centro) 1) <= 1).
    { apply razon_unidad; lia. }
    destruct Hr as [Hr0 Hr1].
    set (r := inject_Z _ / inject_Z _) in *.
    destruct (escala_acotada f0_base (92 # 100) (1 + (15 # 100) * (1 - r)) (115 # 100))
      as [H1 H2]; [exact Hf|lra|lra|].
    split; [exact H1|]. split; [exact H2|]. intro; lia.
Qed.

Lemma limitar_entrada_spec (p : ProsodyParams) :
  0 <= f0_base -> 0 <= velocidad_natural ->
  let p' := limitar_entrada f0_base velocidad_natural p in
  f0_base * (75 # 100) <= tono_base p' /\ tono_base p' <= f0_base * (135 # 100)
  /\ velocidad_natural * (75 # 100) <= velocidad p'
  /\ velocidad p' <= velocidad_natural * (125 # 100)
  /\ (f0_base * (75 # 100) <= tono_base p -> tono_base p <= f0_base * (135 # 100) ->
      tono_base p' = tono_base p)
  /\ (velocidad_natural * (75 # 100) <= velocidad p ->
      velocidad p <= velocidad_natural * (125 # 100) -> velocidad p' = velocidad p)
  /\ p' = con_velocidad (con_tono_base p (tono_base p')) (velocidad p').
Proof.
  intros Hf Hv. unfold limitar_entrada. cbv zeta.
  destruct (Qltb (tono_base p) (f0_base * (75 # 100))) eqn:E1;
    [|destruct (Qltb (f0_base * (135 # 100)) (tono_base p)) eqn:E2];
    cbn [tono_base velocidad con_tono_base];
    (destruct (Qltb (velocidad p) (velocidad_natural * (75 # 100))) eqn:E3;
      [|destruct (Qltb (velocidad_natural * (125 # 100)) (velocidad p)) eqn:E4]);
    cbn [tono_base velocidad con_tono_base con_velocidad];
    repeat match goal with
           | H : Qltb _ _ = true |- _ => apply Qltb_true in H
           | H : Qltb _ _ = false |- _ => apply Qltb_false in H
           end;
    (split; [lra|]); (split; [lra|]); (split; [lra|]); (split; [lra|]);
    (split; [intros; try reflexivity; lra|]);
    (split; [intros; try reflexivity; lra|]);
    destruct p; reflexivity.
Qed.

(** X13.  With a base frequency and a natural speed that are not
    negative, [_verificar_coherencia_tonal] returns as many entries as it
    is given; every tone lies between 0.75 and 1.35 times [f0_base] and
    every speed between 0.75 and 1.25 times [velocidad_natural]; nothing
    but the tone and the speed of an entry changes; and a second pass
    changes nothing. *)
Theorem coherencia_tonal_acotada (control_matrix : list ProsodyParams) :
  0 <= f0_base -> 0 <= velocidad_natural ->
  let m := _verificar_coherencia_tonal f0_base velocidad_natural control_matrix in
  length m = length control_matrix
  /\ (forall i p p', control_matrix !! i = Some p -> m !! i = Some p' ->
        f0_base * (75 # 100) <= tono_base p' /\ tono_base p' <= f0_base * (135 # 100)
        /\ velocidad_natural * (75 # 100) <= velocidad p'
        /\ velocidad p' <= velocidad_natural * (125 # 100)
        /\ p' = con_velocidad (con_tono_base p (tono_base p')) (velocidad p'))
  /\ _verificar_coherencia_tonal f0_base velocidad_natural m = m.
Proof.
  intros Hf Hv. cbv zeta. unfold _verificar_coherencia_tonal.
  split; [apply length_map|]. split.
  - intros i p p' Hp Hp'. rewrite list_lookup_fmap, Hp in Hp'. cbn in Hp'.
    match type of Hp' with Some ?r = Some _ => assert (Hr : r = p') by congruence end.
    subst p'.
    pose proof (limitar_entrada_spec p Hf Hv) as H. cbv zeta in H.
    destruct H as (H1 & H2 & H3 & H4 & _ & _ & H7).
    repeat split; assumption.
  - rewrite map_map. apply map_ext. intro p.
    pose proof (limitar_entrada_spec p Hf Hv) as H. cbv zeta in H.
    destruct H as (H1 & H2 & H3 & H4 & _ & _ & _).
    pose proof (limitar_entrada_spec (limitar_entrada f0_base velocidad_natural p) Hf Hv)
      as H'. cbv zeta in H'.
    destruct H' as (_ & _ & _ & _ & Ht & Hs & Heq).
    rewrite Heq, (Ht H1 H2), (Hs H3 H4).
    destruct (limitar_entrada f0_base velocidad_natural p). reflexivity.
Qed.

Lemma suavizar_spec (resto : list ProsodyParams) :
  forall (anterior : Q),
  length (suavizar f0_base anterior resto) = length resto
  /\ forall i ta b c,
       (anterior :: List.map tono_base (suavizar f0_base anterior resto)) !! i = Some ta ->
       suavizar f0_base anterior resto !! i = Some b ->
       resto !! i = Some c ->
       b = con_tono_base c (tono_base b)
       /\ (ta <= tono_base b /\ tono_base b <= tono_base c
           \/ tono_base c <= tono_base b /\ tono_base b <= ta)
       /\ (Qabs (tono_base c - ta) <= f0_base * (1 # 10) -> tono_base b = tono_base c).
Proof.
  induction resto as [|actual r IH]; intro anterior; cbn [suavizar]; cbv zeta.
  - split; [reflexivity|]. intros i ta b c _ Hb. destruct i; discriminate Hb.
  - set (nuevo := if Qltb _ _ then _ else _).
    destruct (IH nuevo) as [Hlen Hrest].
    split; [cbn [length]; rewrite Hlen; reflexivity|].
    intros [|i] ta b c Hta Hb Hc.
    + cbn in Hta, Hb, Hc.
      assert (Hta' : anterior = ta) by congruence.
      assert (Hc' : actual = c) by congruence.
      match type of Hb with Some ?x = Some _ => assert (Hb' : x = b) by congruence end.
      subst ta c b. cbn [tono_base con_tono_base].
      split; [reflexivity|].
      subst nuevo.
      destruct (Qltb (f0_base * (1 # 10)) (Qabs (tono_base actual - anterior))) eqn:E.
      * apply Qltb_true in E. split.
        -- unfold transicion_suave.
           destruct (Qlt_le_dec (tono_base actual) anterior); [right|left]; split; lra.
        -- intro H. lra.
      * split; [|reflexivity].
        destruct (Qlt_le_dec (tono_base actual) anterior); [right|left]; split; lra.
    + cbn in Hta, Hb, Hc. apply (Hrest i ta b c); assumption.
Qed.

(** X14.  [_aplicar_suavizado_transiciones] returns as many entries as it
    is given and leaves the first as it is.  Every later entry keeps all
    its fields but the tone; its new tone lies between the new tone of the
    entry before it and its own old tone, and it is the old tone when the
    two differ by at most a tenth of [f0_base]. *)
Theorem suavizado_acerca (control_matrix : list ProsodyParams) :
  let m := _aplicar_suavizado_transiciones f0_base control_matrix in
  length m = length control_matrix
  /\ m !! 0%nat = control_matrix !! 0%nat
  /\ forall i a b c,
       m !! i = Some a -> m !! S i = Some b -> control_matrix !! S i = Some c ->
       b = con_tono_base c (tono_base b)
       /\ (tono_base a <= tono_base b /\ tono_base b <= tono_base c
           \/ tono_base c <= tono_base b /\ tono_base b <= tono_base a)
       /\ (Qabs (tono_base c - tono_base a) <= f0_base * (1 # 10) ->
           tono_base b = tono_base c).
Proof.
  cbv zeta. unfold _aplicar_suavizado_transiciones.
  destruct control_matrix as [|primero resto].
  - split; [reflexivity|]. split; [reflexivity|]. intros i a b c Ha. discriminate Ha.
  - destruct (suavizar_spec resto (tono_base primero)) as [Hlen Hrest].
    split; [cbn [length]; rewrite Hlen; reflexivity|]. split; [reflexivity|].
    intros i a b c Ha Hb Hc. cbn in Hb, Hc.
    apply (Hrest i (tono_base a) b c); [|exact Hb|exact Hc].
    change (tono_base primero :: List.map tono_base (suavizar f0_base (tono_base primero) resto))
      with (List.map tono_base (primero :: suavizar f0_base (tono_base primero) resto)).
    rewrite list_lookup_fmap, Ha. reflexivity.
Qed.

End TonosDelOrquestador.

(** The paragraph of index 1 of three, with the centre on the last one,
    at 185 Hz. *)
Lemma tono_base_parrafo_acotado_witness :
  exists funcion,
    Orquestacion._determinar_funcion_parrafo 1 3 2 = Some funcion
    /\ funcion = Orquestacion.desarrollo_ascendente
    /\ (185 * (92 # 100)
        <= Orquestacion._calcular_tono_base_parrafo 185 1 3 funcion 2)%Q
    /\ (Orquestacion._calcular_tono_base_parrafo 185 1 3 funcion 2
        <= 185 * (115 # 100))%Q.
Proof.
  destruct (tono_base_parrafo_acotado 185 1 3 2) as (funcion & Hf & H1 & H2 & _);
    [lia|discriminate|].
  exists funcion. split; [exact Hf|]. split; [|split; assumption].
  vm_compute in Hf. injection Hf as <-. reflexivity.
Defined.

(** An entry at 300 Hz and 90 words per minute, for 185 Hz and 145 words
    per minute: the check brings it to 249.75 Hz and 108.75. *)
Lemma coherencia_tonal_acotada_witness :
  let p :=
    {| Orquestacion.parrafo_id := 0; Orquestacion.frase_id := 0;
       Orquestacion.texto := lit "Hola."; Orquestacion.tono_base := 300;
       Orquestacion.velocidad := 90; Orquestacion.curva := Orquestacion.s_ataque;
       Orquestacion.tono_inicial := None; Orquestacion.tono_final := None;
       Orquestacion.intensidad := 1; Orquestacion.pausa_final := 8 # 10;
       Orquestacion.enfasis_palabras := [];
       Orquestacion.modificadores_especiales := [] |} in
  exists p',
    Orquestacion._verificar_coherencia_tonal 185 145 [p] = [p']
    /\ (Orquestacion.tono_base p' == 24975 # 100)%Q
    /\ (Orquestacion.velocidad p' == 10875 # 100)%Q
    /\ (Orquestacion.tono_base p' <= 185 * (135 # 100))%Q
    /\ (145 * (75 # 100) <= Orquestacion.velocidad p')%Q.
Proof.
  cbv zeta.
  match goal with
  | |- exists p', Orquestacion._verificar_coherencia_tonal _ _ [?p] = _ /\ _ =>
      pose proof (coherencia_tonal_acotada 185 145 [p]
                    ltac:(discriminate) ltac:(discriminate)) as (_ & H & _);
      specialize (H 0%nat p _ eq_refl eq_refl); destruct H as (_ & H2 & H3 & _)
  end.
  eexists. split; [reflexivity|].
  split; [vm_compute; reflexivity|]. split; [vm_compute; reflexivity|].
  split; [exact H2|exact H3].
Defined.

(** ** The control matrix *)

Section Orquestar.
Local Open Scope Q_scope.
Import Orquestacion.

Variable lower : pystr -> pystr.
Variable is_word : pychar -> bool.
Variable math_pi : Q.
Variable math_sin : Q -> Q.
Variable potencia : Q -> Q -> Q.
Variable f0_base : Q.
Variable velocidad_natural : Q.

Local Abbreviation procesar :=
  (_procesar_frase_individual lower math_pi math_sin potencia velocidad_natural).
Local Abbreviation del_parrafo :=
  (frases_del_parrafo lower math_pi math_sin potencia velocidad_natural).
Local Abbreviation los_parrafos :=
  (orquestar_parrafos lower is_word math_pi math_sin potencia f0_base velocidad_natural).
Local Abbreviation orquestar :=
  (orquestar_lectura_completa lower is_word math_pi math_sin potencia f0_base
     velocidad_natural).

(** What an entry satisfies when it leaves [_procesar_frase_individual]. *)
Local Abbreviation cruda := (fun p : ProsodyParams =>
  (0 <= velocidad_natural ->
   velocidad_natural * (792 # 1000) <= velocidad p
   /\ velocidad p <= velocidad_natural * (11 # 10))
  /\ 2 # 10 <= pausa_final p /\ pausa_final p <= 3
  /\ (intensidad p = 1 \/ intensidad p = 13 # 10)
  /\ (curva p = s_ataque \/ curva p = s_meseta_modulada \/ curva p = s_cadencia
      \/ curva p = contorno_pregunta \/ curva p = contorno_exclamacion)
  /\ Forall (fun kv : pystr * Q =>
               fst kv = lit "tono_final" \/ fst kv = lit "tono_inicial"
               \/ fst kv = lit "intensidad") (modificadores_especiales p)).

Lemma py_max2_en (a b : Q) : py_max2 a b = a \/ py_max2 a b = b.
Proof. unfold py_max2. destruct (Qltb a b); auto. Qed.

Lemma fold_max_en (r : list Q) : forall x, In (fold_left py_max2 r x) (x :: r).
Proof.
  induction r as [|y r IH]; intro x; cbn [fold_left]; [left; reflexivity|].
  destruct (IH (py_max2 x y)) as [H|H].
  - rewrite <- H.
    destruct (py_max2_en x y) as [E|E]; rewrite E; [left|right; left]; reflexivity.
  - right. right. exact H.
Qed.

Lemma py_index_total (v : Q) (l : list Q) :
  In v l -> exists c, py_index v l = Some c /\ (c < length l)%nat.
Proof.
  induction l as [|x r IH]; intro H; [destruct H|].
  cbn [py_index]. destruct (Qeq_bool x v) eqn:E.
  - exists 0%nat. split; [reflexivity|cbn [length]; lia].
  - destruct H as [->|H].
    + rewrite (proj2 (Qeq_bool_iff v v) (Qeq_refl v)) in E. discriminate E.
    + destruct (IH H) as (c & Hc & Hlt). rewrite Hc.
      exists (S c). split; [reflexivity|cbn [length]; lia].
Qed.

Lemma centro_dramatico_total (parrafos : list pystr) :
  parrafos <> [] ->
  exists c, _calcular_centro_dramatico lower parrafos = Some c
            /\ (c < length parrafos)%nat.
Proof.
  intro Hne. unfold _calcular_centro_dramatico.
  assert (Hlen : length (pesos_parrafos lower parrafos) = length parrafos).
  { unfold pesos_parrafos. apply length_imap. }
  destruct (pesos_parrafos lower parrafos) as [|x r] eqn:E.
  - destruct parrafos; [congruence|discriminate Hlen].
  - cbn [py_max]. rewrite <- Hlen. apply py_index_total, fold_max_en.
Qed.

Lemma getitem_dentro {A} (l : list A) (i : nat) :
  (i < length l)%nat -> exists x, getitem l (Z.of_nat i) = Some x.
Proof.
  intro H. unfold getitem, norm_index.
  destruct (Z.leb_spec 0 (Z.of_nat i)) as [_|Hn]; [|lia].
  destruct (Z.ltb_spec (Z.of_nat i) (Z.of_nat (length l))) as [_|Hn]; [|lia].
  rewrite Nat2Z.id. destruct (lookup_lt_is_Some_2 l i H) as [x Hx].
  exists x. exact Hx.
Qed.

Lemma pausa_en_parrafo (frase : pystr) (j : nat) (frases : list pystr) (ult : bool) :
  (j < length frases)%nat ->
  exists pausa,
    _calcular_pausa_transicion lower frase (Z.of_nat j) (Z.of_nat (length frases))
      frases ult = Some pausa
    /\ 2 # 10 <= pausa /\ pausa <= 3.
Proof.
  intro Hj. unfold _calcular_pausa_transicion.
  destruct (Z.eqb_spec (Z.of_nat j) (Z.of_nat (length frases) - 1)) as [E|E].
  - destruct ult; eexists; (split; [reflexivity|apply limitar_acotado]).
  - destruct (Z.ltb_spec (Z.of_nat j) (Z.of_nat (length frases) - 1)) as [L|L]; [|lia].
    replace (Z.of_nat j + 1)%Z with (Z.of_nat (S j)) by lia.
    destruct (getitem_dentro frases (S j)) as [sig Hs]; [lia|]. rewrite Hs.
    destruct (_detectar_tipo_transicion lower frase sig);
      eexists; (split; [reflexivity|apply limitar_acotado]).
Qed.

Lemma curva_y_tono_ok (j total : nat) (tb : Q) :
  (1 <= total)%nat ->
  exists c t vf,
    curva_y_tono math_pi math_sin potencia j total tb = Ok (c, t, vf)
    /\ (c = s_ataque /\ vf = 95 # 100
        \/ c = s_meseta_modulada /\ vf = 1
        \/ c = s_cadencia /\ vf = 88 # 100).
Proof.
  intro Ht. unfold curva_y_tono. cbv zeta.
  destruct (Qltb _ (25 # 100)).
  - eexists _, _, _. split; [reflexivity|]. left. split; reflexivity.
  - destruct (Qltb _ (75 # 100)).
    + destruct (Nat.eqb_spec total 0) as [E|_]; [lia|].
      eexists _, _, _. split; [reflexivity|]. right. left. split; reflexivity.
    + eexists _, _, _. split; [reflexivity|]. right. right. split; reflexivity.
Qed.

Lemma procesar_ok (frase : pystr) (i j : nat) (tb : Q) (fn : Funcion)
    (frases : list pystr) (ult : bool) :
  (j < length frases)%nat ->
  exists p,
    procesar frase i j (length frases) tb fn frases ult = Ok p
    /\ parrafo_id p = i /\ frase_id p = j /\ texto p = frase
    /\ cruda p.
Proof.
  intro Hj. unfold _procesar_frase_individual.
  destruct (curva_y_tono_ok j (length frases) tb) as (c & t & vf & Hc & Hcasos); [lia|].
  rewrite Hc.
  destruct (pausa_en_parrafo frase j frases ult Hj) as (pausa & Hp & Hp1 & Hp2).
  cbv zeta. rewrite Hp.
  eexists. split; [reflexivity|].
  cbn [parrafo_id frase_id texto velocidad pausa_final intensidad curva
       modificadores_especiales].
  split; [reflexivity|]. split; [reflexivity|]. split; [reflexivity|].
  destruct (_analizar_tipo_frase lower frase);
    cbn [tipos_frase tono_final_boost tono_inicial_boost velocidad_factor
         intensidad_factor contorno option_map opt_entry app];
    (split; [intro Hv; destruct Hcasos as [[_ ->]|[[_ ->]|[_ ->]]]; split; lra|]);
    (split; [exact Hp1|]); (split; [exact Hp2|]);
    (split; [auto|]);
    (split; [destruct Hcasos as [[-> _]|[[-> _]|[-> _]]]; auto 6|]);
    repeat first [apply List.Forall_nil | apply List.Forall_cons; [cbn [fst]; auto|]].
Qed.

Lemma del_parrafo_ok (i : nat) (fn : Funcion) (tb : Q) (frases : list pystr) (ult : bool)
    (pendientes : list pystr) :
  forall j,
  (j + length pendientes = length frases)%nat ->
  exists ps,
    del_parrafo i fn tb frases ult j pendientes = Ok ps
    /\ List.map texto ps = pendientes
    /\ List.map (fun p => (parrafo_id p, frase_id p)) ps
       = List.map (fun k => (i, k)) (seq j (length pendientes))
    /\ Forall cruda ps.
Proof.
  induction pendientes as [|frase resto IH]; intros j Hj; cbn [frases_del_parrafo].
  - exists []. repeat split; constructor.
  - cbn [length] in Hj.
    destruct (procesar_ok frase i j tb fn frases ult) as (p & Hp & Hi & Hfj & Ht & Hc);
      [lia|].
    rewrite Hp.
    destruct (IH (S j)) as (ps & Hps & Hts & Hids & Hall); [lia|].
    rewrite Hps. exists (p :: ps). split; [reflexivity|].
    cbn [List.map length seq]. rewrite Ht, Hts, Hi, Hfj, Hids.
    repeat split. constructor; [exact Hc|exact Hall].
Qed.

Lemma segmentar_frases_total (parrafo : pystr) :
  exists frases, _segmentar_frases is_word parrafo = Some frases
                 /\ Forall frase_terminada frases.
Proof.
  unfold _segmentar_frases.
  destruct (segmentar_raw_terminadas (frases_raw_de is_word parrafo)) as (frases & E & HF).
  rewrite E. eexists. split; [reflexivity|].
  apply List.Forall_forall. intros f Hf.
  apply filter_In in Hf. destruct Hf as [Hf _].
  rewrite List.Forall_forall in HF. exact (HF f Hf).
Qed.

Lemma los_parrafos_ok (N centro : nat) (parrafos : list pystr) :
  (1 <= N)%nat ->
  forall i,
  exists m fss,
    los_parrafos N centro i parrafos = Ok m
    /\ Forall2 (fun p fs => _segmentar_frases is_word p = Some fs) parrafos fss
    /\ List.map texto m = List.concat fss
    /\ List.map (fun p => (parrafo_id p, frase_id p)) m
       = List.concat (imap (fun k fs => List.map (fun j => ((i + k)%nat, j))
                                                 (seq 0 (length fs))) fss)
    /\ Forall cruda m.
Proof.
  intro HN. induction parrafos as [|parrafo resto IH]; intro i; cbn [orquestar_parrafos].
  - exists [], []. repeat split; constructor.
  - unfold _determinar_funcion_parrafo.
    destruct (Nat.eqb_spec N 0) as [E|_]; [lia|]. cbv zeta.
    destruct (segmentar_frases_total parrafo) as (frases & Hs & _). rewrite Hs.
    match goal with
    | |- context [frases_del_parrafo _ _ _ _ _ i ?fn ?tb frases ?ult 0 frases] =>
        destruct (del_parrafo_ok i fn tb frases ult frases 0%nat)
          as (ps & Hps & Hts & Hids & Hall); [lia|]; rewrite Hps
    end.
    destruct (IH (S i)) as (m & fss & Hm & Hf2 & Htm & Hidm & Hallm). rewrite Hm.
    exists (ps ++ m), (frases :: fss). split; [reflexivity|].
    split; [constructor; assumption|].
    split; [rewrite map_app, Hts, Htm; reflexivity|].
    split; [|apply Forall_app; split; assumption].
    rewrite map_app, Hids, Hidm. cbn [imap List.concat].
    rewrite Nat.add_0_r. f_equal. f_equal.
    apply imap_ext. intros k fs _. cbn [compose].
    replace (S i + k)%nat with (i + S k)%nat by lia. reflexivity.
Qed.

Lemma suavizar_campos (resto : list ProsodyParams) :
  forall anterior,
  Forall2 (fun c b => b = con_tono_base c (tono_base b))
          resto (suavizar f0_base anterior resto).
Proof.
  induction resto as [|actual r IH]; intro anterior; cbn [suavizar]; constructor.
  - reflexivity.
  - apply IH.
Qed.

(** The two passes of the post-processing leave every field of an entry
    but the tone and the speed, and the speed too when it lies in the
    range of the coherence check. *)
Lemma postproceso_campos (m : list ProsodyParams) :
  0 <= f0_base -> 0 <= velocidad_natural ->
  Forall2 (fun p p' =>
             p' = con_velocidad (con_tono_base p (tono_base p')) (velocidad p')
             /\ f0_base * (75 # 100) <= tono_base p'
             /\ tono_base p' <= f0_base * (135 # 100)
             /\ (velocidad_natural * (75 # 100) <= velocidad p ->
                 velocidad p <= velocidad_natural * (125 # 100) ->
                 velocidad p' = velocidad p))
          m (_verificar_coherencia_tonal f0_base velocidad_natural
               (_aplicar_suavizado_transiciones f0_base m)).
Proof.
  intros Hf Hv.
  assert (Hs : Forall2 (fun c b => b = con_tono_base c (tono_base b))
                       m (_aplicar_suavizado_transiciones f0_base m)).
  { unfold _aplicar_suavizado_transiciones. destruct m as [|p r]; constructor.
    - destruct p; reflexivity.
    - apply suavizar_campos. }
  unfold _verificar_coherencia_tonal.
  induction Hs as [|c b r r' Hcb Hr IH]; cbn [List.map]; constructor; [|exact IH].
  pose proof (limitar_entrada_spec f0_base velocidad_natural b Hf Hv) as H.
  cbv zeta in H. destruct H as (H1 & H2 & _ & _ & _ & H6 & H7).
  split; [|split; [exact H1|split; [exact H2|]]].
  - rewrite H7. rewrite Hcb at 1. destruct c; reflexivity.
  - intros Ha Hb.
    assert (Evb : velocidad b = velocidad c) by (rewrite Hcb; reflexivity).
    rewrite <- Evb in Ha, Hb. rewrite (H6 Ha Hb). exact Evb.
Qed.

(** X15.  [orquestar_lectura_completa] raises [ValueError] on a text in
    which [_segmentar_parrafos] finds no paragraph.  On every other text it
    returns a control matrix that holds, paragraph after paragraph and in
    order, one entry for each sentence of [_segmentar_frases], with the
    index of the paragraph, the index of the sentence within it and the
    sentence itself as its text. *)
Theorem orquestar_estructura (t : pystr) :
  (_segmentar_parrafos t = [] -> orquestar t = Lanza ValueError)
  /\ (_segmentar_parrafos t <> [] ->
      exists m fss,
        orquestar t = Ok m
        /\ Forall2 (fun p fs => _segmentar_frases is_word p = Some fs)
                   (_segmentar_parrafos t) fss
        /\ List.map texto m = List.concat fss
        /\ List.map (fun p => (parrafo_id p, frase_id p)) m
           = List.concat (imap (fun k fs => List.map (fun j => (k, j))
                                                     (seq 0 (length fs))) fss)).
Proof.
  unfold orquestar_lectura_completa. cbv zeta. split.
  - intros ->. reflexivity.
  - intro Hne.
    destruct (centro_dramatico_total _ Hne) as (c & Hc & _). rewrite Hc.
    destruct (los_parrafos_ok (length (_segmentar_parrafos t)) c (_segmentar_parrafos t))
      with (i := 0%nat) as (m & fss & Hm & Hf2 & Htm & Hidm & _).
    { destruct (_segmentar_parrafos t); [congruence|cbn [length]; lia]. }
    rewrite Hm. eexists _, fss. split; [reflexivity|]. split; [exact Hf2|].
    unfold _verificar_coherencia_tonal.
    assert (Hs : Forall2 (fun c b => b = con_tono_base c (tono_base b))
                         m (_aplicar_suavizado_transiciones f0_base m)).
    { unfold _aplicar_suavizado_transiciones. destruct m as [|p r]; constructor.
      - destruct p; reflexivity.
      - apply suavizar_campos. }
    assert (Hcampos : forall (A : Type) (f : ProsodyParams -> A),
              (forall p x, f (con_tono_base p x) = f p) ->
              (forall p x, f (con_velocidad p x) = f p) ->
              List.map f (List.map (limitar_entrada f0_base velocidad_natural)
                            (_aplicar_suavizado_transiciones f0_base m))
              = List.map f m).
    { intros A f Hft Hfv. clear -Hs Hft Hfv.
      induction Hs as [|c b r r' Hcb Hr IH]; cbn [List.map]; [reflexivity|].
      rewrite IH. f_equal.
      unfold limitar_entrada. cbv zeta.
      repeat match goal with
             | |- context [if ?x then _ else _] => destruct x
             end;
        rewrite ?Hfv, ?Hft; rewrite Hcb; apply Hft. }
    split.
    + rewrite Hcampos; [exact Htm|reflexivity|reflexivity].
    + rewrite Hcampos; [exact Hidm|reflexivity|reflexivity].
Qed.

(** What the post-processing leaves of the entries. *)
Lemma matriz_final (t : pystr) (m : list ProsodyParams) :
  0 <= f0_base -> 0 <= velocidad_natural ->
  orquestar t = Ok m ->
  Forall (fun p =>
            f0_base * (75 # 100) <= tono_base p
            /\ tono_base p <= f0_base * (135 # 100)
            /\ velocidad_natural * (792 # 1000) <= velocidad p
            /\ velocidad p <= velocidad_natural * (11 # 10)
            /\ 2 # 10 <= pausa_final p /\ pausa_final p <= 3
            /\ (intensidad p = 1 \/ intensidad p = 13 # 10)
            /\ (curva p = s_ataque \/ curva p = s_meseta_modulada
                \/ curva p = s_cadencia \/ curva p = contorno_pregunta
                \/ curva p = contorno_exclamacion)
            /\ Forall (fun kv : pystr * Q =>
                         fst kv = lit "tono_final" \/ fst kv = lit "tono_inicial"
                         \/ fst kv = lit "intensidad") (modificadores_especiales p)) m.
Proof.
  intros Hf Hv H. unfold orquestar_lectura_completa in H. cbv zeta in H.
  destruct (_calcular_centro_dramatico lower (_segmentar_parrafos t)) as [c|] eqn:Hc;
    [|discriminate].
  assert (HN : (1 <= length (_segmentar_parrafos t))%nat).
  { destruct (_segmentar_parrafos t); [discriminate Hc|cbn [length]; lia]. }
  destruct (los_parrafos_ok (length (_segmentar_parrafos t)) c (_segmentar_parrafos t) HN 0)
    as (m0 & fss & Hm & _ & _ & _ & Hall).
  rewrite Hm in H.
  match type of H with Ok ?r = Ok _ => assert (Hr : r = m) by congruence end.
  subst m. clear H Hm.
  pose proof (postproceso_campos m0 Hf Hv) as H2.
  induction H2 as [|p p' r r' (Heq & Ht1 & Ht2 & Hvel) Hr IH]; [constructor|].
  apply Forall_cons_1 in Hall. destruct Hall as [(Hv0 & Hp1 & Hp2 & Hi & Hcu & Hmo) Hall].
  constructor; [|apply IH, Hall].
  destruct (Hv0 Hv) as [Hv1 Hv2].
  assert (Hvp : velocidad p' = velocidad p) by (apply Hvel; lra).
  assert (Hcampos : pausa_final p' = pausa_final p /\ intensidad p' = intensidad p
                    /\ curva p' = curva p
                    /\ modificadores_especiales p' = modificadores_especiales p).
  { rewrite Heq. repeat split. }
  destruct Hcampos as (Epa & Ein & Ecu & Emo).
  rewrite Hvp, Epa, Ein, Ecu, Emo.
  repeat split; assumption.
Qed.

(** X16.  With a base frequency and a natural speed that are not
    negative, every entry of the control matrix that
    [orquestar_lectura_completa] returns has its tone between 0.75 and
    1.35 times [f0_base], its speed between 0.792 and 1.1 times
    [velocidad_natural] (so the speed limits of the coherence check, 0.75
    and 1.25, never apply), its final pause between 0.2 and 3 seconds and
    the intensity 1 or 1.3; its curve is one of ['ataque'],
    ['meseta_modulada'], ['cadencia'] and the two contour strings, never
    ['ascendente_final']. *)
Theorem matriz_acotada (t : pystr) (m : list ProsodyParams) :
  0 <= f0_base -> 0 <= velocidad_natural ->
  orquestar t = Ok m ->
  Forall (fun p =>
            f0_base * (75 # 100) <= tono_base p
            /\ tono_base p <= f0_base * (135 # 100)
            /\ velocidad_natural * (792 # 1000) <= velocidad p
            /\ velocidad p <= velocidad_natural * (11 # 10)
            /\ 2 # 10 <= pausa_final p /\ pausa_final p <= 3
            /\ (intensidad p = 1 \/ intensidad p = 13 # 10)
            /\ (curva p = s_ataque \/ curva p = s_meseta_modulada
                \/ curva p = s_cadencia \/ curva p = contorno_pregunta
                \/ curva p = contorno_exclamacion)
            /\ curva p <> s_ascendente_final) m.
Proof.
  intros Hf Hv H.
  eapply Forall_impl; [apply (matriz_final t m Hf Hv H)|]. cbn beta.
  intros p (H1 & H2 & H3 & H4 & H5 & H6 & H7 & H8 & _).
  repeat split; try assumption.
  destruct H8 as [-> | [-> | [-> | [-> | ->]]]]; discriminate.
Qed.

Lemma pystr_eqb_eq (a b : pystr) : pystr_eqb a b = true <-> a = b.
Proof.
  revert b. induction a as [|x a IH]; intros [|y b]; cbn [pystr_eqb];
    try (split; [discriminate|congruence]); [split; reflexivity|].
  rewrite andb_true_iff, N.eqb_eq, IH. split.
  - intros [-> ->]. reflexivity.
  - intros [= -> ->]. split; reflexivity.
Qed.

Lemma dict_get_set_otro {V} (k k' : pystr) (v : V) (d : list (pystr * V)) :
  pystr_eqb k k' = false -> dict_get k (dict_set k' v d) = dict_get k d.
Proof.
  intro Hk. induction d as [|[kd vd] r IH]; cbn [dict_set dict_get].
  - rewrite Hk. reflexivity.
  - destruct (pystr_eqb k' kd) eqn:E.
    + apply pystr_eqb_eq in E. subst kd. cbn [dict_get]. rewrite Hk. reflexivity.
    + cbn [dict_get]. rewrite IH. reflexivity.
Qed.

Lemma dict_get_update_otro {V} (k : pystr) (e : list (pystr * V)) :
  Forall (fun kv => pystr_eqb k (fst kv) = false) e ->
  forall d, dict_get k (dict_update d e) = dict_get k d.
Proof.
  unfold dict_update. induction 1 as [|[k' v'] e Hk He IH]; intro d; cbn [fold_left].
  - reflexivity.
  - rewrite IH. cbn [fst snd]. apply dict_get_set_otro. exact Hk.
Qed.

Lemma clave_ajena (k : pystr) (mods : list (pystr * Q)) :
  pystr_eqb k (lit "tono_final") = false ->
  pystr_eqb k (lit "tono_inicial") = false ->
  pystr_eqb k (lit "intensidad") = false ->
  Forall (fun kv : pystr * Q =>
            fst kv = lit "tono_final" \/ fst kv = lit "tono_inicial"
            \/ fst kv = lit "intensidad") mods ->
  Forall (fun kv : pystr * Valor => pystr_eqb k (fst kv) = false)
         (List.map (fun kv : pystr * Q => (fst kv, VNumero (snd kv))) mods).
Proof.
  intros H1 H2 H3. induction 1 as [|kv mods Hkv Hm IH]; cbn [List.map]; constructor.
  - cbn [fst]. destruct Hkv as [-> | [-> | ->]]; assumption.
  - exact IH.
Qed.

(** X17.  With a positive base frequency and a positive natural speed,
    [generar_parametros_f5tts] turns the control matrix of
    [orquestar_lectura_completa] into one dictionary per entry, in order,
    none of whose seven keys is overwritten by the special modifiers:
    ['text'] is the sentence, ['speed'] lies in [0.792, 1.1],
    ['pitch_adjustment'] in [0.75, 1.35], ['nfe_step'] in [32, 64],
    ['pause_after'] in [0.2, 3], ['sway_sampling_coef'] is -0.6, -0.5 or
    -0.4 and ['cfg_strength'] is 2.0 or 2.3. *)
Theorem parametros_f5_acotados (t : pystr) (m : list ProsodyParams) :
  0 < f0_base -> 0 < velocidad_natural ->
  orquestar t = Ok m ->
  exists ds,
    generar_parametros_f5tts f0_base velocidad_natural m = Ok ds
    /\ Forall2 (fun p d =>
         dict_get (lit "text") d = Some (VTexto (texto p))
         /\ (exists s, dict_get (lit "speed") d = Some (VNumero s)
                       /\ 792 # 1000 <= s /\ s <= 11 # 10)
         /\ (exists a, dict_get (lit "pitch_adjustment") d = Some (VNumero a)
                       /\ 75 # 100 <= a /\ a <= 135 # 100)
         /\ (exists n, dict_get (lit "nfe_step") d = Some (VEntero n)
                       /\ (32 <= n)%Z /\ (n <= 64)%Z)
         /\ (exists q, dict_get (lit "pause_after") d = Some (VNumero q)
                       /\ 2 # 10 <= q /\ q <= 3)
         /\ (exists s, dict_get (lit "sway_sampling_coef") d = Some (VNumero s)
                       /\ (s == - (6 # 10) \/ s == - (5 # 10) \/ s == - (4 # 10)))
         /\ (exists c, dict_get (lit "cfg_strength") d = Some (VNumero c)
                       /\ (c == 2 \/ c == 23 # 10))) m ds.
Proof.
  intros Hf Hv H.
  pose proof (matriz_final t m (Qlt_le_weak _ _ Hf) (Qlt_le_weak _ _ Hv) H) as Hall.
  clear H. induction Hall as [|p r Hp Hr IH]; cbn [generar_parametros_f5tts].
  - exists []. split; [reflexivity|constructor].
  - destruct IH as (ds & Hds & Hf2). rewrite Hds.
    unfold parametros_de.
    destruct (Qeq_bool velocidad_natural 0) eqn:Ev.
    { apply Qeq_bool_iff in Ev. lra. }
    destruct (Qeq_bool f0_base 0) eqn:Ef.
    { apply Qeq_bool_iff in Ef. lra. }
    cbv zeta. eexists. split; [reflexivity|]. constructor; [|exact Hf2].
    destruct Hp as (Ht1 & Ht2 & Hv1 & Hv2 & Hp1 & Hp2 & Hi & Hc & Hmods).
    assert (Hget : forall k,
              pystr_eqb k (lit "tono_final") = false ->
              pystr_eqb k (lit "tono_inicial") = false ->
              pystr_eqb k (lit "intensidad") = false ->
              forall d,
              dict_get k (dict_update d
                (List.map (fun kv : pystr * Q => (fst kv, VNumero (snd kv)))
                          (modificadores_especiales p)))
              = dict_get k d).
    { intros k H1 H2 H3 d. apply dict_get_update_otro, clave_ajena; assumption. }
    split; [rewrite Hget by reflexivity; reflexivity|].
    split.
    { eexists. split; [rewrite Hget by reflexivity; reflexivity|]. split.
      - apply Qle_shift_div_l; [exact Hv|]. rewrite Qmult_comm. exact Hv1.
      - apply Qle_shift_div_r; [exact Hv|]. rewrite Qmult_comm. exact Hv2. }
    split.
    { eexists. split; [rewrite Hget by reflexivity; reflexivity|]. split.
      - apply Qle_shift_div_l; [exact Hf|]. rewrite Qmult_comm. exact Ht1.
      - apply Qle_shift_div_r; [exact Hf|]. rewrite Qmult_comm. exact Ht2. }
    split.
    { eexists. split; [rewrite Hget by reflexivity; reflexivity|].
      unfold _calcular_nfe_steps. cbv zeta.
      destruct (enfasis_palabras p); destruct (_ || _); cbn [length]; lia. }
    split.
    { eexists. split; [rewrite Hget by reflexivity; reflexivity|].
      split; assumption. }
    split.
    { eexists. split; [rewrite Hget by reflexivity; reflexivity|].
      unfold _calcular_sway_coef. cbv zeta.
      destruct (pystr_eqb (curva p) s_ataque); [left; reflexivity|].
      destruct (pystr_eqb (curva p) s_cadencia); [right; right; reflexivity|].
      right; left; reflexivity. }
    eexists. split; [rewrite Hget by reflexivity; reflexivity|].
    unfold _calcular_cfg_strength. cbv zeta.
    destruct Hi as [-> | ->]; [left|right]; reflexivity.
Qed.

End Orquestar.

(** A text of five characters has no paragraph; a text of two paragraphs
    and three sentences gives three entries. *)
Lemma orquestar_estructura_witness :
  let orq := Orquestacion.orquestar_lectura_completa lower_latin1 is_word_latin1
               (22 # 7) Orquestacion.seno_nulo Orquestacion.potencia_uno 185 145 in
  let t := lit "Primero llega la calma. Luego no."
           ++ [Orquestacion.c_nl; Orquestacion.c_nl] ++ lit "Pero ahora que pasa?" in
  orq (lit "Hola.") = Orquestacion.Lanza Orquestacion.ValueError
  /\ exists m,
       orq t = Orquestacion.Ok m
       /\ List.map Orquestacion.texto m
          = [lit "Primero llega la calma."; lit "Luego no."; lit "Pero ahora que pasa?"]
       /\ List.map (fun p => (Orquestacion.parrafo_id p, Orquestacion.frase_id p)) m
          = [(0, 0); (0, 1); (1, 0)]%nat.
Proof.
  cbv zeta. split.
  - apply orquestar_estructura. vm_compute. reflexivity.
  - match goal with
    | |- exists m, Orquestacion.orquestar_lectura_completa _ _ _ _ _ _ _ ?t = _ /\ _ =>
        destruct (orquestar_estructura lower_latin1 is_word_latin1 (22 # 7)
                    Orquestacion.seno_nulo Orquestacion.potencia_uno 185 145 t)
          as [_ H]
    end.
    destruct H as (m & fss & Hm & Hseg & Ht & Hids); [vm_compute; discriminate|].
    exists m. split; [exact Hm|].
    vm_compute in Hm. injection Hm as <-. split; reflexivity.
Defined.

(** The same text at 185 Hz and 145 words per minute. *)
Lemma matriz_acotada_witness :
  let orq := Orquestacion.orquestar_lectura_completa lower_latin1 is_word_latin1
               (22 # 7) Orquestacion.seno_nulo Orquestacion.potencia_uno 185 145 in
  let t := lit "Primero llega la calma. Luego no."
           ++ [Orquestacion.c_nl; Orquestacion.c_nl] ++ lit "Pero ahora que pasa?" in
  exists m,
    orq t = Orquestacion.Ok m
    /\ length m = 3%nat
    /\ Forall (fun p =>
                 (185 * (75 # 100) <= Orquestacion.tono_base p)%Q
                 /\ (Orquestacion.tono_base p <= 185 * (135 # 100))%Q
                 /\ (145 * (792 # 1000) <= Orquestacion.velocidad p)%Q
                 /\ (Orquestacion.velocidad p <= 145 * (11 # 10))%Q) m.
Proof.
  cbv zeta.
  match goal with
  | |- exists m, ?call = _ /\ _ =>
      destruct call as [m| |] eqn:E;
        [| vm_compute in E; discriminate | vm_compute in E; discriminate]
  end.
  exists m. split; [reflexivity|]. split.
  - vm_compute in E. injection E as <-. reflexivity.
  - assert (H0 : (0 <= 185)%Q) by discriminate.
    assert (H0' : (0 <= 145)%Q) by discriminate.
    pose proof (matriz_acotada lower_latin1 is_word_latin1 (22 # 7)
                  Orquestacion.seno_nulo Orquestacion.potencia_uno 185 145 _ m H0 H0' E)
      as Hall.
    eapply Forall_impl; [exact Hall|].
    cbn beta. intros p (H1 & H2 & H3 & H4 & _). repeat split; assumption.
Defined.

(** The parameters of the three sentences of the same text. *)
Lemma parametros_f5_acotados_witness :
  let orq := Orquestacion.orquestar_lectura_completa lower_latin1 is_word_latin1
               (22 # 7) Orquestacion.seno_nulo Orquestacion.potencia_uno 185 145 in
  let t := lit "Primero llega la calma. Luego no."
           ++ [Orquestacion.c_nl; Orquestacion.c_nl] ++ lit "Pero ahora que pasa?" in
  exists m ds,
    orq t = Orquestacion.Ok m
    /\ Orquestacion.generar_parametros_f5tts 185 145 m = Orquestacion.Ok ds
    /\ length ds = 3%nat
    /\ Forall (fun d =>
                 exists n, Orquestacion.dict_get (lit "nfe_step") d
                           = Some (Orquestacion.VEntero n)
                           /\ (32 <= n)%Z /\ (n <= 64)%Z) ds.
Proof.
  cbv zeta.
  match goal with
  | |- exists m ds, ?call = _ /\ _ =>
      destruct call as [m| |] eqn:E;
        [| vm_compute in E; discriminate | vm_compute in E; discriminate]
  end.
  assert (H0 : (0 < 185)%Q) by reflexivity.
  assert (H0' : (0 < 145)%Q) by reflexivity.
  destruct (parametros_f5_acotados lower_latin1 is_word_latin1 (22 # 7)
              Orquestacion.seno_nulo Orquestacion.potencia_uno 185 145 _ m H0 H0' E)
    as (ds & Hds & Hall).
  exists m, ds. split; [reflexivity|]. split; [exact Hds|]. split.
  - apply Forall2_length in Hall. rewrite <- Hall.
    vm_compute in E. injection E as <-. reflexivity.
  - clear -Hall. induction Hall as [|p d r r' Hpd Hr IH]; constructor; [|exact IH].
    destruct Hpd as (_ & _ & _ & Hn & _). exact Hn.
Defined.
